(** * escape-computer: the virtual file system and its command interpreter

    A shallow embedding of the terminal game: of the component [App] with
    its file system helpers [findNode], [updateFileSystemNode],
    [deleteNode], [resolvePath] and [getPathString], the interpreter
    [handleCommand], the script engine [executeScript] with its delayed
    continuations, [saveCheckpoint] and [restoreFromCheckpoint], the
    session identifier and the storage keys; of the panel [FileTree]; and
    of the transcript [TerminalOutput] with [renderContent].  The
    properties of the specification follow, stated and proved on the
    embedding, and after them further properties of the code.

    Conventions of the embedding.
    - A JavaScript string is a [string] of its UTF-8 bytes.  Every string
      operation the program uses ([===], [startsWith('/')], [split('/')],
      [join], [replace]) commutes with that encoding.
    - An optional field [f?: T] is an [option T]; [undefined] and an absent
      key are both [None] (the program never tells them apart, and
      [JSON.stringify] drops both).
    - A React state variable is a field of [App].  Inside one handler the
      variables read are those of the render the handler closes over
      (argument [s]), while the setters queue the next state (argument
      [acc]); [setX(prev => ...)] is a function applied to the queued value.
    - [setTimeout] queues a [Continuation] carrying the values its closure
      captured; [localStorage] is the [checkpoint] slot.
    - [TerminalLine.id] is a random string used only as a React key; it is
      left out.  [alert] dialogs are left out as well.
    - [passwordPrompt] is initialised to [null] and [setPasswordPrompt] is
      never called, so the interception test at the head of [handleCommand]
      never fires; it is left out.
    - A component is the list of what it draws, in document order, with
      the values that decide how it is drawn; class names and icons are
      left out.
    - The boot sequence and the save effect that mirrors the state under
      [SAVE_KEY] after every render are not modelled.
    - The initial tree [INITIAL_FILE_SYSTEM] is not needed: every
      statement is about an arbitrary tree.  [Demo] is a small tree of our
      own on which the interpreter is run. *)

From Stdlib Require Import String Ascii List Bool Arith PeanoNat Lia.
Import ListNotations.
Open Scope list_scope.
Open Scope string_scope.

(* ================================================================= *)
(** ** Strings *)

Module Js.

(** [s.startsWith(pre)] *)
Fixpoint startsWith (pre s : string) : bool :=
  match pre with
  | EmptyString => true
  | String a pre' =>
      match s with
      | EmptyString => false
      | String b s' => Ascii.eqb a b && startsWith pre' s'
      end
  end.

(** [s.split(c)] for a one-character separator. *)
Fixpoint split (sep : ascii) (s : string) : list string :=
  match s with
  | EmptyString => [EmptyString]
  | String c rest =>
      if Ascii.eqb c sep then EmptyString :: split sep rest
      else match split sep rest with
           | [] => [String c EmptyString]
           | w :: ws => String c w :: ws
           end
  end.

Fixpoint drop (n : nat) (s : string) : string :=
  match n, s with
  | O, _ => s
  | S _, EmptyString => EmptyString
  | S m, String _ rest => drop m rest
  end.

(** [s.replace(pat, rep)] with a string pattern: the first occurrence only. *)
Fixpoint replace (pat rep s : string) : string :=
  if startsWith pat s then rep ++ drop (String.length pat) s
  else match s with
       | EmptyString => EmptyString
       | String c rest => String c (replace pat rep rest)
       end.

(** [parts.join(sep)] *)
Definition join (sep : string) (parts : list string) : string :=
  String.concat sep parts.

(** Truthiness of [string | undefined] and of [boolean | undefined]. *)
Definition truthyS (o : option string) : bool :=
  match o with
  | Some s => negb (s =? "")
  | None => false
  end.

Definition truthyB (o : option bool) : bool :=
  match o with
  | Some b => b
  | None => false
  end.

(** [a === b] on [string | undefined]. *)
Definition strictEq (a b : option string) : bool :=
  match a, b with
  | Some x, Some y => x =? y
  | None, None => true
  | _, _ => false
  end.

(** [o || dflt] on [string | undefined]. *)
Definition orElse (o : option string) (dflt : string) : string :=
  match o with
  | Some s => if s =? "" then dflt else s
  | None => dflt
  end.

(** A [Set<string>]: its elements in insertion order.  A set built by
    [new Set(array)] has no duplicates, and [add] and [delete] keep it so. *)
Definition has (x : string) (l : list string) : bool :=
  existsb (String.eqb x) l.

Definition add (x : string) (l : list string) : list string :=
  if has x l then l else (l ++ [x])%list.

Definition delete (x : string) (l : list string) : list string :=
  filter (fun y => negb (y =? x)) l.

Definition size (l : list string) : nat := List.length l.

(** [new Set(array)]: the elements are added one after the other. *)
Definition newSet (array : list string) : list string :=
  fold_left (fun set x => add x set) array [].

(** [arr.includes(x)], [arr.every(p)], [arr.some(p)] *)
Definition includes (l : list string) (x : string) : bool :=
  existsb (String.eqb x) l.

End Js.

(* ================================================================= *)
(** ** The types: [FileNode], [TerminalLine], [GameState] *)

Inductive FileType := FILE | DIRECTORY.

#[warnings="-register-all"]
Inductive FileNode : Type := mkFileNode {
  name : string;
  type : FileType;
  content : option string;
  children : option (list FileNode);
  isHidden : option bool;
  password : option string;
  isLocked : option bool;
  isEvidence : option bool;
  scriptAction : option string
}.

Inductive LineType := input | output | system | monologue.

Record TerminalLine := mkLine {
  line_type : LineType;
  line_content : string;
  line_path : option string
}.

Inductive GameState := BOOT | PLAYING | WIN | LOSE.

Definition FileType_eqb (a b : FileType) : bool :=
  match a, b with
  | FILE, FILE | DIRECTORY, DIRECTORY => true
  | _, _ => false
  end.

(** [Partial<FileNode>]: for each key, [None] when the key is absent from
    the object literal and [Some v] when it is present with value [v]. *)
Record Partial := mkPartial {
  p_name : option string;
  p_type : option FileType;
  p_content : option (option string);
  p_children : option (option (list FileNode));
  p_isHidden : option (option bool);
  p_password : option (option string);
  p_isLocked : option (option bool);
  p_isEvidence : option (option bool);
  p_scriptAction : option (option string)
}.

Definition noUpdates : Partial :=
  mkPartial None None None None None None None None None.

Definition override {A} (old : A) (upd : option A) : A :=
  match upd with
  | Some v => v
  | None => old
  end.

(** [Object.assign(target, updates)], and so also [{...target, ...updates}]. *)
Definition assign (target : FileNode) (updates : Partial) : FileNode :=
  mkFileNode
    (override (name target) (p_name updates))
    (override (type target) (p_type updates))
    (override (content target) (p_content updates))
    (override (children target) (p_children updates))
    (override (isHidden target) (p_isHidden updates))
    (override (password target) (p_password updates))
    (override (isLocked target) (p_isLocked updates))
    (override (isEvidence target) (p_isEvidence updates))
    (override (scriptAction target) (p_scriptAction updates)).

(* ================================================================= *)
(** ** The file system helpers *)

Definition Path := list string.

(** [parts.length === 1 ? '/' : parts.join('/').replace('//', '/')] *)
Definition getPathString (parts : Path) : string :=
  if Nat.eqb (List.length parts) 1 then "/"
  else Js.replace "//" "/" (Js.join "/" parts).

(** [children.find(c => c.name === part)] *)
Definition findChild (part : string) (cs : list FileNode) : option FileNode :=
  find (fun c => name c =? part) cs.

(** The loop of [findNode]. *)
Fixpoint walk (parts : Path) (current : FileNode) : option FileNode :=
  match parts with
  | [] => Some current
  | part :: rest =>
      match type current, children current with
      | DIRECTORY, Some cs =>
          match findChild part cs with
          | Some found => walk rest found
          | None => None
          end
      | _, _ => None
      end
  end.

(** [pathParts[0] === '' ? pathParts.slice(1) : pathParts] *)
Definition skipRoot (pathParts : Path) : Path :=
  match pathParts with
  | first :: rest => if first =? "" then rest else pathParts
  | [] => pathParts
  end.

Definition isRootPath (pathParts : Path) : bool :=
  match pathParts with
  | [first] => first =? ""
  | _ => false
  end.

Definition findNode (pathParts : Path) (root : FileNode) : option FileNode :=
  if isRootPath pathParts then Some root
  else walk (skipRoot pathParts) root.

(** The array [cs] with its first element named [part] replaced. *)
Fixpoint replaceChild (part : string) (new : FileNode) (cs : list FileNode)
  : list FileNode :=
  match cs with
  | [] => []
  | c :: rest =>
      if name c =? part then new :: rest
      else c :: replaceChild part new rest
  end.

Definition withChildren (cs : option (list FileNode)) (n : FileNode) : FileNode :=
  mkFileNode (name n) (type n) (content n) cs (isHidden n) (password n)
             (isLocked n) (isEvidence n) (scriptAction n).

(** The tree obtained when the node that [walk parts] reaches is mutated by
    [f]: [None] when [walk] finds no node. *)
Fixpoint mutateAt (parts : Path) (f : FileNode -> FileNode) (current : FileNode)
  : option FileNode :=
  match parts with
  | [] => Some (f current)
  | part :: rest =>
      match type current, children current with
      | DIRECTORY, Some cs =>
          match findChild part cs with
          | Some found =>
              match mutateAt rest f found with
              | Some found' =>
                  Some (withChildren (Some (replaceChild part found' cs)) current)
              | None => None
              end
          | None => None
          end
      | _, _ => None
      end
  end.

(** [updateFileSystemNode(pathParts, updates)].  [newFS] is a shallow copy
    of the root, [findNode(pathParts, newFS)] is the copy itself or a node
    shared with the tree of the closure, and [Object.assign] mutates it.
    The result is the value passed to [setFileSystem], or [None] when the
    target is not found and nothing is set.  When the target is not the
    root, the mutation is in place, so that the tree read through the
    closure later in the same handler is this value too. *)
Definition updateFileSystemNode (pathParts : Path) (updates : Partial)
  (fileSystem : FileNode) : option FileNode :=
  if isRootPath pathParts then Some (assign fileSystem updates)
  else mutateAt (skipRoot pathParts) (fun target => assign target updates) fileSystem.

(** [deleteNode(name)] with [parentPath = currentPath]. *)
Definition deleteNode (nm : string) (currentPath : Path) (fileSystem : FileNode)
  : option FileNode :=
  match findNode currentPath fileSystem with
  | Some parent =>
      match children parent with
      | Some cs =>
          let kept := filter (fun c => negb (name c =? nm)) cs in
          if isRootPath currentPath then Some (withChildren (Some kept) fileSystem)
          else mutateAt (skipRoot currentPath) (withChildren (Some kept)) fileSystem
      | None => None
      end
  | None => None
  end.

Definition resolvePath (target : string) (currentPath : Path) : option Path :=
  if target =? "/" then Some [""]
  else if target =? ".." then
    if Nat.leb (List.length currentPath) 1 then Some [""]
    else Some (removelast currentPath)
  else if Js.startsWith "/" target then
    Some ([""] ++ filter (fun p => negb (p =? "")) (Js.split "/" target))%list
  else Some (currentPath ++ [target])%list.

(* ================================================================= *)
(** ** The state of the application *)

(** The object written to [localStorage] by the save effect and by
    [saveCheckpoint] (the [Set]s as arrays in insertion order). *)
Record SaveData := mkSaveData {
  sd_fileSystem : FileNode;
  sd_currentPath : Path;
  sd_history : list TerminalLine;
  sd_discoveredPaths : list string;
  sd_evidenceCollected : list string;
  sd_gameState : GameState;
  sd_bootSequence : list string
}.

(** What a callback handed to [setTimeout] does when it fires.  The
    continuation of the disguise script closes over the two booleans
    computed when the script was run. *)
Inductive Continuation :=
| AlarmReply
| CrackReply
| DisguiseVerdict (hasForbidden hasAllRequired : bool).

Record Timer := mkTimer {
  timer_id : nat;
  timer_delay : nat;
  timer_callback : Continuation
}.

Record App := mkApp {
  (* the [useState] variables *)
  fileSystem : FileNode;
  currentPath : Path;
  history : list TerminalLine;
  discoveredPaths : list string;
  evidenceCollected : list string;
  gameState : GameState;
  bootSequence : list string;
  (* the environment: [localStorage[CHECKPOINT_KEY]], whether
     [localStorage.setItem] succeeds, and the pending timeouts *)
  checkpoint : option SaveData;
  storageWritable : bool;
  timers : list Timer;
  nextTimerId : nat
}.

Definition setFileSystem (v : FileNode) (a : App) : App :=
  mkApp v (currentPath a) (history a) (discoveredPaths a) (evidenceCollected a)
        (gameState a) (bootSequence a) (checkpoint a) (storageWritable a)
        (timers a) (nextTimerId a).

Definition setCurrentPath (v : Path) (a : App) : App :=
  mkApp (fileSystem a) v (history a) (discoveredPaths a) (evidenceCollected a)
        (gameState a) (bootSequence a) (checkpoint a) (storageWritable a)
        (timers a) (nextTimerId a).

Definition setHistory (f : list TerminalLine -> list TerminalLine) (a : App) : App :=
  mkApp (fileSystem a) (currentPath a) (f (history a)) (discoveredPaths a)
        (evidenceCollected a) (gameState a) (bootSequence a) (checkpoint a)
        (storageWritable a) (timers a) (nextTimerId a).

Definition setDiscoveredPaths (f : list string -> list string) (a : App) : App :=
  mkApp (fileSystem a) (currentPath a) (history a) (f (discoveredPaths a))
        (evidenceCollected a) (gameState a) (bootSequence a) (checkpoint a)
        (storageWritable a) (timers a) (nextTimerId a).

Definition setEvidenceCollected (f : list string -> list string) (a : App) : App :=
  mkApp (fileSystem a) (currentPath a) (history a) (discoveredPaths a)
        (f (evidenceCollected a)) (gameState a) (bootSequence a) (checkpoint a)
        (storageWritable a) (timers a) (nextTimerId a).

Definition setGameState (v : GameState) (a : App) : App :=
  mkApp (fileSystem a) (currentPath a) (history a) (discoveredPaths a)
        (evidenceCollected a) v (bootSequence a) (checkpoint a)
        (storageWritable a) (timers a) (nextTimerId a).

Definition setCheckpoint (v : option SaveData) (a : App) : App :=
  mkApp (fileSystem a) (currentPath a) (history a) (discoveredPaths a)
        (evidenceCollected a) (gameState a) (bootSequence a) v
        (storageWritable a) (timers a) (nextTimerId a).

(** [setTimeout(callback, delay)] *)
Definition setTimeout (callback : Continuation) (delay : nat) (a : App) : App :=
  mkApp (fileSystem a) (currentPath a) (history a) (discoveredPaths a)
        (evidenceCollected a) (gameState a) (bootSequence a) (checkpoint a)
        (storageWritable a)
        (timers a ++ [mkTimer (nextTimerId a) delay callback])%list
        (S (nextTimerId a)).

(** A timeout that has fired is no longer pending. *)
Definition dropTimer (id : nat) (a : App) : App :=
  mkApp (fileSystem a) (currentPath a) (history a) (discoveredPaths a)
        (evidenceCollected a) (gameState a) (bootSequence a) (checkpoint a)
        (storageWritable a)
        (filter (fun t => negb (Nat.eqb (timer_id t) id)) (timers a))
        (nextTimerId a).

(** [addToHistory(type, content)]: the path recorded on an input line is
    that of the render the caller closes over. *)
Definition addToHistory (s : App) (ty : LineType) (text : string) (acc : App) : App :=
  let currentPathString := getPathString (currentPath s) in
  setHistory
    (fun prev =>
       (prev ++ [mkLine ty text
                   (match ty with input => Some currentPathString | _ => None end)])%list)
    acc.

(** [saveCheckpoint()]: the variables of the closure, the tree as it is
    when [JSON.stringify] walks it ([fs]), and the phase forced to PLAYING.
    A failing [localStorage.setItem] is caught and changes nothing. *)
Definition saveCheckpoint (s : App) (fs : FileNode) (acc : App) : App :=
  let checkpointData :=
    mkSaveData fs (currentPath s) (history s) (discoveredPaths s)
               (evidenceCollected s) PLAYING (bootSequence s) in
  if storageWritable acc then setCheckpoint (Some checkpointData) acc else acc.

(** [restoreFromCheckpoint()] *)
Definition restoreFromCheckpoint (a : App) : App :=
  match checkpoint a with
  | Some data =>
      mkApp (sd_fileSystem data) (sd_currentPath data) (sd_history data)
            (Js.newSet (sd_discoveredPaths data))
            (Js.newSet (sd_evidenceCollected data)) PLAYING
            (sd_bootSequence data) (checkpoint a) (storageWritable a)
            (timers a) (nextTimerId a)
  | None => a
  end.

(** [handleTreeNavigate(pathStr)] *)
Definition handleTreeNavigate (pathStr : string) (a : App) : App :=
  if (pathStr =? "") || (pathStr =? "/") then setCurrentPath [""] a
  else setCurrentPath ("" :: filter (fun p => negb (p =? "")) (Js.split "/" pathStr)) a.

(* ================================================================= *)
(** ** The script engine *)

(** The evidence-intake directory, [['', 'home', 'user']]. *)
Definition homeUser : Path := [""; "home"; "user"].

Definition required : list string :=
  ["证据_1.txt"; "陈冰-刘青原"; "证据_3.txt"; "证据_5.txt"; "证据_6.txt"; "证据_8.txt"].

Definition forbidden : list string := ["证据_4.txt"; "证据_7.txt"].

Definition msgIncomplete : string :=
  "错误：证据收集不完整。检查是否多删了可用的证据碎片。".

Definition msgPacking : string := "正在打包并伪装数据...".

Definition msgVerifyFailed : string :=
  "错误：文件校验失败，关键证据丢失或文件不完整。".

(** [userFolder?.children?.map(c => c.name) || []] *)
Definition childNames (folder : option FileNode) : list string :=
  match folder with
  | Some f =>
      match children f with
      | Some cs => map name cs
      | None => []
      end
  | None => []
  end.

(** [executeScript(action, args)].  [s] holds the variables of the closure
    and [heap] is the tree reachable from the closure's [fileSystem] at the
    time of the call. *)
Definition executeScript (s : App) (heap : FileNode) (action : string)
  (args : list string) (acc : App) : App :=
  if action =? "ALARM_SCRIPT" then
    setTimeout AlarmReply 1000
      (addToHistory s system "正在尝试建立外部连接..." acc)
  else if action =? "CRACK_SCRIPT" then
    setTimeout CrackReply 1500 (addToHistory s system "正在破解..." acc)
  else if action =? "DISGUISE_SCRIPT" then
    let userFolder := findNode homeUser heap in
    let userFiles := childNames userFolder in
    let hasAllRequired := forallb (fun f => Js.includes userFiles f) required in
    let hasForbidden := existsb (fun f => Js.includes userFiles f) forbidden in
    if Nat.ltb (Js.size (evidenceCollected s)) 6 then
      addToHistory s output msgIncomplete acc
    else
      let acc1 := addToHistory s system msgPacking acc in
      let acc2 := saveCheckpoint s heap acc1 in
      setTimeout (DisguiseVerdict hasForbidden hasAllRequired) 2000 acc2
  else acc.

(** The body of a timeout callback, run on the state [a] current when it
    fires.  None of the lines it prints is an input line, so the path of
    the closure is not used. *)
Definition runCallback (k : Continuation) (a : App) : App :=
  match k with
  | AlarmReply =>
      addToHistory a monologue
        "（看来没有证据是行不通的，要先收集公司犯罪的证据，找到之后先放在/home/user文件夹下好了，找全之后再打包，我记得公司的数据都放在data文件夹）"
        a
  | CrackReply => addToHistory a system "密钥: fygr5673o" a
  | DisguiseVerdict hasForbidden hasAllRequired =>
      if hasForbidden then setGameState LOSE a
      else if hasAllRequired then setGameState WIN a
      else addToHistory a output msgVerifyFailed a
  end.

(** The pending timeout [id] fires. *)
Definition fireTimer (id : nat) (a : App) : App :=
  match find (fun t => Nat.eqb (timer_id t) id) (timers a) with
  | Some t => runCallback (timer_callback t) (dropTimer id a)
  | None => a
  end.

(* ================================================================= *)
(** ** The command interpreter *)

Definition helpText : string :=
  "可用的指令:
  help                    显示所有可用指令
  ls                      列出当前目录下的所有文件
  cd 文件夹名 密码         进入指定文件夹（如果文件夹被加密，需要输入密码）
  cd ..                   回退到上一级目录
  cat 文件名 密码          查看文件内容（如果文件被加密，需要输入密码）
  search 文件名            查找隐藏文件
  rm 文件名                删除文件（仅在/home/user下生效）
  ./脚本名称.sh            运行脚本文件".

Definition msgEmptyDir : string := "(空目录)".
Definition msgNoDir (a : string) : string := "找不到目录: " ++ a.
Definition msgDenied (n : string) : string := "访问被拒绝：需要密码才能打开 " ++ n.
Definition msgNoFile (a : string) : string := "找不到文件: " ++ a.
Definition msgNoFileHidden (a : string) : string :=
  "找不到文件: " ++ a ++ " (可能被隐藏)".
Definition msgCollected (n : string) : string :=
  "证据已收集: " ++ n ++ " 已保存至 /home/user/".
Definition msgRevealed (n : string) : string := "找到隐藏文件: " ++ n.
Definition msgNeedPassword (ty : FileType) (n : string) : string :=
  "需要密码才能" ++ (match ty with DIRECTORY => "进入" | FILE => "打开" end)
  ++ " " ++ n.
Definition msgEntered (n : string) : string := "已进入: " ++ n.
Definition newline : string := String (ascii_of_nat 10) EmptyString.
Definition msgScriptHint (n : string) (c : option string) : string :=
  "找到脚本文件: " ++ n ++ newline ++ "内容: " ++ Js.orElse c "(脚本)" ++ newline
  ++ "请使用命令 ./" ++ n ++ " 来运行此脚本".
Definition msgExists (n : string) : string := "文件 " ++ n ++ " 已存在".
Definition msgNoHidden : string := "无此名称的隐藏文件".
Definition msgRmDenied : string :=
  "权限被拒绝：rm 命令仅在 /home/user 目录中可用，用于管理证据。".
Definition msgDeleted (n : string) : string := "File " ++ n ++ " deleted.".
Definition msgRmNotFound (n : string) : string := "File not found: " ++ n.
Definition msgNoScript (n : string) : string := "Script not found: " ++ n.
Definition msgNoCommand (c : string) : string := "Command not found: " ++ c.

(** [args[i]] as a string, [undefined] read as [''] (both are falsy). *)
Definition arg (i : nat) (args : list string) : string := nth i args "".

(** [currentNode?.children?.find(c => c.name === nm)] *)
Definition childOf (currentNode : option FileNode) (nm : string) : option FileNode :=
  match currentNode with
  | Some n =>
      match children n with
      | Some cs => findChild nm cs
      | None => None
      end
  | None => None
  end.

Definition isA (ty : FileType) (n : option FileNode) : bool :=
  match n with
  | Some node => FileType_eqb (type node) ty
  | None => false
  end.

Definition case_ls (s : App) (acc : App) : App :=
  match findNode (currentPath s) (fileSystem s) with
  | Some node =>
      match type node with
      | DIRECTORY =>
          let acc1 :=
            setDiscoveredPaths (Js.add (getPathString (currentPath s))) acc in
          let visibleChildren :=
            option_map
              (fun cs =>
                 map (fun c => match type c with
                               | DIRECTORY => "[DIR] " ++ name c
                               | FILE => name c
                               end)
                     (filter (fun c => negb (Js.truthyB (isHidden c))) cs))
              (children node) in
          match visibleChildren with
          | None | Some [] => addToHistory s output msgEmptyDir acc1
          | Some lines => addToHistory s output (Js.join newline lines) acc1
          end
      | FILE => acc
      end
  | None => acc
  end.

Definition unlockPatch : Partial :=
  mkPartial None None None None None (Some None) (Some (Some false)) None None.

Definition case_cd (s : App) (args : list string) (acc : App) : App :=
  if arg 0 args =? "" then setCurrentPath [""] acc
  else
    match resolvePath (arg 0 args) (currentPath s) with
    | None => addToHistory s output ("无效路径: " ++ arg 0 args) acc
    | Some targetPath =>
        match findNode targetPath (fileSystem s) with
        | Some targetNode =>
            match type targetNode with
            | DIRECTORY =>
                (* [if (targetNode.isHidden && !targetNode.isLocked) { }]
                   has an empty body *)
                if Js.truthyS (password targetNode) then
                  if Js.strictEq (nth_error args 1) (password targetNode) then
                    let acc1 :=
                      match updateFileSystemNode targetPath unlockPatch (fileSystem s) with
                      | Some newFS => setFileSystem newFS acc
                      | None => acc
                      end in
                    setCurrentPath targetPath acc1
                  else addToHistory s output (msgDenied (name targetNode)) acc
                else setCurrentPath targetPath acc
            | FILE => addToHistory s output (msgNoDir (arg 0 args)) acc
            end
        | None => addToHistory s output (msgNoDir (arg 0 args)) acc
        end
    end.

Definition evidencePatch : Partial :=
  mkPartial None None None None None None None (Some (Some false)) None.

Definition childrenPatch (cs : list FileNode) : Partial :=
  mkPartial None None None (Some (Some cs)) None None None None None.

(** The lookup of [cat]: the resolved path, and when that is no FILE, the
    child of the current directory with that very name. *)
Definition catLookup (s : App) (a0 : string) : option FileNode :=
  let fileNode :=
    match resolvePath a0 (currentPath s) with
    | Some targetFilePath => findNode targetFilePath (fileSystem s)
    | None => None
    end in
  if isA FILE fileNode then fileNode
  else childOf (findNode (currentPath s) (fileSystem s)) a0.

Definition case_cat (s : App) (args : list string) (acc : App) : App :=
  if arg 0 args =? "" then addToHistory s output "Usage: cat <filename>" acc
  else
    match catLookup s (arg 0 args) with
    | Some fileNode =>
        match type fileNode with
        | FILE =>
            if Js.truthyB (isHidden fileNode) then
              addToHistory s output (msgNoFileHidden (arg 0 args)) acc
            else
              (* evidence collection; [heap] is the tree seen through the
                 closure once the intake directory has been mutated *)
              let '(heap, acc2) :=
                if Js.truthyB (isEvidence fileNode)
                   && negb (Js.has (name fileNode) (evidenceCollected s))
                then
                  let acc1 :=
                    addToHistory s system (msgCollected (name fileNode))
                      (setEvidenceCollected (Js.add (name fileNode)) acc) in
                  match findNode homeUser (fileSystem s) with
                  | Some intake =>
                      match children intake with
                      | Some cs =>
                          match findChild (name fileNode) cs with
                          | None =>
                              match updateFileSystemNode homeUser
                                      (childrenPatch (cs ++ [assign fileNode evidencePatch])%list)
                                      (fileSystem s) with
                              | Some newFS => (newFS, setFileSystem newFS acc1)
                              | None => (fileSystem s, acc1)
                              end
                          | Some _ => (fileSystem s, acc1)
                          end
                      | None => (fileSystem s, acc1)
                      end
                  | None => (fileSystem s, acc1)
                  end
                else (fileSystem s, acc) in
              if Js.truthyS (scriptAction fileNode) then
                executeScript s heap (Js.orElse (scriptAction fileNode) "") args acc2
              else addToHistory s output (Js.orElse (content fileNode) "") acc2
        | DIRECTORY => addToHistory s output (msgNoFile (arg 0 args)) acc
        end
    | None => addToHistory s output (msgNoFile (arg 0 args)) acc
    end.

Definition revealPatch : Partial :=
  mkPartial None None None None (Some (Some false)) None None None None.

Definition case_search (s : App) (args : list string) (acc : App) : App :=
  if arg 0 args =? "" then
    addToHistory s output "Usage: search <filename> or search <name1>-<name2>" acc
  else
    let term := arg 0 args in
    let currentNode := findNode (currentPath s) (fileSystem s) in
    match childOf currentNode term with
    | Some found =>
        if Js.truthyB (isHidden found) then
          let childPath := (currentPath s ++ [name found])%list in
          (* [updateFileSystemNode(childPath, { isHidden: false })]: when the
             target is found it is the object [found] itself, mutated in
             place, so that [found] and the tree of the closure both show
             the change from here on *)
          let '(heap, found, acc1) :=
            match updateFileSystemNode childPath revealPatch (fileSystem s) with
            | Some newFS => (newFS, assign found revealPatch, setFileSystem newFS acc)
            | None => (fileSystem s, found, acc)
            end in
          let acc2 := addToHistory s system (msgRevealed (name found)) acc1 in
          if Js.truthyS (password found) then
            addToHistory s output (msgNeedPassword (type found) (name found)) acc2
          else
            match type found with
            | DIRECTORY =>
                addToHistory s system (msgEntered (name found))
                  (setCurrentPath childPath acc2)
            | FILE =>
                if Js.truthyS (scriptAction found) then
                  addToHistory s output
                    (msgScriptHint (name found) (content found)) acc2
                else
                  let acc3 :=
                    addToHistory s output (Js.orElse (content found) "") acc2 in
                  if Js.truthyB (isEvidence found)
                     && negb (Js.has (name found) (evidenceCollected s))
                  then
                    let acc4 :=
                      addToHistory s system (msgCollected (name found))
                        (setEvidenceCollected (Js.add (name found)) acc3) in
                    match findNode homeUser heap with
                    | Some intake =>
                        match children intake with
                        | Some cs =>
                            match findChild (name found) cs with
                            | None =>
                                match updateFileSystemNode homeUser
                                        (childrenPatch (cs ++ [assign found evidencePatch])%list)
                                        heap with
                                | Some newFS => setFileSystem newFS acc4
                                | None => acc4
                                end
                            | Some _ => acc4
                            end
                        | None => acc4
                        end
                    | None => acc4
                    end
                  else acc3
            end
        else addToHistory s output (msgExists (name found)) acc
    | None => addToHistory s output msgNoHidden acc
    end.

Definition case_rm (s : App) (args : list string) (acc : App) : App :=
  if arg 0 args =? "" then addToHistory s output "Usage: rm <filename>" acc
  else
    let currentPathStr := getPathString (currentPath s) in
    if negb (currentPathStr =? "/home/user") then
      addToHistory s output msgRmDenied acc
    else
      let fileName := arg 0 args in
      let currentNode := findNode (currentPath s) (fileSystem s) in
      match childOf currentNode fileName with
      | Some _ =>
          let acc1 :=
            match deleteNode fileName (currentPath s) (fileSystem s) with
            | Some newFS => setFileSystem newFS acc
            | None => acc
            end in
          let acc2 :=
            if Js.has fileName (evidenceCollected s) then
              setEvidenceCollected
                (fun _ => Js.delete fileName (evidenceCollected s)) acc1
            else acc1 in
          addToHistory s output (msgDeleted fileName) acc2
      | None => addToHistory s output (msgRmNotFound fileName) acc
      end.

Definition case_script (s : App) (cmd : string) (args : list string) (acc : App)
  : App :=
  let scriptName := Js.replace "./" "" cmd in
  let currentNode := findNode (currentPath s) (fileSystem s) in
  match childOf currentNode scriptName with
  | Some scriptNode =>
      if Js.truthyS (scriptAction scriptNode) then
        executeScript s (fileSystem s) (Js.orElse (scriptAction scriptNode) "")
          args acc
      else addToHistory s output (msgNoScript scriptName) acc
  | None => addToHistory s output (msgNoScript scriptName) acc
  end.

(** The [switch (cmd)] of [handleCommand]. *)
Definition dispatch (s : App) (cmd : string) (args : list string) (acc : App)
  : App :=
  if cmd =? "help" then addToHistory s output helpText acc
  else if cmd =? "ls" then case_ls s acc
  else if cmd =? "cd" then case_cd s args acc
  else if cmd =? "cat" then case_cat s args acc
  else if cmd =? "search" then case_search s args acc
  else if cmd =? "rm" then case_rm s args acc
  else if (cmd =? "./伪装.sh") || (cmd =? "./报警.sh") || (cmd =? "./seconddemo.sh")
  then case_script s cmd args acc
  else addToHistory s output (msgNoCommand cmd) acc.

(** [handleCommand] once the line [cmdStr] has been cut into [cmd] and
    [args]: the input is echoed, then dispatched. *)
Definition runCommand (cmdStr cmd : string) (args : list string) (s : App) : App :=
  dispatch s cmd args (addToHistory s input cmdStr s).

(** *** Tokens

    The white space of [trim] and of [\s], as UTF-8 byte sequences:
    U+0009..U+000D, U+0020, U+00A0, U+1680, U+2000..U+200A, U+2028, U+2029,
    U+202F, U+205F, U+3000 and U+FEFF. *)
Definition bytes (l : list nat) : string :=
  fold_right (fun n acc => String (ascii_of_nat n) acc) EmptyString l.

Definition whiteSpace : list string :=
  map bytes
    [ [9]; [10]; [11]; [12]; [13]; [32]; [194; 160]; [225; 154; 128];
      [226; 128; 128]; [226; 128; 129]; [226; 128; 130]; [226; 128; 131];
      [226; 128; 132]; [226; 128; 133]; [226; 128; 134]; [226; 128; 135];
      [226; 128; 136]; [226; 128; 137]; [226; 128; 138]; [226; 128; 168];
      [226; 128; 169]; [226; 128; 175]; [226; 129; 159]; [227; 128; 128];
      [239; 187; 191] ].

(** The number of bytes of the white-space character [s] starts with. *)
Definition whiteSpaceAt (s : string) : nat :=
  match find (fun w => Js.startsWith w s) whiteSpace with
  | Some w => String.length w
  | None => 0
  end.

(** Each byte of a token as [Some], each white-space character as [None]. *)
Fixpoint scan (skip : nat) (s : string) : list (option ascii) :=
  match s with
  | EmptyString => []
  | String c rest =>
      match skip with
      | S k => scan k rest
      | O =>
          match whiteSpaceAt s with
          | O => Some c :: scan 0 rest
          | S k => None :: scan k rest
          end
      end
  end.

Fixpoint words (l : list (option ascii)) : list string :=
  match l with
  | [] => []
  | None :: rest => words rest
  | Some c :: rest =>
      match rest with
      | Some _ :: _ =>
          match words rest with
          | w :: ws => String c w :: ws
          | [] => [String c EmptyString]
          end
      | _ => String c EmptyString :: words rest
      end
  end.

(** [cmdStr.trim().split(/\s+/)] when [cmdStr.trim()] is not empty: the
    maximal runs of characters that are not white space; [[]] when
    [cmdStr.trim()] is empty. *)
Definition tokens (cmdStr : string) : list string := words (scan 0 cmdStr).

Definition handleCommand (cmdStr : string) (s : App) : App :=
  match tokens cmdStr with
  | [] => s
  | cmd :: args => runCommand cmdStr cmd args s
  end.

(* ================================================================= *)
(** ** A small file system to run the interpreter on *)

Module Demo.

Definition file (n : string) (c : string) : FileNode :=
  mkFileNode n FILE (Some c) None None None None None None.

Definition dir (n : string) (cs : list FileNode) : FileNode :=
  mkFileNode n DIRECTORY None (Some cs) None None None None None.

Definition evidence (n : FileNode) : FileNode :=
  assign n (mkPartial None None None None None None None (Some (Some true)) None).

Definition hidden (n : FileNode) : FileNode :=
  assign n (mkPartial None None None None (Some (Some true)) None None None None).

Definition locked (pw : string) (n : FileNode) : FileNode :=
  assign n (mkPartial None None None None None (Some (Some pw)) (Some (Some true)) None None).

Definition script (action : string) (n : FileNode) : FileNode :=
  assign n (mkPartial None None None None None None None None (Some (Some action))).

(** /home/user is empty; /data holds the eight pieces of evidence the
    disguise script knows, a hidden ninth one, a hidden directory, a
    locked directory and a file that carries a password; the disguise
    script sits in the root. *)
Definition root : FileNode :=
  dir ""
    [ dir "home" [ dir "user" [] ];
      dir "data"
        [ evidence (file "证据_1.txt" "one");
          evidence (file "陈冰-刘青原" "two");
          evidence (file "证据_3.txt" "three");
          evidence (file "证据_4.txt" "four");
          evidence (file "证据_5.txt" "five");
          evidence (file "证据_6.txt" "six");
          evidence (file "证据_7.txt" "seven");
          evidence (file "证据_8.txt" "eight");
          hidden (evidence (file "secret.txt" "hush"));
          hidden (dir "ghost" [ file "boo.txt" "boo" ]);
          locked "open" (dir "vault" [ file "note.txt" "note" ]);
          locked "pw" (file "locked.txt" "classified") ];
      script "DISGUISE_SCRIPT" (file "伪装.sh" "#!/bin/sh") ].

Definition start : App :=
  mkApp root [""] [] ["/"] [] PLAYING [] None true [] 0.

(** Running a list of command lines from left to right. *)
Definition run (lines : list string) (a : App) : App :=
  fold_left (fun acc l => handleCommand l acc) lines a.

End Demo.

(* ================================================================= *)
(** ** The vocabulary of the properties *)

Definition keepsName (f : FileNode -> FileNode) : Prop :=
  forall n, name (f n) = name n.

(** What the script looks for in the evidence-intake directory. *)
Definition forbiddenPresent (heap : FileNode) : Prop :=
  exists f, In f forbidden /\ In f (childNames (findNode homeUser heap)).

Definition allRequiredPresent (heap : FileNode) : Prop :=
  forall f, In f required -> In f (childNames (findNode homeUser heap)).

(** The player presses Enter on a line, a pending timeout fires, or the
    player double-clicks a directory of the file tree.  (Restoring the
    checkpoint from an ending screen replaces the state by an earlier one;
    a run, in what follows, is a sequence of events without it.) *)
Inductive Event :=
| Typed (cmdStr : string)
| Fired (id : nat)
| Navigated (pathStr : string).

Definition step (e : Event) (a : App) : App :=
  match e with
  | Typed cmdStr => handleCommand cmdStr a
  | Fired id => fireTimer id a
  | Navigated pathStr => handleTreeNavigate pathStr a
  end.

Definition steps (es : list Event) (a : App) : App :=
  fold_left (fun acc e => step e acc) es a.

(** What the evidence-collection code of [cat] and of [search] does to the
    tree [fs] it reads for the node [node]: a copy of [node] with
    [isEvidence] cleared is appended to the intake directory, unless that
    directory is missing or already has a child of that name. *)
Definition appendClone (node : FileNode) (fs : FileNode) : FileNode :=
  match findNode homeUser fs with
  | Some intake =>
      match children intake with
      | Some cs =>
          match findChild (name node) cs with
          | None =>
              match updateFileSystemNode homeUser
                      (childrenPatch (cs ++ [assign node evidencePatch])%list) fs with
              | Some newFS => newFS
              | None => fs
              end
          | Some _ => fs
          end
      | None => fs
      end
  | None => fs
  end.

(** The three ways in which a command changes the tree and the ledger. *)
Inductive Effect : FileNode * list string -> FileNode * list string -> Prop :=
| eff_patch (p : Path) (patch : Partial) (fs t : FileNode) (L : list string) :
    patch = unlockPatch \/ patch = revealPatch ->
    updateFileSystemNode p patch fs = Some t ->
    Effect (fs, L) (t, L)
| eff_collect (node fs : FileNode) (L : list string) :
    type node = FILE ->
    Js.has (name node) L = false ->
    Effect (fs, L) (appendClone node fs, Js.add (name node) L)
| eff_delete (nm : string) (p : Path) (fs t : FileNode) (L : list string) :
    getPathString p = "/home/user" ->
    deleteNode nm p fs = Some t ->
    Effect (fs, L) (t, Js.delete nm L).

Inductive Effects : FileNode * list string -> FileNode * list string -> Prop :=
| effs_nil x : Effects x x
| effs_cons x y z : Effect x y -> Effects y z -> Effects x z.

(** The effects of one event: patches and collections, in which no node
    is lost, with at most one further effect at the end. *)
Inductive Burst : FileNode * list string -> FileNode * list string -> Prop :=
| burst_nil x : Burst x x
| burst_last x y : Effect x y -> Burst x y
| burst_patch (p : Path) (patch : Partial) (fs t : FileNode) (L : list string) z :
    patch = unlockPatch \/ patch = revealPatch ->
    updateFileSystemNode p patch fs = Some t ->
    Burst (t, L) z -> Burst (fs, L) z
| burst_collect (node fs : FileNode) (L : list string) z :
    type node = FILE ->
    Js.has (name node) L = false ->
    Burst (appendClone node fs, Js.add (name node) L) z -> Burst (fs, L) z.

(** A node that is found at the same path of [fs] and of [t], and is not
    hidden in [fs], is not hidden in [t]. *)
Definition keepsRevealed (fs t : FileNode) : Prop :=
  forall p d d',
    walk p fs = Some d -> walk p t = Some d' ->
    Js.truthyB (isHidden d) = false -> Js.truthyB (isHidden d') = false.

(** Every path of [fs] is a path of [t]. *)
Definition keepsNodes (fs t : FileNode) : Prop :=
  forall p d, walk p fs = Some d -> exists d', walk p t = Some d'.

Definition treeAndLedger (a : App) : FileNode * list string :=
  (fileSystem a, evidenceCollected a).

(** Every directory of the tree [t] was a directory at the same path of
    [fs], and has the password it had there or none. *)
Definition noNewLock (fs t : FileNode) : Prop :=
  forall p d',
    walk p t = Some d' -> type d' = DIRECTORY ->
    exists d, walk p fs = Some d /\ type d = DIRECTORY /\
              (password d' = password d \/ password d' = None).

(** The evidence collection that [cat] and [search] share: when [node] is
    marked as evidence and its name is not in the ledger, the name is added
    and the node is copied into the intake directory. *)
Definition collectEvidence (node : FileNode) (x : FileNode * list string)
  : FileNode * list string :=
  if Js.truthyB (isEvidence node) && negb (Js.has (name node) (snd x))
  then (appendClone node (fst x), Js.add (name node) (snd x))
  else x.

(** The identifiers of the pending timeouts are older than the next one. *)
Definition timersFresh (a : App) : Prop :=
  forall t, In t (timers a) -> timer_id t < nextTimerId a.

(** The callback that fires under the identifier [id]. *)
Definition pendingCallback (id : nat) (a : App) : option Continuation :=
  option_map timer_callback
    (find (fun t => Nat.eqb (timer_id t) id) (timers a)).

(** What the invariant needs to know of a child: its name and its
    evidence mark. *)
Definition tag (c : FileNode) : string * option bool := (name c, isEvidence c).

Definition kidsAt (P : Path) (fs : FileNode) : option (list (string * option bool)) :=
  match walk P fs with
  | Some n => option_map (map tag) (children n)
  | None => None
  end.

Definition countTag (n : string) (ks : list (string * option bool)) : nat :=
  List.length (filter (fun k => fst k =? n) ks).

(** The ledger is duplicate free, the intake directory exists and has at
    most one child named [n]; that child is no evidence itself, and it is
    there whenever [n] is in the ledger. *)
Definition collectedOnce (n : string) (x : FileNode * list string) : Prop :=
  NoDup (snd x) /\
  exists ks,
    kidsAt (skipRoot homeUser) (fst x) = Some ks /\
    countTag n ks <= 1 /\
    (forall e, In (n, e) ks -> e = Some false) /\
    (In n (snd x) -> countTag n ks = 1).

(* ================================================================= *)
(** ** The session and its keys *)

(** [getPlayerSessionId()], with the content of
    [sessionStorage['soul_bridge_session_id']] before and after the call;
    [now] is [Date.now()] as it is printed and [random] is the piece of
    [Math.random()] in base 36. *)
Definition getPlayerSessionId (stored : option string) (now random : string)
  : string * option string :=
  if Js.truthyS stored then (Js.orElse stored "", stored)
  else
    let sessionId := "player_" ++ now ++ "_" ++ random in
    (sessionId, Some sessionId).

Definition SAVE_KEY (playerSessionId : string) : string :=
  "soul_bridge_save_" ++ playerSessionId.

Definition CHECKPOINT_KEY (playerSessionId : string) : string :=
  "soul_bridge_checkpoint_" ++ playerSessionId.

(* ================================================================= *)
(** ** The file tree panel: [FileTree] and [FileTreeNode]

    What the panel draws is the list of its [FileTreeNode]s in document
    order; a row records the props and the two booleans the component
    computes from them. *)

Record Row := mkRow {
  row_node : FileNode;
  row_path : string;
  row_level : nat;
  row_isCurrent : bool;
  row_isDiscovered : bool
}.

(** [path === '/' ? `/${child.name}` : `${path}/${child.name}`] *)
Definition childPath (path childName : string) : string :=
  if path =? "/" then "/" ++ childName else path ++ "/" ++ childName.

Fixpoint FileTreeNode (currentPathStr : string) (discovered : list string)
  (node : FileNode) (path : string) (level : nat) {struct node} : list Row :=
  let isCurrent := path =? currentPathStr in
  let isDiscovered := Js.has path discovered || (path =? "/") in
  mkRow node path level isCurrent isDiscovered ::
  match type node, children node with
  | DIRECTORY, Some cs =>
      if isDiscovered then
        flat_map
          (fun child =>
             if Js.truthyB (isHidden child) then []
             else FileTreeNode currentPathStr discovered child
                    (childPath path (name child)) (S level))
          cs
      else []
  | _, _ => []
  end.

(** [currentPath.length === 1 ? '/' : '/' + currentPath.slice(1).join('/')] *)
Definition currentPathStr (currentPath : Path) : string :=
  if Nat.eqb (List.length currentPath) 1 then "/"
  else "/" ++ Js.join "/" (tl currentPath).

Definition FileTree (root : FileNode) (currentPath : Path)
  (discovered : list string) : list Row :=
  FileTreeNode (currentPathStr currentPath) discovered root "/" 0.

(** [handleDoubleClick] of a row, with [onNavigate] the
    [handleTreeNavigate] that [App] passes down. *)
Definition handleDoubleClick (r : Row) (a : App) : App :=
  if FileType_eqb (type (row_node r)) DIRECTORY && row_isDiscovered r
  then handleTreeNavigate (row_path r) a
  else a.

(** The panel as [App] renders it. *)
Definition sidebar (a : App) : list Row :=
  FileTree (fileSystem a) (currentPath a) (discoveredPaths a).

(* ================================================================= *)
(** ** The transcript on screen: [TerminalOutput] and [renderContent]

    [renderContent] cuts the text of an output line with
    [text.split(/(\n|\[\[HIDDEN:.*?\]\]|（[^）]*）|\([^)]*\))/g)].
    [split] looks for a match at each position from left to right; a
    match is kept as a part of its own (the pattern is one capturing
    group), the text between two matches is a part too, also when it is
    empty, and the search goes on behind the match.  At a position the
    alternatives are tried in their order; they begin with different
    characters, so at most one applies:
    - a line feed;
    - [[[HIDDEN:], then as few characters as possible, none a line
      terminator, then []]]: so up to the first []]], if no line
      terminator stands before it;
    - [（], then characters other than [）], then [）]: so up to the first
      [）] (line feeds included);
    - the same with [(] and [)].
    Lengths are counted in bytes of the UTF-8 encoding; no pattern begins
    or ends inside a character. *)

Module Render.

(** The characters [.] does not match: U+000A, U+000D, U+2028, U+2029. *)
Definition lineTerminators : list string :=
  map bytes [ [10]; [13]; [226; 128; 168]; [226; 128; 169] ].

Definition atLineTerminator (s : string) : bool :=
  existsb (fun t => Js.startsWith t s) lineTerminators.

(** [.*?\]\]] at the head of [s]: the length of the match. *)
Fixpoint lazyUntilClose (s : string) : option nat :=
  match s with
  | EmptyString => None
  | String _ rest =>
      if Js.startsWith "]]" s then Some 2
      else if atLineTerminator s then None
      else option_map S (lazyUntilClose rest)
  end.

(** [[^c]*c] at the head of [s], for the closing character [close]. *)
Fixpoint untilFirst (close s : string) : option nat :=
  match s with
  | EmptyString => None
  | String _ rest =>
      if Js.startsWith close s then Some (String.length close)
      else option_map S (untilFirst close rest)
  end.

(** The length of the match of the pattern at the head of [s]; 0 when
    there is none (the pattern matches no empty string). *)
Definition matchAt (s : string) : nat :=
  if Js.startsWith newline s then 1
  else if Js.startsWith "[[HIDDEN:" s then
    match lazyUntilClose (Js.drop 9 s) with
    | Some n => 9 + n
    | None => 0
    end
  else if Js.startsWith "（" s then
    match untilFirst "）" (Js.drop (String.length "（") s) with
    | Some n => String.length "（" + n
    | None => 0
    end
  else if Js.startsWith "(" s then
    match untilFirst ")" (Js.drop 1 s) with
    | Some n => 1 + n
    | None => 0
    end
  else 0.

(** The character [c] in front of the first of the parts. *)
Definition put (c : ascii) (parts : list string) : list string :=
  match parts with
  | p :: ps => String c p :: ps
  | [] => [String c EmptyString]
  end.

(** [text.split(pattern)], read from a position at which [inMatch] bytes
    of a match are still to come: the parts from the one this position
    is in. *)
Fixpoint split (inMatch : nat) (text : string) : list string :=
  match text with
  | EmptyString => [EmptyString]
  | String c rest =>
      match inMatch with
      | S O => String c EmptyString :: split 0 rest
      | S k => put c (split k rest)
      | O =>
          match matchAt text with
          | O => put c (split 0 rest)
          | S O => EmptyString :: String c EmptyString :: split 0 rest
          | S k => EmptyString :: put c (split k rest)
          end
      end
  end.

(** [s.endsWith(suffix)] *)
Definition endsWith (suffix s : string) : bool :=
  Nat.leb (String.length suffix) (String.length s)
  && (Js.drop (String.length s - String.length suffix) s =? suffix).

(** What a part becomes: nothing, a line break, a span in the colour of
    the background with the text between the markers, a span in the
    colour of the monologue, or a span. *)
Inductive Element :=
| br
| hiddenSpan (inner : string)
| monologueSpan (part : string)
| span (part : string).

(** The pattern of [hiddenMatch] is anchored at both ends and its dot
    matches every character: it matches the parts that begin with the
    opening marker and end with the closing one, and its group is what
    stands between them. *)
Definition renderPart (part : string) : option Element :=
  if part =? "" then None
  else if part =? newline then Some br
  else if Js.startsWith "[[HIDDEN:" part && endsWith "]]" part then
    Some (hiddenSpan (String.substring 9 (String.length part - 11) part))
  else if (Js.startsWith "（" part && endsWith "）" part)
          || (Js.startsWith "(" part && endsWith ")" part)
  then Some (monologueSpan part)
  else Some (span part).

Definition renderContent (text : string) : list (option Element) :=
  map renderPart (split 0 text).

(** One line of the transcript on screen. *)
Inductive Block :=
| inputBlock (prompt content : string)
| outputBlock (elements : list (option Element))
| systemBlock (content : string)
| monologueBlock (content : string).

Definition TerminalOutput (lines : list TerminalLine) : list Block :=
  map (fun line =>
         match line_type line with
         | input =>
             inputBlock
               ("[" ++ match line_path line with Some p => p | None => "" end ++ "] $")
               (line_content line)
         | output => outputBlock (renderContent (line_content line))
         | system => systemBlock (line_content line)
         | monologue => monologueBlock (line_content line)
         end)
      lines.

(** The text an element stands for, and the text it shows. *)
Definition source (e : option Element) : string :=
  match e with
  | None => ""
  | Some br => newline
  | Some (hiddenSpan inner) => "[[HIDDEN:" ++ inner ++ "]]"
  | Some (monologueSpan part) => part
  | Some (span part) => part
  end.

Definition blockSource (b : Block) : string :=
  match b with
  | inputBlock _ content => content
  | outputBlock elements => String.concat "" (map source elements)
  | systemBlock content => content
  | monologueBlock content => content
  end.

End Render.

(* ================================================================= *)
(** ** More vocabulary *)

(** Names as a file system has them: not empty and without a slash. *)
Fixpoint slashFree (s : string) : bool :=
  match s with
  | EmptyString => true
  | String c rest => negb (Ascii.eqb c "/") && slashFree rest
  end.

Definition plainName (x : string) : Prop := x <> "" /\ slashFree x = true.

(** ["/x1/x2/.../xn"] *)
Fixpoint slashJoin (parts : list string) : string :=
  match parts with
  | [] => ""
  | x :: rest => "/" ++ x ++ slashJoin rest
  end.

(** The path string the panel computes for the node reached from the root
    by the names [parts]. *)
Definition rowPath (parts : list string) : string :=
  fold_left childPath parts "/".

(** Below every directory the names are distinct and plain. *)
Definition wellNamed (root : FileNode) : Prop :=
  forall p n cs,
    walk p root = Some n -> type n = DIRECTORY -> children n = Some cs ->
    NoDup (map name cs) /\ Forall (fun c => plainName (name c)) cs.

(** The same, as a test that runs on a given tree. *)
Fixpoint distinct (l : list string) : bool :=
  match l with
  | [] => true
  | x :: rest => negb (Js.has x rest) && distinct rest
  end.

Fixpoint namedOk (n : FileNode) : bool :=
  match children n with
  | Some cs =>
      distinct (map name cs)
      && forallb (fun c => negb (name c =? "") && slashFree (name c) && namedOk c) cs
  | None => true
  end.

(** A path that starts at the root marker. *)
Definition rooted (p : Path) : Prop := exists parts, p = "" :: parts.

Definition isInput (l : TerminalLine) : bool :=
  match line_type l with
  | input => true
  | _ => false
  end.

(** The input lines a run writes: for each line typed that is not blank,
    the line as typed and the path the prompt shows at that time. *)
Fixpoint typedLines (es : list Event) (a : App) : list TerminalLine :=
  match es with
  | [] => []
  | e :: rest =>
      (match e with
       | Typed cmdStr =>
           match tokens cmdStr with
           | [] => []
           | _ :: _ => [mkLine input cmdStr (Some (getPathString (currentPath a)))]
           end
       | _ => []
       end ++ typedLines rest (step e a))%list
  end.

(** [r] is [acc] with lines added to the transcript, none of them an
    input line. *)
Definition printsOnly (acc r : App) : Prop :=
  exists outs,
    history r = (history acc ++ outs)%list /\ filter isInput outs = [].

(** The verdict the disguise script computes from the tree [heap]. *)
Definition verdictOf (heap : FileNode) : Continuation :=
  DisguiseVerdict
    (existsb (fun f => Js.includes (childNames (findNode homeUser heap)) f) forbidden)
    (forallb (fun f => Js.includes (childNames (findNode homeUser heap)) f) required).

(** The verdict [k] was computed by a command of the run [es] from [a],
    typed with six names or more in the ledger, from the tree that command
    left. *)
Definition packedIn (es : list Event) (a : App) (k : Continuation) : Prop :=
  exists before cmdStr after,
    es = (before ++ Typed cmdStr :: after)%list /\
    6 <= Js.size (evidenceCollected (steps before a)) /\
    k = verdictOf (fileSystem (handleCommand cmdStr (steps before a))).

Definition isVerdict (k : Continuation) : Prop :=
  exists hasForbidden hasAllRequired, k = DisguiseVerdict hasForbidden hasAllRequired.

(** The current path leads to a directory. *)
Definition inDirectory (a : App) : Prop :=
  isA DIRECTORY (findNode (currentPath a) (fileSystem a)) = true.

(** Every path of [fs] leads in [t] to a node of the same type. *)
Definition keepsTypes (fs t : FileNode) : Prop :=
  forall p d, walk p fs = Some d -> exists d', walk p t = Some d' /\ type d' = type d.

(** No byte of [w] is the space U+0020. *)
Fixpoint noSpace (w : string) : bool :=
  match w with
  | EmptyString => true
  | String c rest => negb (Ascii.eqb c " ") && noSpace rest
  end.

(** The fields no command writes to: [d'] has those of [d]. *)
Definition sameFile (d d' : FileNode) : Prop :=
  name d' = name d /\ type d' = type d /\ content d' = content d /\
  scriptAction d' = scriptAction d /\ isEvidence d' = isEvidence d.

(** Every node of [t] that is no child of the intake directory was at the
    same path of [fs], and was the same file. *)
Definition sameFiles (fs t : FileNode) : Prop :=
  forall p d',
    (forall x, p <> (skipRoot homeUser ++ [x])%list) ->
    walk p t = Some d' ->
    exists d, walk p fs = Some d /\ sameFile d d'.

(** A run in which nothing is clicked in the panel. *)
Definition noClick (es : list Event) : Prop :=
  forall pathStr, ~ In (Navigated pathStr) es.

(** What can be done in the state [a]: any line can be typed and any
    timeout can fire, but a click needs a row of the panel, that of a
    directory that is opened. *)
Definition offered (a : App) (e : Event) : Prop :=
  match e with
  | Navigated pathStr =>
      exists r,
        In r (sidebar a) /\ type (row_node r) = DIRECTORY /\
        row_isDiscovered r = true /\ row_path r = pathStr
  | _ => True
  end.

(** A run in which every click is one the panel offers at that time. *)
Fixpoint played (es : list Event) (a : App) : Prop :=
  match es with
  | [] => True
  | e :: rest => offered a e /\ played rest (step e a)
  end.

(** A run in which nothing is typed. *)
Definition noTyping (es : list Event) : Prop :=
  forall cmdStr, ~ In (Typed cmdStr) es.

(* ================================================================= *)
(** ** Lemmas on the helpers *)

Arguments findNode : simpl never.
Arguments updateFileSystemNode : simpl never.
Arguments deleteNode : simpl never.
Arguments getPathString : simpl never.
Arguments resolvePath : simpl never.
Arguments executeScript : simpl never.
Arguments Js.add : simpl never.
Arguments Js.has : simpl never.
Arguments Js.delete : simpl never.
Arguments Js.strictEq : simpl never.
Arguments Js.truthyS : simpl never.
Arguments Js.truthyB : simpl never.
Arguments Js.orElse : simpl never.
Arguments Js.join : simpl never.
Arguments Js.replace : simpl never.

Lemma String_eqb_false (a b : string) : a <> b -> (a =? b) = false.
Proof. intro H. apply String.eqb_neq. exact H. Qed.

Section TreeLemmas.

Local Open Scope list_scope.

Lemma findNode_walk (p : Path) (root : FileNode) :
  findNode p root = walk (skipRoot p) root.
Proof.
  unfold findNode.
  destruct p as [|a [|b p]]; simpl; try reflexivity.
  destruct (a =? ""); reflexivity.
Qed.

Lemma findChild_name (b : string) (cs : list FileNode) (c : FileNode) :
  findChild b cs = Some c -> name c = b.
Proof.
  unfold findChild. intro H. apply find_some in H.
  destruct H as [_ H]. apply String.eqb_eq. exact H.
Qed.

Lemma findChild_In (b : string) (cs : list FileNode) (c : FileNode) :
  findChild b cs = Some c -> In c cs.
Proof. unfold findChild. intro H. apply find_some in H. tauto. Qed.

Lemma findChild_none (b : string) (cs : list FileNode) :
  findChild b cs = None <-> ~ In b (map name cs).
Proof.
  unfold findChild. induction cs as [|c cs IH]; simpl.
  - tauto.
  - destruct (String.eqb_spec (name c) b) as [E|E].
    + split; [discriminate | intro H; exfalso; apply H; left; exact E].
    + rewrite IH. tauto.
Qed.

Lemma findChild_app (b : string) (cs extra : list FileNode) :
  findChild b (cs ++ extra) =
  match findChild b cs with
  | Some c => Some c
  | None => findChild b extra
  end.
Proof.
  unfold findChild. induction cs as [|c cs IH]; simpl; [reflexivity|].
  destruct (name c =? b); [reflexivity | exact IH].
Qed.

Lemma findChild_filter_other (a nm : string) (cs : list FileNode) :
  a <> nm ->
  findChild a (filter (fun c => negb (name c =? nm)) cs) = findChild a cs.
Proof.
  intro Hne. unfold findChild. induction cs as [|c cs IH]; simpl; [reflexivity|].
  destruct (String.eqb_spec (name c) nm) as [E|E]; simpl.
  - rewrite IH. rewrite E. rewrite String_eqb_false by congruence. reflexivity.
  - destruct (name c =? a); [reflexivity | exact IH].
Qed.

Lemma findChild_filter_same (nm : string) (cs : list FileNode) :
  findChild nm (filter (fun c => negb (name c =? nm)) cs) = None.
Proof.
  apply findChild_none. rewrite in_map_iff. intros [c [E H]].
  apply filter_In in H. destruct H as [_ H].
  rewrite E, String.eqb_refl in H. discriminate.
Qed.

Lemma findChild_replaceChild_same (b : string) (new old : FileNode)
  (cs : list FileNode) :
  name new = b -> findChild b cs = Some old ->
  findChild b (replaceChild b new cs) = Some new.
Proof.
  intros Hn. unfold findChild. induction cs as [|c cs IH]; simpl; [discriminate|].
  destruct (name c =? b) eqn:E; simpl.
  - intros _. rewrite Hn, String.eqb_refl. reflexivity.
  - rewrite E. exact IH.
Qed.

Lemma findChild_replaceChild_other (a b : string) (new : FileNode)
  (cs : list FileNode) :
  name new = b -> a <> b ->
  findChild a (replaceChild b new cs) = findChild a cs.
Proof.
  intros Hn Hne. unfold findChild. induction cs as [|c cs IH]; simpl; [reflexivity|].
  destruct (String.eqb_spec (name c) b) as [E|E]; simpl.
  - rewrite Hn, E. rewrite String_eqb_false by congruence. reflexivity.
  - destruct (name c =? a); [reflexivity | exact IH].
Qed.

Lemma map_replaceChild {A} (g : FileNode -> A) (b : string)
  (new old : FileNode) (cs : list FileNode) :
  findChild b cs = Some old -> g new = g old ->
  map g (replaceChild b new cs) = map g cs.
Proof.
  intros Hf Hg. unfold findChild in Hf.
  induction cs as [|c cs IH]; simpl in *; [reflexivity|].
  destruct (name c =? b); simpl.
  - injection Hf as ->. rewrite Hg. reflexivity.
  - rewrite IH by exact Hf. reflexivity.
Qed.

Lemma walk_app (q r : Path) (root : FileNode) :
  walk (q ++ r) root =
  match walk q root with
  | Some n => walk r n
  | None => None
  end.
Proof.
  revert root. induction q as [|a q IH]; intro root; simpl; [reflexivity|].
  destruct (type root); [reflexivity|].
  destruct (children root) as [cs|]; [|reflexivity].
  destruct (findChild a cs) as [c|]; [apply IH | reflexivity].
Qed.

(** Below the root, [walk] only looks at its type and its children. *)
Lemma walk_cons_congr (a : string) (r : Path) (n n' : FileNode) :
  type n' = type n -> children n' = children n ->
  walk (a :: r) n' = walk (a :: r) n.
Proof. intros Ht Hc. simpl. rewrite Ht, Hc. reflexivity. Qed.

Lemma mutateAt_name (f : FileNode -> FileNode) (q : Path) (n n' : FileNode) :
  keepsName f -> mutateAt q f n = Some n' -> name n' = name n.
Proof.
  intros Hf. destruct q as [|b q]; simpl.
  - intros [= <-]. apply Hf.
  - destruct (type n); [discriminate|].
    destruct (children n) as [cs|]; [|discriminate].
    destruct (findChild b cs) as [c|]; [|discriminate].
    destruct (mutateAt q f c); [|discriminate].
    intros [= <-]. reflexivity.
Qed.

Lemma mutateAt_some (f : FileNode -> FileNode) (q : Path) (root n : FileNode) :
  walk q root = Some n -> exists t, mutateAt q f root = Some t.
Proof.
  revert root. induction q as [|b q IH]; intro root; simpl.
  - intros _. eexists. reflexivity.
  - destruct (type root); [discriminate|].
    destruct (children root) as [cs|]; [|discriminate].
    destruct (findChild b cs) as [c|]; [|discriminate].
    intro H. destruct (IH _ H) as [t Ht]. rewrite Ht. eexists. reflexivity.
Qed.

(** The nodes on and below the mutated path. *)
Lemma walk_mutateAt_through (f : FileNode -> FileNode) (p q : Path)
  (root t : FileNode) :
  keepsName f -> mutateAt (p ++ q) f root = Some t ->
  exists n n',
    walk p root = Some n /\ mutateAt q f n = Some n' /\
    forall r, walk (p ++ r) t = walk r n'.
Proof.
  intro Hf. revert root t. induction p as [|a p IH]; intros root t; simpl.
  - intro H. exists root, t. auto.
  - destruct (type root) eqn:Ety; [discriminate|].
    destruct (children root) as [cs|] eqn:Ecs; [|discriminate].
    destruct (findChild a cs) as [c|] eqn:Ec; [|discriminate].
    destruct (mutateAt (p ++ q) f c) as [c'|] eqn:Em; [|discriminate].
    intros [= <-].
    destruct (IH _ _ Em) as [n [n' [Hw [Hm Hr]]]].
    exists n, n'. repeat split; try assumption.
    intro r. simpl. rewrite Ety.
    rewrite (findChild_replaceChild_same a c' c cs).
    + apply Hr.
    + rewrite (mutateAt_name _ _ _ _ Hf Em). apply (findChild_name _ _ _ Ec).
    + exact Ec.
Qed.

(** The node at the mutated path, and the nodes below it. *)
Lemma walk_mutateAt_below (f : FileNode -> FileNode) (q : Path)
  (root t : FileNode) :
  keepsName f -> mutateAt q f root = Some t ->
  exists n, walk q root = Some n /\ forall r, walk (q ++ r) t = walk r (f n).
Proof.
  intros Hf Hm.
  rewrite <- (app_nil_r q) in Hm.
  destruct (walk_mutateAt_through _ _ _ _ _ Hf Hm) as [n [n' [Hw [Hm' Hr]]]].
  simpl in Hm'. injection Hm' as <-. exists n. auto.
Qed.

(** The nodes off the mutated path. *)
Lemma walk_mutateAt_beside (f : FileNode -> FileNode) (c : Path)
  (a b : string) (r q : Path) (root t : FileNode) :
  keepsName f -> a <> b ->
  mutateAt (c ++ b :: q) f root = Some t ->
  walk (c ++ a :: r) t = walk (c ++ a :: r) root.
Proof.
  intros Hf Hne Hm.
  destruct (walk_mutateAt_through _ _ _ _ _ Hf Hm) as [n [n' [Hw [Hm' Hr]]]].
  rewrite Hr, walk_app, Hw.
  simpl in Hm'.
  destruct (type n) eqn:Ety; [discriminate|].
  destruct (children n) as [cs|] eqn:Ecs; [|discriminate].
  destruct (findChild b cs) as [d|] eqn:Ed; [|discriminate].
  destruct (mutateAt q f d) as [d'|] eqn:Em; [|discriminate].
  injection Hm' as <-. simpl. rewrite Ety, Ecs.
  rewrite findChild_replaceChild_other; [reflexivity| |exact Hne].
  rewrite (mutateAt_name _ _ _ _ Hf Em). apply (findChild_name _ _ _ Ed).
Qed.

(** How two paths lie with respect to each other. *)
Lemma path_cases (q p : Path) :
  (exists r, p = q ++ r) \/
  (exists b q', q = p ++ b :: q') \/
  (exists c a b r q', a <> b /\ p = c ++ a :: r /\ q = c ++ b :: q').
Proof.
  revert p. induction q as [|b q IH]; intro p.
  - left. exists p. reflexivity.
  - destruct p as [|a p].
    + right. left. exists b, q. reflexivity.
    + destruct (string_dec a b) as [->|Hne].
      * destruct (IH p) as [[r ->]|[[b' [q' ->]]|[c [a' [b' [r [q' [Hn [-> ->]]]]]]]]].
        -- left. exists r. reflexivity.
        -- right. left. exists b', q'. reflexivity.
        -- right. right. exists (b :: c), a', b', r, q'. auto.
      * right. right. exists [], a, b, p, q. auto.
Qed.

End TreeLemmas.

(** ** The interpreter, verb by verb *)

Section Dispatch.

Variables (s : App) (cmdStr : string) (args : list string).

Lemma run_help :
  runCommand cmdStr "help" args s = addToHistory s output helpText (addToHistory s input cmdStr s).
Proof. reflexivity. Qed.

Lemma run_ls : runCommand cmdStr "ls" args s = case_ls s (addToHistory s input cmdStr s).
Proof. reflexivity. Qed.

Lemma run_cd : runCommand cmdStr "cd" args s = case_cd s args (addToHistory s input cmdStr s).
Proof. reflexivity. Qed.

Lemma run_cat : runCommand cmdStr "cat" args s = case_cat s args (addToHistory s input cmdStr s).
Proof. reflexivity. Qed.

Lemma run_search : runCommand cmdStr "search" args s = case_search s args (addToHistory s input cmdStr s).
Proof. reflexivity. Qed.

Lemma run_rm : runCommand cmdStr "rm" args s = case_rm s args (addToHistory s input cmdStr s).
Proof. reflexivity. Qed.

Lemma run_script (cmd : string) :
  cmd = "./伪装.sh" \/ cmd = "./报警.sh" \/ cmd = "./seconddemo.sh" ->
  runCommand cmdStr cmd args s = case_script s cmd args (addToHistory s input cmdStr s).
Proof. intros [->|[->| ->]]; reflexivity. Qed.

End Dispatch.

Lemma arg0_cons (a : string) (rest : list string) : arg 0 (a :: rest) = a.
Proof. reflexivity. Qed.

Arguments arg : simpl never.

(* ================================================================= *)
(** ** read (cat): what is not found *)

(** C8.  [cat] answers with the not-found message, and with nothing else,
    when its lookup yields no FILE node, and with the not-found message
    marked "possibly hidden" when the FILE node it finds is hidden.  Both
    lines begin like a not-found line, neither is the access-denied line,
    and in both cases the only change to the state is the two lines added
    to the transcript: no content is printed, no evidence is recorded, the
    tree is untouched and no script is started. *)
Theorem cat_not_found_or_hidden (s : App) (cmdStr a0 : string) (rest : list string) :
  a0 <> "" ->
  let r := runCommand cmdStr "cat" (a0 :: rest) s in
  let echoed := addToHistory s input cmdStr s in
  (isA FILE (catLookup s a0) = false ->
     r = addToHistory s output (msgNoFile a0) echoed) /\
  (forall f, catLookup s a0 = Some f -> type f = FILE ->
             Js.truthyB (isHidden f) = true ->
     r = addToHistory s output (msgNoFileHidden a0) echoed) /\
  (isA FILE (catLookup s a0) = false \/
   (exists f, catLookup s a0 = Some f /\ Js.truthyB (isHidden f) = true) ->
     evidenceCollected r = evidenceCollected s /\
     fileSystem r = fileSystem s /\
     timers r = timers s /\
     exists line,
       history r = (history s ++ [mkLine input cmdStr (Some (getPathString (currentPath s)));
                                  mkLine output line None])%list /\
       Js.startsWith "找不到文件: " line = true /\
       Js.startsWith "访问被拒绝" line = false).
Proof.
  intros Ha r echoed. subst r. rewrite run_cat. fold echoed.
  unfold case_cat. rewrite arg0_cons, (String_eqb_false _ _ Ha).
  assert (Hpre : forall x, Js.startsWith "找不到文件: " (msgNoFile x) = true
                           /\ Js.startsWith "访问被拒绝" (msgNoFile x) = false)
    by (intro x; split; reflexivity).
  assert (Hpre' : forall x, Js.startsWith "找不到文件: " (msgNoFileHidden x) = true
                            /\ Js.startsWith "访问被拒绝" (msgNoFileHidden x) = false)
    by (intro x; split; reflexivity).
  split; [|split].
  - intro H. destruct (catLookup s a0) as [f|]; [|reflexivity].
    simpl in H. destruct (type f); [discriminate | reflexivity].
  - intros f Hf Hty Hh. rewrite Hf, Hty, Hh. reflexivity.
  - intros H.
    destruct (catLookup s a0) as [f|] eqn:Hf.
    + destruct (type f) eqn:Hty.
      * destruct H as [H|[f' [[= <-] Hh]]].
        -- simpl in H. rewrite Hty in H. discriminate.
        -- rewrite Hh. simpl. repeat split.
           exists (msgNoFileHidden a0). split; [|apply (Hpre' a0)].
           rewrite <- app_assoc. reflexivity.
      * simpl. repeat split. exists (msgNoFile a0). split; [|apply (Hpre a0)].
        rewrite <- app_assoc. reflexivity.
    + simpl. repeat split. exists (msgNoFile a0). split; [|apply (Hpre a0)].
      rewrite <- app_assoc. reflexivity.
Qed.

Lemma cat_not_found_or_hidden_witness :
  let inData := setCurrentPath [""; "data"] Demo.start in
  runCommand "cat nope" "cat" ["nope"] Demo.start
  = addToHistory Demo.start output (msgNoFile "nope")
      (addToHistory Demo.start input "cat nope" Demo.start)
  /\ runCommand "cat secret.txt" "cat" ["secret.txt"] inData
     = addToHistory inData output (msgNoFileHidden "secret.txt")
         (addToHistory inData input "cat secret.txt" inData).
Proof.
  intro inData. split.
  - apply (cat_not_found_or_hidden Demo.start "cat nope" "nope" []).
    + discriminate.
    + reflexivity.
  - apply (cat_not_found_or_hidden inData "cat secret.txt" "secret.txt" [])
      with (f := Demo.hidden (Demo.evidence (Demo.file "secret.txt" "hush"))).
    + discriminate.
    + reflexivity.
    + reflexivity.
    + reflexivity.
Defined.

(* ================================================================= *)
(** ** enter (cd) and hidden directories *)

(** [cd] into a directory that carries no password. *)
Lemma cd_without_password (s : App) (cmdStr target : string)
  (rest : list string) (targetPath : Path) (d : FileNode) :
  target <> "" ->
  resolvePath target (currentPath s) = Some targetPath ->
  findNode targetPath (fileSystem s) = Some d ->
  type d = DIRECTORY ->
  Js.truthyS (password d) = false ->
  runCommand cmdStr "cd" (target :: rest) s
  = setCurrentPath targetPath (addToHistory s input cmdStr s).
Proof.
  intros Ha Hres Hfind Hty Hpw. rewrite run_cd. unfold case_cd.
  rewrite arg0_cons, (String_eqb_false _ _ Ha), Hres, Hfind, Hty, Hpw.
  reflexivity.
Qed.

(** C9.  [cd] does not read [isHidden]: when the target resolves to a
    DIRECTORY that carries no password, the command echoes its input and
    sets the current path to the resolved path, whatever the node's
    [isHidden] is ([d] is arbitrary, so hidden and visible directories are
    entered by the very same state change).  Nothing else changes; in
    particular the tree is not touched and the node is not revealed. *)
Theorem cd_ignores_isHidden (s : App) (cmdStr target : string)
  (rest : list string) (targetPath : Path) (d : FileNode) :
  target <> "" ->
  resolvePath target (currentPath s) = Some targetPath ->
  findNode targetPath (fileSystem s) = Some d ->
  type d = DIRECTORY ->
  Js.truthyS (password d) = false ->
  let r := runCommand cmdStr "cd" (target :: rest) s in
  r = setCurrentPath targetPath (addToHistory s input cmdStr s) /\
  currentPath r = targetPath /\
  findNode targetPath (fileSystem r) = Some d.
Proof.
  intros Ha Hres Hfind Hty Hpw r.
  assert (E : r = setCurrentPath targetPath (addToHistory s input cmdStr s))
    by (apply (cd_without_password s cmdStr target rest targetPath d);
        assumption).
  rewrite E. simpl. auto.
Qed.

Lemma cd_ignores_isHidden_witness :
  let inData := setCurrentPath [""; "data"] Demo.start in
  exists ghost,
    findNode [""; "data"; "ghost"] (fileSystem inData) = Some ghost /\
    isHidden ghost = Some true /\
    currentPath (runCommand "cd ghost" "cd" ["ghost"] inData) = [""; "data"; "ghost"] /\
    findNode [""; "data"; "ghost"]
      (fileSystem (runCommand "cd ghost" "cd" ["ghost"] inData)) = Some ghost.
Proof.
  intro inData.
  exists (Demo.hidden (Demo.dir "ghost" [Demo.file "boo.txt" "boo"])).
  split; [reflexivity|]. split; [reflexivity|].
  apply (cd_ignores_isHidden inData "cd ghost" "ghost" [] [""; "data"; "ghost"]).
  - discriminate.
  - reflexivity.
  - reflexivity.
  - reflexivity.
  - reflexivity.
Defined.

(* ================================================================= *)
(** ** read (cat) and passwords on files *)

(** The branch of [cat] that shows a file: once the lookup has produced a
    visible FILE node without a script, its content is printed; neither
    [password] nor [args[1]] is read. *)
Lemma cat_prints_content (s : App) (cmdStr a0 : string) (rest : list string)
  (f : FileNode) :
  a0 <> "" ->
  catLookup s a0 = Some f -> type f = FILE ->
  Js.truthyB (isHidden f) = false ->
  Js.truthyB (isEvidence f) = false ->
  Js.truthyS (scriptAction f) = false ->
  runCommand cmdStr "cat" (a0 :: rest) s
  = addToHistory s output (Js.orElse (content f) "")
      (addToHistory s input cmdStr s).
Proof.
  intros Ha Hf Hty Hh He Hs. rewrite run_cat. unfold case_cat.
  rewrite arg0_cons, (String_eqb_false _ _ Ha), Hf, Hty, Hh, He, Hs.
  reflexivity.
Qed.

(** C3 (fails on the code).  In the demo tree /data/locked.txt is a visible
    FILE with password "pw" and content "classified".  [cat locked.txt],
    typed in /data with no secret at all, prints the content; no
    access-denied line is produced. *)
Theorem cat_reads_password_file :
  let inData := setCurrentPath [""; "data"] Demo.start in
  exists f,
    findNode [""; "data"; "locked.txt"] (fileSystem inData) = Some f /\
    type f = FILE /\ password f = Some "pw" /\ content f = Some "classified" /\
    history (handleCommand "cat locked.txt" inData)
    = [mkLine input "cat locked.txt" (Some "/data");
       mkLine output "classified" None].
Proof.
  intro inData.
  exists (Demo.locked "pw" (Demo.file "locked.txt" "classified")).
  repeat split.
Qed.

(* ================================================================= *)
(** ** The sets *)

Section SetLemmas.

Local Open Scope list_scope.

Lemma has_In (x : string) (l : list string) : Js.has x l = true <-> In x l.
Proof.
  unfold Js.has. rewrite existsb_exists. split.
  - intros [y [Hy E]]. apply String.eqb_eq in E. subst. exact Hy.
  - intro H. exists x. split; [exact H | apply String.eqb_refl].
Qed.

Lemma has_false (x : string) (l : list string) : Js.has x l = false <-> ~ In x l.
Proof.
  rewrite <- has_In. destruct (Js.has x l); split; intro H; congruence.
Qed.

Lemma includes_In (l : list string) (x : string) :
  Js.includes l x = true <-> In x l.
Proof. apply has_In. Qed.

Lemma delete_absent (x : string) (l : list string) :
  Js.has x l = false -> Js.delete x l = l.
Proof.
  rewrite has_false. unfold Js.delete. induction l as [|y l IH]; simpl; [reflexivity|].
  intro H. destruct (String.eqb_spec y x) as [->|E]; simpl.
  - exfalso. apply H. left. reflexivity.
  - rewrite IH; [reflexivity|]. intro H'. apply H. right. exact H'.
Qed.

Lemma has_delete (x : string) (l : list string) : Js.has x (Js.delete x l) = false.
Proof.
  apply has_false. unfold Js.delete. rewrite filter_In. intros [_ H].
  rewrite String.eqb_refl in H. discriminate.
Qed.

Lemma In_delete (x y : string) (l : list string) :
  In y (Js.delete x l) <-> In y l /\ y <> x.
Proof.
  unfold Js.delete. rewrite filter_In. rewrite negb_true_iff, String.eqb_neq.
  tauto.
Qed.

Lemma In_add (x y : string) (l : list string) :
  In y (Js.add x l) <-> In y l \/ y = x.
Proof.
  unfold Js.add. destruct (Js.has x l) eqn:E.
  - apply has_In in E. split; [tauto|]. intros [H| ->]; assumption.
  - rewrite in_app_iff. simpl. intuition congruence.
Qed.

Lemma NoDup_add (x : string) (l : list string) : NoDup l -> NoDup (Js.add x l).
Proof.
  intro H. unfold Js.add. destruct (Js.has x l) eqn:E; [exact H|].
  apply has_false in E.
  apply NoDup_app.
  - exact H.
  - constructor; [simpl; tauto | constructor].
  - intros y Hy [<-|[]]. exact (E Hy).
Qed.

Lemma NoDup_delete (x : string) (l : list string) : NoDup l -> NoDup (Js.delete x l).
Proof. apply NoDup_filter. Qed.

End SetLemmas.

(* ================================================================= *)
(** ** remove (rm) *)

Lemma findNode_mutateAt_self (f : FileNode -> FileNode) (p : Path)
  (root t n : FileNode) :
  keepsName f ->
  findNode p root = Some n ->
  (if isRootPath p then Some (f root) else mutateAt (skipRoot p) f root) = Some t ->
  findNode p t = Some (f n).
Proof.
  intros Hf Hn Ht.
  assert (Hm : mutateAt (skipRoot p) f root = Some t).
  { destruct (isRootPath p) eqn:E; [|exact Ht].
    destruct p as [|a [|b p]]; simpl in E; try discriminate.
    simpl. rewrite E. simpl. exact Ht. }
  rewrite findNode_walk in *.
  destruct (walk_mutateAt_below _ _ _ _ Hf Hm) as [n' [Hw Hr]].
  rewrite Hw in Hn. injection Hn as ->.
  specialize (Hr []). rewrite app_nil_r in Hr. exact Hr.
Qed.

Lemma keepsName_withChildren (cs : option (list FileNode)) :
  keepsName (withChildren cs).
Proof. intro n. reflexivity. Qed.

Lemma deleteNode_spec (nm : string) (p : Path) (root parent : FileNode)
  (cs : list FileNode) :
  findNode p root = Some parent -> children parent = Some cs ->
  exists t,
    deleteNode nm p root = Some t /\
    findNode p t
    = Some (withChildren (Some (filter (fun c => negb (name c =? nm)) cs)) parent).
Proof.
  intros Hp Hcs. unfold deleteNode. rewrite Hp, Hcs.
  set (f := withChildren (Some (filter (fun c => negb (name c =? nm)) cs))).
  assert (Hex : exists t,
             (if isRootPath p then Some (f root) else mutateAt (skipRoot p) f root)
             = Some t).
  { destruct (isRootPath p); [eexists; reflexivity|].
    rewrite findNode_walk in Hp. apply (mutateAt_some f _ _ _ Hp). }
  destruct Hex as [t Ht]. exists t. split; [exact Ht|].
  apply (findNode_mutateAt_self f p root t parent); auto.
  apply keepsName_withChildren.
Qed.

(** C6.  [rm name] typed anywhere but at the path that prints as
    /home/user is refused with the permission-denied line and changes
    nothing else, whatever the tree holds.  Typed at /home/user, it answers
    "File not found" and changes nothing else when the current directory
    has no child of that name; otherwise the current directory loses its
    children of that name, the name leaves the set of collected evidence
    (which is unchanged when the name was not in it), and the deletion is
    reported.  The evidence-intake directory [homeUser] prints as
    /home/user. *)
Theorem rm_only_in_home_user (s : App) (cmdStr fileName : string)
  (rest : list string) :
  fileName <> "" ->
  let r := runCommand cmdStr "rm" (fileName :: rest) s in
  let echoed := addToHistory s input cmdStr s in
  let here := findNode (currentPath s) (fileSystem s) in
  (getPathString (currentPath s) <> "/home/user" ->
     r = addToHistory s output msgRmDenied echoed) /\
  (getPathString (currentPath s) = "/home/user" ->
     childOf here fileName = None ->
     r = addToHistory s output (msgRmNotFound fileName) echoed) /\
  (getPathString (currentPath s) = "/home/user" ->
     forall c, childOf here fileName = Some c ->
     exists dirNode cs,
       here = Some dirNode /\ children dirNode = Some cs /\
       findNode (currentPath s) (fileSystem r)
       = Some (withChildren
                 (Some (filter (fun c => negb (name c =? fileName)) cs)) dirNode) /\
       childOf (findNode (currentPath s) (fileSystem r)) fileName = None /\
       evidenceCollected r = Js.delete fileName (evidenceCollected s) /\
       Js.has fileName (evidenceCollected r) = false /\
       currentPath r = currentPath s /\
       history r
       = (history s ++ [mkLine input cmdStr (Some "/home/user");
                        mkLine output (msgDeleted fileName) None])%list) /\
  getPathString homeUser = "/home/user".
Proof.
  intros Ha r echoed here. subst r.
  rewrite run_rm. fold echoed. unfold case_rm.
  rewrite arg0_cons, (String_eqb_false _ _ Ha). fold here.
  split; [|split; [|split]].
  - intro H. rewrite (String_eqb_false _ _ H). reflexivity.
  - intros H Hc. rewrite H, Hc. reflexivity.
  - intros H c Hc. rewrite H, Hc. simpl negb. cbv iota.
    unfold childOf in Hc.
    destruct here as [dirNode|] eqn:Hhere; [|discriminate].
    destruct (children dirNode) as [cs|] eqn:Hcs; [|discriminate].
    exists dirNode, cs.
    destruct (deleteNode_spec fileName _ _ _ _ Hhere Hcs) as [t [Ht Hfind]].
    rewrite Ht.
    assert (Hfs : forall acc,
      fileSystem
        (addToHistory s output (msgDeleted fileName)
           (if Js.has fileName (evidenceCollected s)
            then setEvidenceCollected
                   (fun _ => Js.delete fileName (evidenceCollected s)) acc
            else acc)) = fileSystem acc).
    { intro acc. destruct (Js.has fileName (evidenceCollected s)); reflexivity. }
    rewrite Hfs. simpl fileSystem. rewrite Hfind.
    assert (Hev :
      evidenceCollected
        (addToHistory s output (msgDeleted fileName)
           (if Js.has fileName (evidenceCollected s)
            then setEvidenceCollected
                   (fun _ => Js.delete fileName (evidenceCollected s))
                   (setFileSystem t echoed)
            else setFileSystem t echoed))
      = Js.delete fileName (evidenceCollected s)).
    { destruct (Js.has fileName (evidenceCollected s)) eqn:E; simpl.
      - reflexivity.
      - symmetry. apply delete_absent. exact E. }
    rewrite Hev.
    split; [reflexivity|]. split; [exact Hcs|]. split; [reflexivity|].
    split; [simpl; apply findChild_filter_same|].
    split; [reflexivity|]. split; [apply has_delete|].
    split.
    + destruct (Js.has fileName (evidenceCollected s)); reflexivity.
    + destruct (Js.has fileName (evidenceCollected s)); simpl;
        rewrite H, <- app_assoc; reflexivity.
  - reflexivity.
Qed.

Lemma rm_only_in_home_user_witness :
  let atHome :=
    Demo.run ["cd data"; "cat 证据_1.txt"; "cd /home/user"] Demo.start in
  runCommand "rm 证据_1.txt" "rm" ["证据_1.txt"] Demo.start
  = addToHistory Demo.start output msgRmDenied
      (addToHistory Demo.start input "rm 证据_1.txt" Demo.start)
  /\ runCommand "rm nope" "rm" ["nope"] atHome
     = addToHistory atHome output (msgRmNotFound "nope")
         (addToHistory atHome input "rm nope" atHome)
  /\ evidenceCollected atHome = ["证据_1.txt"]
  /\ evidenceCollected (runCommand "rm 证据_1.txt" "rm" ["证据_1.txt"] atHome)
     = Js.delete "证据_1.txt" (evidenceCollected atHome)
  /\ childOf (findNode (currentPath atHome)
                (fileSystem (runCommand "rm 证据_1.txt" "rm" ["证据_1.txt"] atHome)))
       "证据_1.txt" = None.
Proof.
  intro atHome.
  split; [|split; [|split; [reflexivity|]]].
  - apply (rm_only_in_home_user Demo.start "rm 证据_1.txt" "证据_1.txt" []).
    + discriminate.
    + discriminate.
  - apply (rm_only_in_home_user atHome "rm nope" "nope" []).
    + discriminate.
    + reflexivity.
    + reflexivity.
  - assert (Hne : "证据_1.txt" <> "") by discriminate.
    destruct (rm_only_in_home_user atHome "rm 证据_1.txt" "证据_1.txt" [] Hne)
      as [_ [_ [H _]]].
    destruct (H eq_refl
                (assign (Demo.evidence (Demo.file "证据_1.txt" "one")) evidencePatch)
                eq_refl)
      as [dirNode [cs [_ [_ [_ [Hgone [Hev _]]]]]]].
    split; [exact Hev | exact Hgone].
Defined.

(* ================================================================= *)
(** ** The disguise script *)

Lemma hasForbidden_spec (heap : FileNode) :
  existsb (fun f => Js.includes (childNames (findNode homeUser heap)) f) forbidden
  = true <-> forbiddenPresent heap.
Proof.
  unfold forbiddenPresent. rewrite existsb_exists.
  split; intros [f [H1 H2]]; exists f; split; try assumption;
    apply includes_In; exact H2.
Qed.

Lemma hasAllRequired_spec (heap : FileNode) :
  forallb (fun f => Js.includes (childNames (findNode homeUser heap)) f) required
  = true <-> allRequiredPresent heap.
Proof.
  unfold allRequiredPresent. rewrite forallb_forall.
  split; intros H f Hf; apply includes_In; apply H; exact Hf.
Qed.

(** The two booleans the script computes from the tree it reads. *)
Lemma disguise_started (s acc : App) (heap : FileNode) (args : list string) :
  6 <= Js.size (evidenceCollected s) ->
  executeScript s heap "DISGUISE_SCRIPT" args acc
  = setTimeout
      (DisguiseVerdict
         (existsb (fun f => Js.includes (childNames (findNode homeUser heap)) f)
                  forbidden)
         (forallb (fun f => Js.includes (childNames (findNode homeUser heap)) f)
                  required))
      2000 (saveCheckpoint s heap (addToHistory s system msgPacking acc)).
Proof.
  intro H. apply Nat.ltb_ge in H.
  unfold executeScript. simpl String.eqb. cbv iota. rewrite H. reflexivity.
Qed.

Lemma verdict_outcome (heap : FileNode) (hf har : bool) (a : App) :
  hf = existsb (fun f => Js.includes (childNames (findNode homeUser heap)) f)
         forbidden ->
  har = forallb (fun f => Js.includes (childNames (findNode homeUser heap)) f)
          required ->
  (forbiddenPresent heap ->
     runCallback (DisguiseVerdict hf har) a = setGameState LOSE a) /\
  (~ forbiddenPresent heap -> allRequiredPresent heap ->
     runCallback (DisguiseVerdict hf har) a = setGameState WIN a) /\
  (~ forbiddenPresent heap -> ~ allRequiredPresent heap ->
     runCallback (DisguiseVerdict hf har) a
     = addToHistory a output msgVerifyFailed a).
Proof.
  intros Ehf Ehar. simpl.
  destruct hf.
  - symmetry in Ehf. apply hasForbidden_spec in Ehf.
    split; [reflexivity|]. split; intro Hn; contradiction.
  - assert (Hnf : ~ forbiddenPresent heap).
    { intro Hp. apply hasForbidden_spec in Hp. congruence. }
    split; [intro; contradiction|].
    destruct har.
    + symmetry in Ehar. apply hasAllRequired_spec in Ehar.
      split; [reflexivity|]. intros _ Hn. contradiction.
    + split; [|reflexivity].
      intros _ Hp. apply hasAllRequired_spec in Hp. congruence.
Qed.

(** C1.  [executeScript('DISGUISE_SCRIPT', args)], for any closure [s], any
    tree [heap] seen through it and any queued state [acc].

    Six names are required and two are forbidden.  With fewer than six
    names in the ledger the only effect is the incomplete-evidence line:
    no checkpoint is written, no timeout is queued, the phase and the tree
    are as they were.

    With six or more, the packing line is printed, the checkpoint (the tree,
    path, transcript, discovered paths and ledger of the closure, with the
    phase PLAYING) is written when the storage takes the write, the phase is
    not changed yet, and exactly one timeout of 2000 ms is queued.  When
    that timeout runs, on whatever state [a], it sets the phase to LOSE if
    a forbidden name was in the intake directory of [heap]; otherwise to
    WIN if every required name was there; otherwise it prints the
    verification-failure line and leaves the phase as it is. *)
Theorem disguise_script (s acc : App) (heap : FileNode) (args : list string) :
  let r := executeScript s heap "DISGUISE_SCRIPT" args acc in
  List.length required = 6 /\ List.length forbidden = 2 /\
  (Js.size (evidenceCollected s) < 6 ->
     r = addToHistory s output msgIncomplete acc /\
     checkpoint r = checkpoint acc /\ timers r = timers acc /\
     gameState r = gameState acc /\ fileSystem r = fileSystem acc) /\
  (6 <= Js.size (evidenceCollected s) ->
     exists verdict,
       r = setTimeout verdict 2000
             (saveCheckpoint s heap (addToHistory s system msgPacking acc)) /\
       timers r = (timers acc ++ [mkTimer (nextTimerId acc) 2000 verdict])%list /\
       gameState r = gameState acc /\
       (storageWritable acc = true ->
          checkpoint r
          = Some (mkSaveData heap (currentPath s) (history s) (discoveredPaths s)
                    (evidenceCollected s) PLAYING (bootSequence s))) /\
       forall a : App,
         (forbiddenPresent heap -> runCallback verdict a = setGameState LOSE a) /\
         (~ forbiddenPresent heap -> allRequiredPresent heap ->
            runCallback verdict a = setGameState WIN a) /\
         (~ forbiddenPresent heap -> ~ allRequiredPresent heap ->
            runCallback verdict a = addToHistory a output msgVerifyFailed a /\
            gameState (runCallback verdict a) = gameState a)).
Proof.
  intro r. split; [reflexivity|]. split; [reflexivity|]. split.
  - intro H. apply Nat.ltb_lt in H.
    assert (E : r = addToHistory s output msgIncomplete acc).
    { subst r. unfold executeScript. simpl String.eqb. cbv iota.
      rewrite H. reflexivity. }
    rewrite E. simpl. auto.
  - intro H. subst r. rewrite (disguise_started s acc heap args H).
    eexists. split; [reflexivity|].
    split; [unfold saveCheckpoint; simpl;
            destruct (storageWritable acc); reflexivity|].
    split; [unfold saveCheckpoint; simpl;
            destruct (storageWritable acc); reflexivity|].
    split.
    + intro Hw. unfold saveCheckpoint. simpl. rewrite Hw. reflexivity.
    + intro a.
      destruct (verdict_outcome heap _ _ a eq_refl eq_refl) as [Hl [Hw Hf]].
      split; [exact Hl|]. split; [exact Hw|].
      intros Hn Hm. rewrite (Hf Hn Hm). split; reflexivity.
Qed.

(** The disguise script as it is started from the prompt. *)
Lemma run_disguise_command (s : App) (cmdStr : string) (args : list string)
  (node : FileNode) :
  childOf (findNode (currentPath s) (fileSystem s)) "伪装.sh" = Some node ->
  scriptAction node = Some "DISGUISE_SCRIPT" ->
  runCommand cmdStr "./伪装.sh" args s
  = executeScript s (fileSystem s) "DISGUISE_SCRIPT" args
      (addToHistory s input cmdStr s).
Proof.
  intros Hn Ha. rewrite run_script by auto. unfold case_script.
  change (Js.replace "./" "" "./伪装.sh") with "伪装.sh".
  rewrite Hn, Ha. reflexivity.
Qed.

Lemma disguise_script_witness :
  let few := Demo.start in
  let full :=
    Demo.run ["cd data"; "cat 证据_1.txt"; "cat 陈冰-刘青原"; "cat 证据_3.txt";
              "cat 证据_5.txt"; "cat 证据_6.txt"; "cat 证据_8.txt"; "cd /"]
      Demo.start in
  let echoed := addToHistory full input "./伪装.sh" full in
  executeScript few (fileSystem few) "DISGUISE_SCRIPT" [] few
  = addToHistory few output msgIncomplete few
  /\ exists verdict,
       timers (executeScript full (fileSystem full) "DISGUISE_SCRIPT" [] echoed)
       = [mkTimer 0 2000 verdict]
       /\ checkpoint (executeScript full (fileSystem full) "DISGUISE_SCRIPT" [] echoed)
          = Some (mkSaveData (fileSystem full) [""] (history full) ["/"]
                    (evidenceCollected full) PLAYING [])
       /\ runCallback verdict full = setGameState WIN full.
Proof.
  intros few full echoed. split.
  - apply (disguise_script few few (fileSystem few) []).
    apply Nat.ltb_lt. reflexivity.
  - destruct (disguise_script full echoed (fileSystem full) []) as [_ [_ [_ H]]].
    destruct H as [verdict [_ [Ht [_ [Hc Hv]]]]].
    + apply Nat.leb_le. reflexivity.
    + exists verdict. split; [exact Ht|]. split; [apply Hc; reflexivity|].
      apply (Hv full).
      * intro Hp. apply hasForbidden_spec in Hp. vm_compute in Hp. discriminate Hp.
      * apply hasAllRequired_spec. vm_compute. reflexivity.
Defined.

(* ================================================================= *)
(** ** What happens to the application over time *)

Lemma steps_app (es es' : list Event) (a : App) :
  steps (es ++ es')%list a = steps es' (steps es a).
Proof. apply fold_left_app. Qed.

Lemma steps_cons (e : Event) (es : list Event) (a : App) :
  steps (e :: es) a = steps es (step e a).
Proof. reflexivity. Qed.

(** Case analysis on whatever the goal branches on. *)
Ltac break_match :=
  match goal with
  | |- context [match ?x with _ => _ end] =>
      lazymatch x with
      | context [match _ with _ => _ end] => fail
      | _ => destruct x eqn:?
      end
  | |- context [match ?x with _ => _ end] => destruct x eqn:?
  end.

Ltac by_cases := repeat (simpl; break_match); simpl; try reflexivity.

(* ================================================================= *)
(** ** Discovery *)

Section Discovery.

Lemma executeScript_discoveredPaths (s acc : App) (heap : FileNode)
  (action : string) (args : list string) :
  discoveredPaths (executeScript s heap action args acc) = discoveredPaths acc.
Proof. unfold executeScript, saveCheckpoint. by_cases. Qed.

Lemma dispatch_discoveredPaths (s acc : App) (cmd : string) (args : list string) :
  discoveredPaths (dispatch s cmd args acc)
  = if (cmd =? "ls") && isA DIRECTORY (findNode (currentPath s) (fileSystem s))
    then Js.add (getPathString (currentPath s)) (discoveredPaths acc)
    else discoveredPaths acc.
Proof.
  unfold dispatch.
  destruct (cmd =? "help") eqn:E1.
  { apply String.eqb_eq in E1. subst. reflexivity. }
  destruct (cmd =? "ls") eqn:E2.
  { unfold case_ls, isA. by_cases. }
  simpl andb. cbv iota.
  destruct (cmd =? "cd"). { unfold case_cd. by_cases. }
  destruct (cmd =? "cat").
  { unfold case_cat. by_cases; rewrite ?executeScript_discoveredPaths; reflexivity. }
  destruct (cmd =? "search"). { unfold case_search. by_cases. }
  destruct (cmd =? "rm"). { unfold case_rm. by_cases. }
  destruct ((cmd =? "./伪装.sh") || (cmd =? "./报警.sh") || (cmd =? "./seconddemo.sh")).
  { unfold case_script. by_cases; rewrite ?executeScript_discoveredPaths; reflexivity. }
  reflexivity.
Qed.

Lemma fireTimer_discoveredPaths (id : nat) (a : App) :
  discoveredPaths (fireTimer id a) = discoveredPaths a.
Proof. unfold fireTimer, runCallback. by_cases. Qed.

Lemma navigate_discoveredPaths (p : string) (a : App) :
  discoveredPaths (handleTreeNavigate p a) = discoveredPaths a.
Proof. unfold handleTreeNavigate. by_cases. Qed.

(** An event that is not a successful [ls] leaves the set alone. *)
Lemma step_discoveredPaths (e : Event) (a : App) :
  discoveredPaths (step e a) = discoveredPaths a \/
  exists cmdStr args,
    e = Typed cmdStr /\ tokens cmdStr = "ls" :: args /\
    isA DIRECTORY (findNode (currentPath a) (fileSystem a)) = true /\
    discoveredPaths (step e a)
    = Js.add (getPathString (currentPath a)) (discoveredPaths a).
Proof.
  destruct e as [cmdStr|id|p]; simpl.
  - unfold handleCommand. destruct (tokens cmdStr) as [|cmd args] eqn:Et.
    + left. reflexivity.
    + unfold runCommand. rewrite dispatch_discoveredPaths. simpl.
      destruct (String.eqb_spec cmd "ls") as [->|Hne]; simpl.
      * destruct (isA DIRECTORY (findNode (currentPath a) (fileSystem a))) eqn:Ed.
        -- right. exists cmdStr, args. auto.
        -- left. reflexivity.
      * left. reflexivity.
  - left. apply fireTimer_discoveredPaths.
  - left. apply navigate_discoveredPaths.
Qed.

End Discovery.

(** C5.  Of all commands only [ls] changes the set of discovered paths, and
    it adds the printed form of the current path, provided the current node
    is a directory; [cd] and every other verb, the timeouts and the tree
    navigation leave the set as it is.  Hence discovery is not inherited:
    a path that is not in the set can only get into it by an [ls] typed
    while the current path prints as that very path - listing a parent
    does not do it, and entering the directory does not do it either. *)
Theorem discovery_only_by_ls :
  (forall s cmdStr cmd args,
     discoveredPaths (runCommand cmdStr cmd args s)
     = if (cmd =? "ls") && isA DIRECTORY (findNode (currentPath s) (fileSystem s))
       then Js.add (getPathString (currentPath s)) (discoveredPaths s)
       else discoveredPaths s) /\
  (forall s cmdStr args,
     discoveredPaths (runCommand cmdStr "cd" args s) = discoveredPaths s) /\
  (forall s id, discoveredPaths (fireTimer id s) = discoveredPaths s) /\
  (forall s p, discoveredPaths (handleTreeNavigate p s) = discoveredPaths s) /\
  (forall es s path,
     ~ In path (discoveredPaths s) ->
     In path (discoveredPaths (steps es s)) ->
     exists before cmdStr args after,
       es = (before ++ Typed cmdStr :: after)%list /\
       tokens cmdStr = "ls" :: args /\
       getPathString (currentPath (steps before s)) = path /\
       isA DIRECTORY (findNode (currentPath (steps before s))
                        (fileSystem (steps before s))) = true).
Proof.
  split; [|split; [|split; [|split]]].
  - intros. unfold runCommand. rewrite dispatch_discoveredPaths. reflexivity.
  - intros. unfold runCommand. rewrite dispatch_discoveredPaths. reflexivity.
  - intros. apply fireTimer_discoveredPaths.
  - intros. apply navigate_discoveredPaths.
  - induction es as [|e es IH]; intros s path Hout Hin.
    + contradiction.
    + rewrite steps_cons in Hin.
      destruct (in_dec string_dec path (discoveredPaths (step e s))) as [Hnow|Hnot].
      * destruct (step_discoveredPaths e s) as [E|[cmdStr [args [-> [Ht [Hd E]]]]]].
        -- rewrite E in Hnow. contradiction.
        -- rewrite E in Hnow. apply In_add in Hnow.
           destruct Hnow as [Hnow| ->]; [contradiction|].
           exists [], cmdStr, args, es. auto.
      * destruct (IH _ _ Hnot Hin)
          as [before [cmdStr [args [after [-> [Ht [Hp Hd]]]]]]].
        exists (e :: before), cmdStr, args, after. auto.
Qed.

Lemma discovery_only_by_ls_witness :
  let listed := Demo.run ["cd data"; "ls"] Demo.start in
  let entered := steps [Typed "cd vault open"] listed in
  discoveredPaths listed = ["/"; "/data"]
  /\ currentPath entered = [""; "data"; "vault"]
  /\ ~ In "/data/vault" (discoveredPaths entered)
  /\ In "/data/vault" (discoveredPaths (steps [Typed "ls"] entered))
  /\ exists before cmdStr args after,
       [Typed "ls"] = (before ++ Typed cmdStr :: after)%list /\
       tokens cmdStr = "ls" :: args /\
       getPathString (currentPath (steps before entered)) = "/data/vault".
Proof.
  intros listed entered.
  assert (Hout : ~ In "/data/vault" (discoveredPaths entered)).
  { vm_compute. intros [H|[H|[]]]; discriminate H. }
  assert (Hin : In "/data/vault" (discoveredPaths (steps [Typed "ls"] entered))).
  { vm_compute. right. right. left. reflexivity. }
  split; [reflexivity|]. split; [reflexivity|].
  split; [exact Hout|]. split; [exact Hin|].
  destruct discovery_only_by_ls as [_ [_ [_ [_ H]]]].
  destruct (H [Typed "ls"] entered "/data/vault" Hout Hin)
    as [before [cmdStr [args [after [E [Ht [Hp _]]]]]]].
  exists before, cmdStr, args, after.
  split; [exact E|]. split; [exact Ht | exact Hp].
Defined.

(* ================================================================= *)
(** ** The effects of a command on the tree and on the ledger *)

Lemma effects_one x y : Effect x y -> Effects x y.
Proof. intro H. eapply effs_cons; [exact H | apply effs_nil]. Qed.

Lemma effects_trans x y z : Effects x y -> Effects y z -> Effects x z.
Proof.
  induction 1 as [|x y y' H H' IH]; intro Hz; [exact Hz|].
  eapply effs_cons; [exact H | apply IH; exact Hz].
Qed.

Lemma same_fileSystem (a b : App) :
  treeAndLedger a = treeAndLedger b -> fileSystem a = fileSystem b.
Proof. unfold treeAndLedger. congruence. Qed.

Lemma same_evidenceCollected (a b : App) :
  treeAndLedger a = treeAndLedger b -> evidenceCollected a = evidenceCollected b.
Proof. unfold treeAndLedger. congruence. Qed.

Section CommandEffects.

Lemma executeScript_treeAndLedger (s acc : App) (heap : FileNode)
  (action : string) (args : list string) :
  treeAndLedger (executeScript s heap action args acc) = treeAndLedger acc.
Proof. unfold executeScript, saveCheckpoint, treeAndLedger. by_cases. Qed.

Lemma runCallback_treeAndLedger (k : Continuation) (a : App) :
  treeAndLedger (runCallback k a) = treeAndLedger a.
Proof. unfold runCallback, treeAndLedger. by_cases. Qed.

Lemma fireTimer_treeAndLedger (id : nat) (a : App) :
  treeAndLedger (fireTimer id a) = treeAndLedger a.
Proof.
  unfold fireTimer. destruct (find _ (timers a)); [|reflexivity].
  rewrite runCallback_treeAndLedger. reflexivity.
Qed.

Lemma navigate_treeAndLedger (p : string) (a : App) :
  treeAndLedger (handleTreeNavigate p a) = treeAndLedger a.
Proof. unfold handleTreeNavigate, treeAndLedger. by_cases. Qed.

Variables (s acc : App).
Hypothesis same : treeAndLedger acc = treeAndLedger s.

Lemma case_cd_effects (args : list string) :
  Burst (treeAndLedger s) (treeAndLedger (case_cd s args acc)).
Proof.
  pose proof (same_fileSystem _ _ same) as Hfs.
  pose proof (same_evidenceCollected _ _ same) as Hev.
  unfold case_cd, treeAndLedger.
  by_cases; rewrite ?Hfs, ?Hev; try apply burst_nil.
  all: apply burst_last; eapply eff_patch; [left; reflexivity | eassumption].
Qed.

Lemma deleteNode_of_child (nm : string) (p : Path) (fs c : FileNode) :
  childOf (findNode p fs) nm = Some c -> deleteNode nm p fs <> None.
Proof.
  unfold childOf. intros H.
  destruct (findNode p fs) as [d|] eqn:Ed; [|discriminate].
  destruct (children d) as [cs|] eqn:Ec; [|discriminate].
  destruct (deleteNode_spec nm p fs d cs Ed Ec) as [t [Ht _]].
  congruence.
Qed.

Lemma case_rm_effects (args : list string) :
  Burst (treeAndLedger s) (treeAndLedger (case_rm s args acc)).
Proof.
  pose proof (same_fileSystem _ _ same) as Hfs.
  pose proof (same_evidenceCollected _ _ same) as Hev.
  unfold case_rm, treeAndLedger.
  by_cases; rewrite ?Hfs, ?Hev; try apply burst_nil;
    try (exfalso; eapply deleteNode_of_child; eassumption);
    try (rewrite <- (delete_absent (arg 0 args) (evidenceCollected s)) at 2
           by assumption);
    (apply burst_last; apply (eff_delete (arg 0 args) (currentPath s));
     [apply String.eqb_eq, negb_false_iff; assumption | assumption]).
Qed.

End CommandEffects.

Arguments treeAndLedger : simpl never.

Section CollectEffects.

Variables (s acc : App).
Hypothesis same : treeAndLedger acc = treeAndLedger s.

(** What [cat] does to the tree and to the ledger. *)
Lemma case_cat_treeAndLedger (args : list string) :
  treeAndLedger (case_cat s args acc)
  = match catLookup s (arg 0 args) with
    | Some f =>
        if negb (arg 0 args =? "") && FileType_eqb (type f) FILE
           && negb (Js.truthyB (isHidden f))
           && Js.truthyB (isEvidence f)
           && negb (Js.has (name f) (evidenceCollected s))
        then (appendClone f (fileSystem s), Js.add (name f) (evidenceCollected s))
        else treeAndLedger s
    | None => treeAndLedger s
    end.
Proof.
  pose proof (same_fileSystem _ _ same) as Hfs.
  pose proof (same_evidenceCollected _ _ same) as Hev.
  unfold case_cat, appendClone.
  by_cases; rewrite ?executeScript_treeAndLedger;
    unfold treeAndLedger; simpl; rewrite ?Hfs, ?Hev; try reflexivity;
    try discriminate.
Qed.

Lemma case_cat_effects (args : list string) :
  Burst (treeAndLedger s) (treeAndLedger (case_cat s args acc)).
Proof.
  rewrite case_cat_treeAndLedger.
  destruct (catLookup s (arg 0 args)) as [f|]; [|apply burst_nil].
  match goal with
  | |- Burst _ (if ?c then _ else _) => destruct c eqn:E; [|apply burst_nil]
  end.
  repeat (apply andb_prop in E; destruct E as [E ?]).
  apply burst_last. apply eff_collect.
  - destruct (type f); [reflexivity | discriminate].
  - apply negb_true_iff. assumption.
Qed.

(** What [search] does to the tree and to the ledger: the reveal, then
    the collection on the revealed node and the revealed tree. *)
Lemma case_search_treeAndLedger (args : list string) :
  treeAndLedger (case_search s args acc)
  = match childOf (findNode (currentPath s) (fileSystem s)) (arg 0 args) with
    | Some found =>
        if negb (arg 0 args =? "") && Js.truthyB (isHidden found) then
          let '(heap, found1) :=
            match updateFileSystemNode (currentPath s ++ [name found])%list
                    revealPatch (fileSystem s) with
            | Some newFS => (newFS, assign found revealPatch)
            | None => (fileSystem s, found)
            end in
          if negb (Js.truthyS (password found1))
             && FileType_eqb (type found1) FILE
             && negb (Js.truthyS (scriptAction found1))
             && Js.truthyB (isEvidence found1)
             && negb (Js.has (name found1) (evidenceCollected s))
          then (appendClone found1 heap, Js.add (name found1) (evidenceCollected s))
          else (heap, evidenceCollected s)
        else treeAndLedger s
    | None => treeAndLedger s
    end.
Proof.
  pose proof (same_fileSystem _ _ same) as Hfs.
  pose proof (same_evidenceCollected _ _ same) as Hev.
  unfold case_search, appendClone.
  by_cases; unfold treeAndLedger; simpl; rewrite ?Hfs, ?Hev; try reflexivity;
    try discriminate.
Qed.

Lemma case_search_effects (args : list string) :
  Burst (treeAndLedger s) (treeAndLedger (case_search s args acc)).
Proof.
  rewrite case_search_treeAndLedger.
  destruct (childOf _ _) as [found|]; [|apply burst_nil].
  destruct (negb (arg 0 args =? "") && Js.truthyB (isHidden found));
    [|apply burst_nil].
  assert (Hc : forall heap found1,
             Burst (heap, evidenceCollected s)
               (if negb (Js.truthyS (password found1))
                   && FileType_eqb (type found1) FILE
                   && negb (Js.truthyS (scriptAction found1))
                   && Js.truthyB (isEvidence found1)
                   && negb (Js.has (name found1) (evidenceCollected s))
                then (appendClone found1 heap,
                      Js.add (name found1) (evidenceCollected s))
                else (heap, evidenceCollected s))).
  { intros heap found1.
    match goal with
    | |- Burst _ (if ?c then _ else _) => destruct c eqn:E; [|apply burst_nil]
    end.
    repeat (apply andb_prop in E; destruct E as [E ?]).
    apply burst_last. apply eff_collect.
    - destruct (type found1); [reflexivity | discriminate].
    - apply negb_true_iff. assumption. }
  destruct (updateFileSystemNode _ revealPatch _) as [t|] eqn:Eu.
  - unfold treeAndLedger at 1.
    eapply burst_patch; [right; reflexivity | exact Eu | apply Hc].
  - apply Hc.
Qed.

End CollectEffects.

Lemma dispatch_burst (s acc : App) (cmd : string) (args : list string) :
  treeAndLedger acc = treeAndLedger s ->
  Burst (treeAndLedger s) (treeAndLedger (dispatch s cmd args acc)).
Proof.
  intro same.
  assert (Hnil : forall x, treeAndLedger x = treeAndLedger acc ->
                           Burst (treeAndLedger s) (treeAndLedger x)).
  { intros x Hx. rewrite Hx, same. apply burst_nil. }
  unfold dispatch.
  destruct (cmd =? "help"); [apply Hnil; reflexivity|].
  destruct (cmd =? "ls").
  { apply Hnil. unfold case_ls, treeAndLedger. by_cases. }
  destruct (cmd =? "cd"); [apply case_cd_effects; exact same|].
  destruct (cmd =? "cat"); [apply case_cat_effects; exact same|].
  destruct (cmd =? "search"); [apply case_search_effects; exact same|].
  destruct (cmd =? "rm"); [apply case_rm_effects; exact same|].
  destruct (_ || _); [|apply Hnil; reflexivity].
  apply Hnil. unfold case_script.
  by_cases; rewrite ?executeScript_treeAndLedger; reflexivity.
Qed.

Lemma step_burst (e : Event) (a : App) :
  Burst (treeAndLedger a) (treeAndLedger (step e a)).
Proof.
  destruct e as [cmdStr|id|p]; simpl.
  - unfold handleCommand. destruct (tokens cmdStr) as [|cmd args].
    + apply burst_nil.
    + unfold runCommand. apply dispatch_burst. reflexivity.
  - rewrite fireTimer_treeAndLedger. apply burst_nil.
  - rewrite navigate_treeAndLedger. apply burst_nil.
Qed.

Lemma burst_effects x y : Burst x y -> Effects x y.
Proof.
  induction 1 as [x | x y H | p patch fs t L z Hp Hu _ IH | node fs L z Ht Hh _ IH].
  - apply effs_nil.
  - apply effects_one. exact H.
  - eapply effs_cons; [eapply eff_patch; eassumption | exact IH].
  - apply (effs_cons _ _ _ (eff_collect node fs L Ht Hh) IH).
Qed.

Lemma step_effects (e : Event) (a : App) :
  Effects (treeAndLedger a) (treeAndLedger (step e a)).
Proof. apply burst_effects. apply step_burst. Qed.

Lemma steps_effects (es : list Event) (a : App) :
  Effects (treeAndLedger a) (treeAndLedger (steps es a)).
Proof.
  revert a. induction es as [|e es IH]; intro a.
  - apply effs_nil.
  - rewrite steps_cons.
    eapply effects_trans; [apply step_effects | apply IH].
Qed.

(** An invariant of the single effects is an invariant of every run. *)
Lemma effects_invariant (P : FileNode * list string -> Prop) :
  (forall x y, Effect x y -> P x -> P y) ->
  forall x y, Effects x y -> P x -> P y.
Proof.
  intros Hstep x y H. induction H as [|x y z H H' IH]; [auto|].
  intro Hx. apply IH. apply (Hstep x y H Hx).
Qed.

(* ================================================================= *)
(** ** No command locks a directory *)

Section NoNewLock.

Local Open Scope list_scope.

Lemma noNewLock_refl (fs : FileNode) : noNewLock fs fs.
Proof. intros p d' H Ht. exists d'. auto. Qed.

Lemma noNewLock_trans (a b c : FileNode) :
  noNewLock a b -> noNewLock b c -> noNewLock a c.
Proof.
  intros Hab Hbc p d'' H Ht.
  destruct (Hbc p d'' H Ht) as [d' [H' [Ht' Hp']]].
  destruct (Hab p d' H' Ht') as [d [H0 [Ht0 Hp0]]].
  exists d. repeat split; try assumption.
  destruct Hp' as [->| ->]; [exact Hp0 | right; reflexivity].
Qed.

Lemma updateFileSystemNode_mutateAt (p : Path) (u : Partial) (fs : FileNode) :
  updateFileSystemNode p u fs
  = mutateAt (skipRoot p) (fun target => assign target u) fs.
Proof.
  unfold updateFileSystemNode.
  destruct p as [|a [|b p]]; simpl; try reflexivity.
  destruct (a =? ""); reflexivity.
Qed.

Lemma deleteNode_mutateAt (nm : string) (p : Path) (fs t : FileNode) :
  deleteNode nm p fs = Some t ->
  exists parent cs,
    walk (skipRoot p) fs = Some parent /\ children parent = Some cs /\
    mutateAt (skipRoot p)
      (withChildren (Some (filter (fun c => negb (name c =? nm)) cs))) fs
    = Some t.
Proof.
  unfold deleteNode. rewrite findNode_walk.
  destruct (walk (skipRoot p) fs) as [parent|] eqn:Ew; [|discriminate].
  destruct (children parent) as [cs|] eqn:Ec; [|discriminate].
  intro H. exists parent, cs. repeat split; try assumption.
  destruct p as [|a [|b p]]; simpl in *; try assumption.
  destruct (a =? ""); assumption.
Qed.

Lemma mutateAt_cons_fields (f : FileNode -> FileNode) (b : string) (q : Path)
  (n n' : FileNode) :
  mutateAt (b :: q) f n = Some n' ->
  type n' = type n /\ password n' = password n /\ name n' = name n.
Proof.
  simpl. destruct (type n) eqn:Et; [discriminate|].
  destruct (children n) as [cs|]; [|discriminate].
  destruct (findChild b cs) as [c|]; [|discriminate].
  destruct (mutateAt q f c); [|discriminate].
  intros [= <-]. simpl. auto.
Qed.

(** A mutation that neither retypes nor locks its target, and under
    which every directory below the target was already there, locks
    nothing in the whole tree. *)
Lemma mutateAt_noNewLock (f : FileNode -> FileNode) (q : Path) (fs t : FileNode) :
  keepsName f -> mutateAt q f fs = Some t ->
  (forall n, walk q fs = Some n ->
     type (f n) = type n /\
     (password (f n) = password n \/ password (f n) = None) /\
     forall a r d', walk (a :: r) (f n) = Some d' -> type d' = DIRECTORY ->
                    walk (a :: r) n = Some d') ->
  noNewLock fs t.
Proof.
  intros Hf Hm Hloc p d' Hp Hty.
  destruct (path_cases q p)
    as [[r ->]|[[b [q' ->]]|[c [a [b [r [q' [Hne [-> ->]]]]]]]]].
  - destruct (walk_mutateAt_below _ _ _ _ Hf Hm) as [n [Hw Hr]].
    destruct (Hloc n Hw) as [Ht [Hpw Hbelow]].
    rewrite Hr in Hp. destruct r as [|a r].
    + simpl in Hp. injection Hp as <-. exists n.
      rewrite app_nil_r. repeat split; congruence.
    + exists d'. rewrite walk_app, Hw. split; [|auto].
      apply Hbelow; assumption.
  - destruct (walk_mutateAt_through _ _ _ _ _ Hf Hm) as [n [n' [Hw [Hm' Hr]]]].
    specialize (Hr []). rewrite app_nil_r in Hr. rewrite Hr in Hp.
    simpl in Hp. injection Hp as <-.
    destruct (mutateAt_cons_fields _ _ _ _ _ Hm') as [Ht [Hpw _]].
    exists n. repeat split; try congruence. left. exact Hpw.
  - rewrite (walk_mutateAt_beside _ _ _ _ _ _ _ _ Hf Hne Hm) in Hp.
    exists d'. auto.
Qed.

Lemma keepsName_assign (u : Partial) :
  p_name u = None -> keepsName (fun target => assign target u).
Proof. intros H n. simpl. rewrite H. reflexivity. Qed.

Lemma walk_file (a : string) (r : Path) (n : FileNode) :
  type n = FILE -> walk (a :: r) n = None.
Proof. intro H. simpl. rewrite H. reflexivity. Qed.

Lemma effect_noNewLock x y : Effect x y -> noNewLock (fst x) (fst y).
Proof.
  intros [p patch fs t L Hpatch Hu | node fs L Hty Hhas | nm p fs t L Hp Hd]; simpl.
  - rewrite updateFileSystemNode_mutateAt in Hu.
    apply (mutateAt_noNewLock _ _ _ _
             (keepsName_assign patch
                ltac:(destruct Hpatch as [->| ->]; reflexivity)) Hu).
    intros n _. split; [|split].
    + destruct Hpatch as [->| ->]; reflexivity.
    + destruct Hpatch as [->| ->]; simpl; auto.
    + intros a r d' Hw _. rewrite <- Hw. symmetry.
      apply walk_cons_congr; destruct Hpatch as [->| ->]; reflexivity.
  - unfold appendClone.
    destruct (findNode homeUser fs) as [intake|] eqn:Ei; [|apply noNewLock_refl].
    destruct (children intake) as [cs|] eqn:Ec; [|apply noNewLock_refl].
    destruct (findChild (name node) cs) eqn:En; [apply noNewLock_refl|].
    destruct (updateFileSystemNode _ _ fs) as [t|] eqn:Eu; [|apply noNewLock_refl].
    rewrite updateFileSystemNode_mutateAt in Eu.
    apply (mutateAt_noNewLock _ _ _ _
             (keepsName_assign
                (childrenPatch (cs ++ [assign node evidencePatch])) eq_refl) Eu).
    intros n Hn. rewrite findNode_walk in Ei.
    assert (n = intake) by congruence. subst n.
    split; [reflexivity|]. split; [left; reflexivity|].
    intros a r d' Hw Hd'. simpl in Hw. simpl. rewrite Ec.
    destruct (type intake); [discriminate|].
    rewrite findChild_app in Hw.
    destruct (findChild a cs) as [c|]; [exact Hw|].
    exfalso. unfold findChild in Hw. simpl in Hw.
    destruct (name node =? a); [|discriminate].
    destruct r as [|a' r].
    * simpl in Hw. injection Hw as <-. simpl in Hd'. congruence.
    * rewrite walk_file in Hw by exact Hty. discriminate.
  - destruct (deleteNode_mutateAt _ _ _ _ Hd) as [parent [cs [Hw [Hc Hm]]]].
    apply (mutateAt_noNewLock _ _ _ _ (keepsName_withChildren _) Hm).
    intros n Hn. assert (n = parent) by congruence. subst n.
    split; [reflexivity|]. split; [left; reflexivity|].
    intros a r d' Hw' _. simpl in Hw'. simpl. rewrite Hc.
    destruct (type parent); [discriminate|].
    destruct (string_dec a nm) as [->|Hne].
    + rewrite findChild_filter_same in Hw'. discriminate.
    + rewrite findChild_filter_other in Hw' by exact Hne. exact Hw'.
Qed.

Lemma steps_noNewLock (es : list Event) (a : App) :
  noNewLock (fileSystem a) (fileSystem (steps es a)).
Proof.
  change (noNewLock (fst (treeAndLedger a)) (fst (treeAndLedger (steps es a)))).
  generalize (steps_effects es a).
  generalize (treeAndLedger a) (treeAndLedger (steps es a)).
  intros x y H. induction H as [|x y z H H' IH].
  - apply noNewLock_refl.
  - eapply noNewLock_trans; [apply effect_noNewLock; exact H | exact IH].
Qed.

End NoNewLock.

(* ================================================================= *)
(** ** enter (cd) and passwords *)

Lemma strictEq_nth (more : list string) (P : string) :
  Js.strictEq (nth_error more 0) (Some P) = true <-> nth_error more 0 = Some P.
Proof.
  unfold Js.strictEq. destruct (nth_error more 0) as [x|].
  - rewrite String.eqb_eq. split; congruence.
  - split; discriminate.
Qed.

(** C2.  Let [target] resolve to a directory [d] whose password is the
    non-empty string [P].

    [cd target] followed by anything but [P] (or by nothing) prints the
    access-denied line and changes nothing else: the current path and the
    node, password included, are what they were.

    [cd target P] sets the current path to the resolved path and replaces
    the node by itself with [password] removed and [isLocked] false; no
    denial is printed.  From then on, whatever is typed, fired or clicked
    ([es]), if a directory is still found at that path it has no password,
    and a [cd] that resolves to it enters it, with or without a secret. *)
Theorem cd_password_gate (s : App) (cmdStr target : string) (more : list string)
  (targetPath : Path) (d : FileNode) (P : string) :
  target <> "" ->
  resolvePath target (currentPath s) = Some targetPath ->
  findNode targetPath (fileSystem s) = Some d ->
  type d = DIRECTORY -> password d = Some P -> P <> "" ->
  let r := runCommand cmdStr "cd" (target :: more) s in
  (nth_error more 0 <> Some P ->
     r = addToHistory s output (msgDenied (name d)) (addToHistory s input cmdStr s) /\
     currentPath r = currentPath s /\
     findNode targetPath (fileSystem r) = Some d) /\
  (nth_error more 0 = Some P ->
     currentPath r = targetPath /\
     findNode targetPath (fileSystem r) = Some (assign d unlockPatch) /\
     password (assign d unlockPatch) = None /\
     isLocked (assign d unlockPatch) = Some false /\
     history r
     = (history s ++ [mkLine input cmdStr (Some (getPathString (currentPath s)))])%list /\
     forall (es : list Event) (cmdStr' target' : string) (more' : list string)
            (d' : FileNode),
       let later := steps es r in
       target' <> "" ->
       resolvePath target' (currentPath later) = Some targetPath ->
       findNode targetPath (fileSystem later) = Some d' ->
       type d' = DIRECTORY ->
       password d' = None /\
       runCommand cmdStr' "cd" (target' :: more') later
       = setCurrentPath targetPath (addToHistory later input cmdStr' later)).
Proof.
  intros Ha Hres Hfind Hty Hpw HP r.
  assert (Htruthy : Js.truthyS (password d) = true).
  { rewrite Hpw. unfold Js.truthyS. rewrite (String_eqb_false _ _ HP). reflexivity. }
  assert (Hr : r = case_cd s (target :: more) (addToHistory s input cmdStr s))
    by apply run_cd.
  unfold case_cd in Hr.
  rewrite arg0_cons, (String_eqb_false _ _ Ha), Hres, Hfind, Hty, Htruthy in Hr.
  change (nth_error (target :: more) 1) with (nth_error more 0) in Hr.
  rewrite Hpw in Hr.
  split.
  - intro Hwrong.
    destruct (Js.strictEq (nth_error more 0) (Some P)) eqn:E.
    + apply strictEq_nth in E. contradiction.
    + rewrite Hr. simpl. auto.
  - intro Hright. apply strictEq_nth in Hright. rewrite Hright in Hr.
    destruct (updateFileSystemNode targetPath unlockPatch (fileSystem s))
      as [newFS|] eqn:Eu.
    2:{ exfalso. rewrite updateFileSystemNode_mutateAt in Eu.
        rewrite findNode_walk in Hfind.
        destruct (mutateAt_some (fun t => assign t unlockPatch) _ _ _ Hfind).
        congruence. }
    assert (Hnew : findNode targetPath newFS = Some (assign d unlockPatch)).
    { apply (findNode_mutateAt_self (fun t => assign t unlockPatch)
               targetPath (fileSystem s) newFS d).
      - apply keepsName_assign. reflexivity.
      - exact Hfind.
      - unfold updateFileSystemNode in Eu. exact Eu. }
    assert (Hfsr : fileSystem r = newFS) by (rewrite Hr; reflexivity).
    split; [rewrite Hr; reflexivity|].
    split; [rewrite Hfsr; exact Hnew|].
    split; [reflexivity|]. split; [reflexivity|].
    split; [rewrite Hr; reflexivity|].
    intros es cmdStr' target' more' d' later Ha' Hres' Hfind' Hty'.
    assert (Hnone : password d' = None).
    { rewrite findNode_walk in Hfind', Hnew.
      destruct (steps_noNewLock es r _ _ Hfind' Hty') as [d0 [Hw0 [_ Hp]]].
      rewrite Hfsr, Hnew in Hw0. injection Hw0 as <-.
      destruct Hp as [Hp|Hp]; exact Hp. }
    split; [exact Hnone|].
    apply (cd_without_password later cmdStr' target' more' targetPath d');
      try assumption.
    rewrite Hnone. reflexivity.
Qed.

Lemma cd_password_gate_witness :
  let inData := setCurrentPath [""; "data"] Demo.start in
  let opened := runCommand "cd vault open" "cd" ["vault"; "open"] inData in
  let later := steps [Typed "cd .."] opened in
  currentPath (runCommand "cd vault x" "cd" ["vault"; "x"] inData) = [""; "data"]
  /\ currentPath opened = [""; "data"; "vault"]
  /\ currentPath later = [""; "data"]
  /\ runCommand "cd vault" "cd" ["vault"] later
     = setCurrentPath [""; "data"; "vault"] (addToHistory later input "cd vault" later).
Proof.
  intros inData opened later.
  pose (vault := Demo.locked "open" (Demo.dir "vault" [Demo.file "note.txt" "note"])).
  assert (Hne : "vault" <> "") by discriminate.
  assert (HP : "open" <> "") by discriminate.
  split; [|split; [|split; [reflexivity|]]].
  - destruct (cd_password_gate inData "cd vault x" "vault" ["x"]
                [""; "data"; "vault"] vault "open"
                Hne eq_refl eq_refl eq_refl eq_refl HP) as [Hwrong _].
    destruct Hwrong as [_ [Hcp _]]; [discriminate | exact Hcp].
  - destruct (cd_password_gate inData "cd vault open" "vault" ["open"]
                [""; "data"; "vault"] vault "open"
                Hne eq_refl eq_refl eq_refl eq_refl HP) as [_ Hright].
    destruct (Hright eq_refl) as [Hcp _]. exact Hcp.
  - destruct (cd_password_gate inData "cd vault open" "vault" ["open"]
                [""; "data"; "vault"] vault "open"
                Hne eq_refl eq_refl eq_refl eq_refl HP) as [_ Hright].
    destruct (Hright eq_refl) as [_ [_ [_ [_ [_ Hperm]]]]].
    apply (Hperm [Typed "cd .."] "cd vault" "vault" [] (assign vault unlockPatch)).
    + exact Hne.
    + vm_compute. reflexivity.
    + vm_compute. reflexivity.
    + reflexivity.
Defined.

(* ================================================================= *)
(** ** find (search) *)

Section Search.

Local Open Scope list_scope.

Lemma skipRoot_snoc (cp : Path) (term : string) :
  term <> "" -> skipRoot (cp ++ [term]) = skipRoot cp ++ [term].
Proof.
  intro H. destruct cp as [|a r]; simpl.
  - rewrite (String_eqb_false _ _ H). reflexivity.
  - destruct (a =? ""); reflexivity.
Qed.

Lemma isRootPath_snoc (cp : Path) (term : string) :
  term <> "" -> isRootPath (cp ++ [term]) = false.
Proof.
  intro H. destruct cp as [|a [|b r]]; simpl; try reflexivity.
  apply String_eqb_false. exact H.
Qed.

Lemma findNode_child (cp : Path) (term : string) (fs cur found : FileNode)
  (cs : list FileNode) :
  term <> "" ->
  findNode cp fs = Some cur -> type cur = DIRECTORY ->
  children cur = Some cs -> findChild term cs = Some found ->
  findNode (cp ++ [term]) fs = Some found.
Proof.
  intros Ht Hc Hty Hcs Hf. rewrite findNode_walk in *.
  rewrite skipRoot_snoc by exact Ht. rewrite walk_app, Hc.
  simpl. rewrite Hty, Hcs, Hf. reflexivity.
Qed.

Lemma mutateAt_cons_shape (f : FileNode -> FileNode) (b : string) (q : Path)
  (n n' : FileNode) :
  mutateAt (b :: q) f n = Some n' -> exists cs', n' = withChildren cs' n.
Proof.
  simpl. destruct (type n); [discriminate|].
  destruct (children n) as [cs|]; [|discriminate].
  destruct (findChild b cs) as [c|]; [|discriminate].
  destruct (mutateAt q f c); [|discriminate].
  intros [= <-]. eexists. reflexivity.
Qed.

(** Copying a node into the intake directory removes no node and changes
    no field but the children of the nodes that were there. *)
Lemma appendClone_keeps (node fs : FileNode) (p : Path) (n : FileNode) :
  walk p fs = Some n ->
  exists n', walk p (appendClone node fs) = Some n' /\
             withChildren None n' = withChildren None n.
Proof.
  intro Hp. unfold appendClone.
  destruct (findNode homeUser fs) as [intake|] eqn:Ei; [|eauto].
  destruct (children intake) as [cs|] eqn:Ec; [|eauto].
  destruct (findChild (name node) cs) eqn:En; [eauto|].
  destruct (updateFileSystemNode _ _ fs) as [t|] eqn:Eu; [|eauto].
  rewrite updateFileSystemNode_mutateAt in Eu. rewrite findNode_walk in Ei.
  set (f := fun target : FileNode =>
              assign target (childrenPatch (cs ++ [assign node evidencePatch]))) in *.
  assert (Hf : keepsName f) by (intro x; reflexivity).
  destruct (path_cases (skipRoot homeUser) p)
    as [[r E]|[[b [q' E]]|[c [a [b [r [q' [Hne [E E']]]]]]]]].
  - destruct (walk_mutateAt_below _ _ _ _ Hf Eu) as [n0 [Hw Hr]].
    assert (n0 = intake) by congruence. subst n0.
    rewrite E, Hr. rewrite E, walk_app, Hw in Hp.
    destruct r as [|a r].
    + simpl in *. injection Hp as <-. eexists. split; reflexivity.
    + exists n. split; [|reflexivity].
      simpl in *. rewrite Ec in Hp.
      destruct (type intake); [discriminate|].
      rewrite findChild_app.
      destruct (findChild a cs); [exact Hp | discriminate].
  - rewrite E in Eu.
    destruct (walk_mutateAt_through _ _ _ _ _ Hf Eu) as [n0 [n' [Hw [Hm Hr]]]].
    assert (n0 = n) by congruence. subst n0.
    specialize (Hr []). rewrite app_nil_r in Hr. rewrite Hr.
    destruct (mutateAt_cons_shape _ _ _ _ _ Hm) as [cs' ->].
    eexists. split; reflexivity.
  - rewrite E' in Eu. rewrite E.
    rewrite (walk_mutateAt_beside _ _ _ _ _ _ _ _ Hf Hne Eu).
    rewrite <- E. eauto.
Qed.

(** Unlocking or revealing a node removes no node and hides none. *)
Lemma patch_keeps (p : Path) (patch : Partial) (fs t : FileNode) (P : Path)
  (n : FileNode) :
  patch = unlockPatch \/ patch = revealPatch ->
  updateFileSystemNode p patch fs = Some t ->
  walk P fs = Some n ->
  exists n', walk P t = Some n' /\
             (Js.truthyB (isHidden n) = false -> Js.truthyB (isHidden n') = false).
Proof.
  intros Hpatch Hu Hp. rewrite updateFileSystemNode_mutateAt in Hu.
  set (f := fun target : FileNode => assign target patch) in *.
  assert (Hf : keepsName f).
  { apply keepsName_assign. destruct Hpatch as [->| ->]; reflexivity. }
  destruct (path_cases (skipRoot p) P)
    as [[r E]|[[b [q' E]]|[c [a [b [r [q' [Hne [E E']]]]]]]]].
  - destruct (walk_mutateAt_below _ _ _ _ Hf Hu) as [n0 [Hw Hr]].
    rewrite E, Hr. rewrite E, walk_app, Hw in Hp.
    destruct r as [|a r].
    + simpl in Hp. injection Hp as <-. exists (f n0). split; [reflexivity|].
      unfold f. destruct Hpatch as [->| ->]; simpl; auto.
    + exists n. split; [|auto]. rewrite <- Hp.
      apply walk_cons_congr; unfold f; destruct Hpatch as [->| ->]; reflexivity.
  - rewrite E in Hu.
    destruct (walk_mutateAt_through _ _ _ _ _ Hf Hu) as [n0 [n' [Hw [Hm Hr]]]].
    assert (n0 = n) by congruence. subst n0.
    specialize (Hr []). rewrite app_nil_r in Hr. rewrite Hr.
    destruct (mutateAt_cons_shape _ _ _ _ _ Hm) as [cs' ->].
    eexists. split; [reflexivity | auto].
  - rewrite E' in Hu. rewrite E.
    rewrite (walk_mutateAt_beside _ _ _ _ _ _ _ _ Hf Hne Hu).
    rewrite <- E. eauto.
Qed.

(** Deleting children hides no node. *)
Lemma delete_keepsRevealed (nm : string) (p : Path) (fs t : FileNode) :
  deleteNode nm p fs = Some t -> keepsRevealed fs t.
Proof.
  intros Hd P d d' Hfs Ht Hrev.
  destruct (deleteNode_mutateAt _ _ _ _ Hd) as [parent [cs [Hw [Hc Hm]]]].
  pose proof (keepsName_withChildren
                (Some (filter (fun c => negb (name c =? nm)) cs))) as Hf.
  destruct (path_cases (skipRoot p) P)
    as [[r E]|[[b [q' E]]|[c [a [b [r [q' [Hne [E E']]]]]]]]].
  - destruct (walk_mutateAt_below _ _ _ _ Hf Hm) as [n0 [Hw' Hr]].
    assert (n0 = parent) by congruence. subst n0.
    rewrite E, Hr in Ht. rewrite E, walk_app, Hw in Hfs.
    destruct r as [|a r].
    + simpl in *. injection Hfs as <-. injection Ht as <-. exact Hrev.
    + simpl in Hfs, Ht. rewrite Hc in Hfs.
      destruct (type parent); [discriminate|].
      destruct (string_dec a nm) as [->|Hne].
      * rewrite findChild_filter_same in Ht. discriminate.
      * rewrite findChild_filter_other in Ht by exact Hne.
        assert (d' = d) by congruence. subst d'. exact Hrev.
  - rewrite E in Hm.
    destruct (walk_mutateAt_through _ _ _ _ _ Hf Hm) as [n0 [n' [Hw' [Hm' Hr]]]].
    assert (n0 = d) by congruence. subst n0.
    specialize (Hr []). rewrite app_nil_r in Hr. rewrite Hr in Ht.
    destruct (mutateAt_cons_shape _ _ _ _ _ Hm') as [cs' ->].
    simpl in Ht. injection Ht as <-. exact Hrev.
  - rewrite E' in Hm. rewrite E in Ht, Hfs.
    rewrite (walk_mutateAt_beside _ _ _ _ _ _ _ _ Hf Hne Hm) in Ht.
    assert (d' = d) by congruence. subst d'. exact Hrev.
Qed.

Lemma effect_keepsRevealed x y : Effect x y -> keepsRevealed (fst x) (fst y).
Proof.
  intros [p patch fs t L Hpatch Hu | node fs L Hty Hhas | nm p fs t L Hp Hd];
    cbn [fst].
  - intros P d d' Hfs Ht Hrev.
    destruct (patch_keeps p patch fs t P d Hpatch Hu Hfs) as [n' [Hn' H]].
    assert (n' = d') by congruence. subst n'. auto.
  - intros P d d' Hfs Ht Hrev.
    destruct (appendClone_keeps node fs P d Hfs) as [n' [Hn' H]].
    assert (n' = d') by congruence. subst n'.
    change (isHidden d') with (isHidden (withChildren None d')).
    rewrite H. exact Hrev.
  - apply (delete_keepsRevealed nm p fs t Hd).
Qed.

Lemma burst_keepsRevealed x y : Burst x y -> keepsRevealed (fst x) (fst y).
Proof.
  induction 1 as [x | x y H | p patch fs t L z Hp Hu _ IH | node fs L z Ht Hh _ IH];
    cbn [fst] in *.
  - intros P d d' Hd Hd' Hrev. assert (d' = d) by congruence. subst d'. exact Hrev.
  - apply effect_keepsRevealed. exact H.
  - intros P d d' Hd Hd' Hrev.
    destruct (patch_keeps p patch fs t P d Hp Hu Hd) as [n' [Hn' H]].
    apply (IH P n' d' Hn' Hd'). auto.
  - intros P d d' Hd Hd' Hrev.
    destruct (appendClone_keeps node fs P d Hd) as [n' [Hn' H]].
    apply (IH P n' d' Hn' Hd').
    change (isHidden n') with (isHidden (withChildren None n')).
    rewrite H. exact Hrev.
Qed.

(** No event hides a node again. *)
Lemma step_keepsRevealed (e : Event) (a : App) :
  keepsRevealed (fileSystem a) (fileSystem (step e a)).
Proof.
  apply (burst_keepsRevealed (treeAndLedger a) (treeAndLedger (step e a))).
  apply step_burst.
Qed.

End Search.

Lemma childOf_name (o : option FileNode) (term : string) (found : FileNode) :
  childOf o term = Some found -> name found = term.
Proof.
  unfold childOf. destruct o as [n|]; [|discriminate].
  destruct (children n); [apply findChild_name | discriminate].
Qed.

(** C7.  [search term], with [here] the node at the current path.

    - No child of that name: "no such hidden file", nothing else changes.
    - A child of that name that is not hidden: "already exists", nothing
      else changes.
    - A hidden child [found] of the current directory: the node is
      replaced in the tree by itself with [isHidden] false, the node found
      at its path in the resulting state has [isHidden] false, and the
      "found" line is printed; then
        - with a password: only the password hint follows; the current path
          is unchanged and nothing is shown, collected or queued;
        - else for a DIRECTORY: the current path becomes the child's path;
        - else for a FILE with a script: only the hint follows, no timeout
          is queued, no checkpoint is written;
        - else the content is printed and the tree and ledger are those
          [collectEvidence] yields for the revealed node on the revealed
          tree.
    - [cat] on a visible FILE changes the tree and the ledger by that same
      [collectEvidence].
    - No event hides a node again: a node found at the same path before
      and after an event, and not hidden before, is not hidden after. *)
Theorem search_reveals_and_acts (s : App) (cmdStr term : string)
  (rest : list string) :
  term <> "" ->
  let r := runCommand cmdStr "search" (term :: rest) s in
  let echoed := addToHistory s input cmdStr s in
  let here := findNode (currentPath s) (fileSystem s) in
  (childOf here term = None -> r = addToHistory s output msgNoHidden echoed) /\
  (forall found,
     childOf here term = Some found -> Js.truthyB (isHidden found) = false ->
     r = addToHistory s output (msgExists term) echoed) /\
  (forall cur found,
     here = Some cur -> type cur = DIRECTORY ->
     childOf here term = Some found -> Js.truthyB (isHidden found) = true ->
     let revealed := assign found revealPatch in
     let childPath := (currentPath s ++ [term])%list in
     exists heap,
       updateFileSystemNode childPath revealPatch (fileSystem s) = Some heap /\
       findNode childPath heap = Some revealed /\
       (exists n', findNode childPath (fileSystem r) = Some n' /\
                   isHidden n' = Some false) /\
       let shown :=
         addToHistory s system (msgRevealed term) (setFileSystem heap echoed) in
       (Js.truthyS (password found) = true ->
          r = addToHistory s output (msgNeedPassword (type found) term) shown) /\
       (Js.truthyS (password found) = false -> type found = DIRECTORY ->
          r = addToHistory s system (msgEntered term)
                (setCurrentPath childPath shown)) /\
       (Js.truthyS (password found) = false -> type found = FILE ->
        Js.truthyS (scriptAction found) = true ->
          r = addToHistory s output (msgScriptHint term (content found)) shown) /\
       (Js.truthyS (password found) = false -> type found = FILE ->
        Js.truthyS (scriptAction found) = false ->
          treeAndLedger r = collectEvidence revealed (heap, evidenceCollected s) /\
          currentPath r = currentPath s /\ timers r = timers s /\
          history r
          = (history shown
             ++ [mkLine output (Js.orElse (content found) "") None]
             ++ (if Js.truthyB (isEvidence found)
                    && negb (Js.has term (evidenceCollected s))
                 then [mkLine system (msgCollected term) None] else []))%list)) /\
  (forall (s' : App) (cmdStr' a0 : string) (rest' : list string) (f : FileNode),
     a0 <> "" -> catLookup s' a0 = Some f -> type f = FILE ->
     Js.truthyB (isHidden f) = false ->
     treeAndLedger (runCommand cmdStr' "cat" (a0 :: rest') s')
     = collectEvidence f (treeAndLedger s')) /\
  (forall (e : Event) (a : App),
     keepsRevealed (fileSystem a) (fileSystem (step e a))).
Proof.
  intros Ha r echoed here.
  assert (Hr : r = case_search s (term :: rest) echoed) by apply run_search.
  unfold case_search in Hr.
  rewrite arg0_cons, (String_eqb_false _ _ Ha) in Hr. fold here in Hr.
  split; [|split; [|split; [|split; [|exact step_keepsRevealed]]]].
  - intro Hn. rewrite Hn in Hr. exact Hr.
  - intros found Hf Hh. rewrite Hf, Hh in Hr.
    rewrite (childOf_name _ _ _ Hf) in Hr. exact Hr.
  - intros cur found Hcur Hty Hf Hh revealed childPath.
    assert (Hcs : exists cs, children cur = Some cs /\ findChild term cs = Some found).
    { unfold childOf in Hf. rewrite Hcur in Hf.
      destruct (children cur) as [cs|]; [eauto | discriminate]. }
    destruct Hcs as [cs [Hcs Hfc]].
    assert (Hname : name found = term) by apply (findChild_name _ _ _ Hfc).
    assert (Hold : findNode childPath (fileSystem s) = Some found)
      by apply (findNode_child _ _ _ cur found cs Ha Hcur Hty Hcs Hfc).
    destruct (updateFileSystemNode childPath revealPatch (fileSystem s))
      as [heap|] eqn:Eu.
    2:{ exfalso. rewrite updateFileSystemNode_mutateAt in Eu.
        rewrite findNode_walk in Hold.
        destruct (mutateAt_some (fun t => assign t revealPatch) _ _ _ Hold).
        congruence. }
    assert (Hnew : findNode childPath heap = Some revealed).
    { apply (findNode_mutateAt_self (fun t => assign t revealPatch)
               childPath (fileSystem s) heap found).
      - apply keepsName_assign. reflexivity.
      - exact Hold.
      - unfold updateFileSystemNode in Eu. exact Eu. }
    rewrite Hf, Hh, Hname in Hr. fold childPath in Hr. rewrite Eu in Hr.
    change (name (assign found revealPatch)) with (name found) in Hr.
    change (password (assign found revealPatch)) with (password found) in Hr.
    change (type (assign found revealPatch)) with (type found) in Hr.
    change (scriptAction (assign found revealPatch)) with (scriptAction found) in Hr.
    change (content (assign found revealPatch)) with (content found) in Hr.
    change (isEvidence (assign found revealPatch)) with (isEvidence found) in Hr.
    cbv zeta in Hr. rewrite Hname in Hr.
    exists heap. split; [reflexivity|]. split; [exact Hnew|].
    set (shown := addToHistory s system (msgRevealed term) (setFileSystem heap echoed)) in *.
    split.
    { (* the node stays revealed in the resulting tree *)
      assert (Hfs : fileSystem r = heap \/ fileSystem r = appendClone revealed heap).
      { rewrite Hr. unfold appendClone. fold revealed.
        change (name revealed) with (name found). rewrite Hname.
        by_cases; auto. }
      destruct Hfs as [-> | ->].
      - exists revealed. auto.
      - rewrite findNode_walk in *.
        destruct (appendClone_keeps revealed heap _ _ Hnew) as [n' [Hw Hsame]].
        exists n'. split; [exact Hw|].
        change (isHidden n') with (isHidden (withChildren None n')).
        rewrite Hsame. reflexivity. }
    split; [|split; [|split]].
    + intro Hpw. rewrite Hpw in Hr. exact Hr.
    + intros Hpw Hd. rewrite Hpw, Hd in Hr. exact Hr.
    + intros Hpw Hfile Hsc. rewrite Hpw, Hfile, Hsc in Hr. exact Hr.
    + intros Hpw Hfile Hsc. rewrite Hpw, Hfile, Hsc in Hr.
      unfold collectEvidence, appendClone. simpl fst. simpl snd.
      change (name revealed) with (name found).
      change (isEvidence revealed) with (isEvidence found).
      rewrite Hname. rewrite Hr. unfold treeAndLedger.
      fold revealed.
      destruct (Js.truthyB (isEvidence found)
                && negb (Js.has term (evidenceCollected s))).
      * by_cases; repeat split; try (rewrite <- ?app_assoc; reflexivity).
      * simpl. repeat split; try (rewrite <- ?app_assoc; reflexivity).
  - intros s' cmdStr' a0 rest' f Ha0 Hf Hty Hh.
    rewrite run_cat, case_cat_treeAndLedger by reflexivity.
    rewrite arg0_cons, Hf, Hty, Hh, (String_eqb_false _ _ Ha0).
    unfold collectEvidence, treeAndLedger. simpl.
    destruct (Js.truthyB (isEvidence f)
              && negb (Js.has (name f) (evidenceCollected s'))) eqn:E;
      rewrite ?E; reflexivity.
Qed.

Lemma search_reveals_and_acts_witness :
  let inData := setCurrentPath [""; "data"] Demo.start in
  let secret := Demo.hidden (Demo.evidence (Demo.file "secret.txt" "hush")) in
  let r := runCommand "search secret.txt" "search" ["secret.txt"] inData in
  runCommand "search nope" "search" ["nope"] inData
  = addToHistory inData output msgNoHidden
      (addToHistory inData input "search nope" inData)
  /\ runCommand "search vault" "search" ["vault"] inData
     = addToHistory inData output (msgExists "vault")
         (addToHistory inData input "search vault" inData)
  /\ exists heap,
       updateFileSystemNode [""; "data"; "secret.txt"] revealPatch
         (fileSystem inData) = Some heap
       /\ findNode [""; "data"; "secret.txt"] heap = Some (assign secret revealPatch)
       /\ treeAndLedger r = collectEvidence (assign secret revealPatch) (heap, [])
       /\ currentPath r = [""; "data"].
Proof.
  intros inData secret r.
  assert (Hne : "nope" <> "") by discriminate.
  assert (Hne' : "vault" <> "") by discriminate.
  assert (Hne'' : "secret.txt" <> "") by discriminate.
  split; [|split].
  - apply (search_reveals_and_acts inData "search nope" "nope" [] Hne).
    reflexivity.
  - destruct (search_reveals_and_acts inData "search vault" "vault" [] Hne')
      as [_ [H _]].
    apply (H (Demo.locked "open" (Demo.dir "vault" [Demo.file "note.txt" "note"])));
      reflexivity.
  - destruct (search_reveals_and_acts inData "search secret.txt" "secret.txt" [] Hne'')
      as [_ [_ [H _]]].
    destruct (H _ secret eq_refl eq_refl eq_refl eq_refl)
      as [heap [Hu [Hf [_ [_ [_ [_ Hfile]]]]]]].
    destruct (Hfile eq_refl eq_refl eq_refl) as [Htl [Hcp _]].
    exists heap. split; [exact Hu|]. split; [exact Hf|].
    split; [exact Htl | exact Hcp].
Defined.

(* ================================================================= *)
(** ** Pending timeouts *)

Arguments pendingCallback : simpl never.

Section Pending.

Local Open Scope list_scope.

Lemma find_append {A} (f : A -> bool) (l l' : list A) :
  find f (l ++ l') =
  match find f l with
  | Some x => Some x
  | None => find f l'
  end.
Proof.
  induction l as [|x l IH]; simpl; [reflexivity|].
  destruct (f x); [reflexivity | exact IH].
Qed.

Variables (id : nat) (k : Continuation).

Lemma pending_same_timers (a b : App) :
  timers b = timers a -> pendingCallback id b = pendingCallback id a.
Proof. unfold pendingCallback. intros ->. reflexivity. Qed.

Lemma pending_setTimeout (k' : Continuation) (delay : nat) (a : App) :
  pendingCallback id a = Some k ->
  pendingCallback id (setTimeout k' delay a) = Some k.
Proof.
  unfold pendingCallback. simpl. rewrite find_append.
  destruct (find _ (timers a)); [auto | discriminate].
Qed.

Lemma pending_executeScript (s acc : App) (heap : FileNode) (action : string)
  (args : list string) :
  pendingCallback id acc = Some k ->
  pendingCallback id (executeScript s heap action args acc) = Some k.
Proof.
  intro H. unfold executeScript, saveCheckpoint.
  by_cases; try apply pending_setTimeout; try exact H.
Qed.

Lemma pending_dispatch (s acc : App) (cmd : string) (args : list string) :
  pendingCallback id acc = Some k ->
  pendingCallback id (dispatch s cmd args acc) = Some k.
Proof.
  intro H. unfold dispatch.
  destruct (cmd =? "help"); [exact H|].
  destruct (cmd =? "ls"); [unfold case_ls; by_cases; exact H|].
  destruct (cmd =? "cd"); [unfold case_cd; by_cases; exact H|].
  destruct (cmd =? "cat").
  { unfold case_cat. by_cases; try apply pending_executeScript; exact H. }
  destruct (cmd =? "search"); [unfold case_search; by_cases; exact H|].
  destruct (cmd =? "rm"); [unfold case_rm; by_cases; exact H|].
  destruct (_ || _); [|exact H].
  unfold case_script. by_cases; try apply pending_executeScript; exact H.
Qed.

Lemma pending_dropTimer (id' : nat) (a : App) :
  id' <> id ->
  pendingCallback id (dropTimer id' a) = pendingCallback id a.
Proof.
  intro Hne. unfold pendingCallback. simpl. f_equal.
  induction (timers a) as [|t l IH]; simpl; [reflexivity|].
  destruct (Nat.eqb_spec (timer_id t) id') as [E|E]; simpl.
  - rewrite IH. destruct (Nat.eqb_spec (timer_id t) id); [congruence | reflexivity].
  - rewrite IH. reflexivity.
Qed.

Lemma pending_runCallback (k' : Continuation) (a : App) :
  pendingCallback id (runCallback k' a) = pendingCallback id a.
Proof. apply pending_same_timers. unfold runCallback. by_cases. Qed.

(** A pending timeout stays pending until it fires itself. *)
Lemma pending_step (e : Event) (a : App) :
  e <> Fired id ->
  pendingCallback id a = Some k -> pendingCallback id (step e a) = Some k.
Proof.
  intros Hne H. destruct e as [cmdStr|id'|p]; simpl.
  - unfold handleCommand. destruct (tokens cmdStr) as [|cmd args]; [exact H|].
    unfold runCommand. apply pending_dispatch. exact H.
  - unfold fireTimer. destruct (find _ (timers a)); [|exact H].
    rewrite pending_runCallback, pending_dropTimer; [exact H|].
    intros ->. apply Hne. reflexivity.
  - rewrite (pending_same_timers a); [exact H|].
    unfold handleTreeNavigate. by_cases.
Qed.

Lemma pending_steps (es : list Event) (a : App) :
  ~ In (Fired id) es ->
  pendingCallback id a = Some k -> pendingCallback id (steps es a) = Some k.
Proof.
  revert a. induction es as [|e es IH]; intros a Hn H; [exact H|].
  rewrite steps_cons. apply IH.
  - intro Hin. apply Hn. right. exact Hin.
  - apply pending_step; [|exact H]. intros ->. apply Hn. left. reflexivity.
Qed.

Lemma fireTimer_pending (a : App) :
  pendingCallback id a = Some k ->
  fireTimer id a = runCallback k (dropTimer id a).
Proof.
  unfold pendingCallback, fireTimer.
  destruct (find _ (timers a)) as [t|]; [|discriminate].
  simpl. intros [= ->]. reflexivity.
Qed.

End Pending.

Section TimersFresh.

Local Open Scope list_scope.

Lemma fresh_setTimeout (k : Continuation) (delay : nat) (a : App) :
  timersFresh a -> timersFresh (setTimeout k delay a).
Proof.
  intros H t Hin. simpl in *. apply in_app_or in Hin.
  destruct Hin as [Hin|[<-|[]]]; [apply H in Hin; lia | simpl; lia].
Qed.

Lemma fresh_executeScript (s acc : App) (heap : FileNode) (action : string)
  (args : list string) :
  timersFresh acc -> timersFresh (executeScript s heap action args acc).
Proof.
  intro H. unfold executeScript, saveCheckpoint.
  by_cases; try apply fresh_setTimeout; exact H.
Qed.

Lemma fresh_dispatch (s acc : App) (cmd : string) (args : list string) :
  timersFresh acc -> timersFresh (dispatch s cmd args acc).
Proof.
  intro H. unfold dispatch.
  destruct (cmd =? "help"); [exact H|].
  destruct (cmd =? "ls"); [unfold case_ls; by_cases; exact H|].
  destruct (cmd =? "cd"); [unfold case_cd; by_cases; exact H|].
  destruct (cmd =? "cat").
  { unfold case_cat. by_cases; try apply fresh_executeScript; exact H. }
  destruct (cmd =? "search"); [unfold case_search; by_cases; exact H|].
  destruct (cmd =? "rm"); [unfold case_rm; by_cases; exact H|].
  destruct (_ || _); [|exact H].
  unfold case_script. by_cases; try apply fresh_executeScript; exact H.
Qed.

(** Every event keeps the identifiers fresh, so that the timeout a script
    queues is the only one under its identifier. *)
Lemma fresh_step (e : Event) (a : App) : timersFresh a -> timersFresh (step e a).
Proof.
  intro H. destruct e as [cmdStr|id|p]; simpl.
  - unfold handleCommand. destruct (tokens cmdStr) as [|cmd args]; [exact H|].
    unfold runCommand. apply fresh_dispatch. exact H.
  - unfold fireTimer. destruct (find _ (timers a)) as [t|]; [|exact H].
    assert (Hd : timersFresh (dropTimer id a)).
    { intros t' Hin. simpl in *. apply filter_In in Hin. apply H. tauto. }
    revert Hd. generalize (dropTimer id a). intros b Hb.
    unfold runCallback. by_cases; exact Hb.
  - unfold handleTreeNavigate. by_cases; exact H.
Qed.

Lemma fresh_steps (es : list Event) (a : App) :
  timersFresh a -> timersFresh (steps es a).
Proof.
  revert a. induction es as [|e es IH]; intros a H; [exact H|].
  rewrite steps_cons. apply IH. apply fresh_step. exact H.
Qed.

(** In particular the identifier a new timeout receives is not in use. *)
Lemma fresh_no_clash (a : App) :
  timersFresh a -> forall t, In t (timers a) -> timer_id t <> nextTimerId a.
Proof. intros H t Hin. apply H in Hin. lia. Qed.

End TimersFresh.

(* ================================================================= *)
(** ** The verdict of the disguise script is fixed when it is started *)

(** C10.  The disguise script is started (six names or more in the ledger
    of the closure) on the tree [heap], with no pending timeout carrying
    the identifier the new timeout receives (as in every run that starts
    without pending timeouts).  Then any events [es] happen
    during the delay - commands typed, other timeouts firing, clicks in
    the tree - and the timeout fires.  Its outcome is the one computed from
    [heap]: LOSE if a forbidden name was in the intake directory of [heap],
    otherwise WIN if all required names were there, otherwise the
    verification-failure line with the phase left alone.  The tree and the
    ledger the events [es] have produced do not enter into it. *)
Theorem disguise_verdict_fixed_at_start (s acc : App) (heap : FileNode)
  (args : list string) (es : list Event) :
  6 <= Js.size (evidenceCollected s) ->
  (forall t, In t (timers acc) -> timer_id t <> nextTimerId acc) ->
  ~ In (Fired (nextTimerId acc)) es ->
  let started := executeScript s heap "DISGUISE_SCRIPT" args acc in
  let before := steps es started in
  let after := fireTimer (nextTimerId acc) before in
  (forbiddenPresent heap -> gameState after = LOSE) /\
  (~ forbiddenPresent heap -> allRequiredPresent heap -> gameState after = WIN) /\
  (~ forbiddenPresent heap -> ~ allRequiredPresent heap ->
     gameState after = gameState before /\
     history after = (history before ++ [mkLine output msgVerifyFailed None])%list) /\
  treeAndLedger after = treeAndLedger before.
Proof.
  intros Hsize Hfresh Hnot started before after.
  pose proof (disguise_started s acc heap args Hsize) as Hstart.
  fold started in Hstart.
  set (verdict := DisguiseVerdict _ _) in Hstart.
  assert (Htimers : timers started
                    = (timers acc ++ [mkTimer (nextTimerId acc) 2000 verdict])%list).
  { rewrite Hstart. unfold saveCheckpoint. simpl.
    destruct (storageWritable acc); reflexivity. }
  assert (Hpend : pendingCallback (nextTimerId acc) started = Some verdict).
  { unfold pendingCallback. rewrite Htimers, find_append.
    destruct (find _ (timers acc)) as [t|] eqn:Ef.
    - apply find_some in Ef. destruct Ef as [Hin Hid].
      apply Nat.eqb_eq in Hid. exfalso. exact (Hfresh t Hin Hid).
    - simpl. rewrite Nat.eqb_refl. reflexivity. }
  assert (Hfire : after = runCallback verdict (dropTimer (nextTimerId acc) before)).
  { apply fireTimer_pending. apply pending_steps; assumption. }
  destruct (verdict_outcome heap _ _ (dropTimer (nextTimerId acc) before)
              eq_refl eq_refl) as [Hl [Hw Hf]].
  fold verdict in Hl, Hw, Hf.
  split; [|split; [|split]].
  - intro Hp. rewrite Hfire, (Hl Hp). reflexivity.
  - intros Hn Hp. rewrite Hfire, (Hw Hn Hp). reflexivity.
  - intros Hn Hm. rewrite Hfire, (Hf Hn Hm). split; reflexivity.
  - rewrite Hfire, runCallback_treeAndLedger. reflexivity.
Qed.

Lemma disguise_verdict_fixed_at_start_witness :
  let full :=
    Demo.run ["cd data"; "cat 证据_1.txt"; "cat 陈冰-刘青原"; "cat 证据_3.txt";
              "cat 证据_5.txt"; "cat 证据_6.txt"; "cat 证据_8.txt"; "cd /"]
      Demo.start in
  let started :=
    executeScript full (fileSystem full) "DISGUISE_SCRIPT" []
      (addToHistory full input "./伪装.sh" full) in
  let meanwhile :=
    [Typed "cd /home/user"; Typed "rm 证据_1.txt"; Typed "cat /data/证据_4.txt"] in
  let before := steps meanwhile started in
  childNames (findNode homeUser (fileSystem before))
  = ["陈冰-刘青原"; "证据_3.txt"; "证据_5.txt"; "证据_6.txt"; "证据_8.txt"; "证据_4.txt"]
  /\ gameState before = PLAYING
  /\ gameState (fireTimer 0 before) = WIN.
Proof.
  intros full started meanwhile before.
  split; [vm_compute; reflexivity|]. split; [vm_compute; reflexivity|].
  apply (disguise_verdict_fixed_at_start full
           (addToHistory full input "./伪装.sh" full) (fileSystem full) []
           meanwhile).
  - apply Nat.leb_le. vm_compute. reflexivity.
  - intros t Hin. vm_compute in Hin. destruct Hin.
  - intros [H|[H|[H|[]]]]; discriminate H.
  - intro Hp. apply hasForbidden_spec in Hp. vm_compute in Hp. discriminate Hp.
  - apply hasAllRequired_spec. vm_compute. reflexivity.
Defined.

(* ================================================================= *)
(** ** Evidence is collected once *)

Section Intake.

Local Open Scope list_scope.

Lemma mutateAt_tag (f : FileNode -> FileNode) (q : Path) (n n' : FileNode) :
  keepsName f -> (forall x, isEvidence (f x) = isEvidence x) ->
  mutateAt q f n = Some n' -> tag n' = tag n.
Proof.
  intros Hf He Hm. unfold tag. rewrite (mutateAt_name _ _ _ _ Hf Hm).
  f_equal. destruct q as [|b q].
  - simpl in Hm. injection Hm as <-. apply He.
  - destruct (mutateAt_cons_shape _ _ _ _ _ Hm) as [cs' ->]. reflexivity.
Qed.

(** A mutation at [q] that keeps names and evidence marks leaves the
    children at [P] as they were, up to [tag], unless [P] lies at or
    below [q]; that case is left to the caller. *)
Lemma kidsAt_mutateAt (f : FileNode -> FileNode) (q P : Path) (fs t : FileNode) :
  keepsName f -> (forall x, isEvidence (f x) = isEvidence x) ->
  mutateAt q f fs = Some t ->
  (forall r n, P = q ++ r -> walk q fs = Some n -> kidsAt r (f n) = kidsAt r n) ->
  kidsAt P t = kidsAt P fs.
Proof.
  intros Hf He Hm Hbelow. unfold kidsAt.
  destruct (path_cases q P)
    as [[r E]|[[b [q' E]]|[c [a [b [r [q' [Hne [E E']]]]]]]]].
  - destruct (walk_mutateAt_below _ _ _ _ Hf Hm) as [n [Hw Hr]].
    specialize (Hbelow r n E Hw). unfold kidsAt in Hbelow.
    rewrite E, Hr, walk_app, Hw. exact Hbelow.
  - rewrite E in Hm.
    destruct (walk_mutateAt_through _ _ _ _ _ Hf Hm) as [n [n' [Hw [Hm' Hr]]]].
    specialize (Hr []). rewrite app_nil_r in Hr. rewrite Hr, Hw. simpl.
    simpl in Hm'.
    destruct (type n); [discriminate|].
    destruct (children n) as [cs|]; [|discriminate].
    destruct (findChild b cs) as [d|] eqn:Ed; [|discriminate].
    destruct (mutateAt q' f d) as [d'|] eqn:Em; [|discriminate].
    injection Hm' as <-. simpl. f_equal.
    apply (map_replaceChild tag b d' d cs Ed).
    apply (mutateAt_tag f q' d d' Hf He Em).
  - rewrite E' in Hm. rewrite E.
    rewrite (walk_mutateAt_beside _ _ _ _ _ _ _ _ Hf Hne Hm). reflexivity.
Qed.

Lemma kidsAt_same_children (r : Path) (n n' : FileNode) :
  type n' = type n -> children n' = children n -> kidsAt r n' = kidsAt r n.
Proof.
  intros Ht Hc. unfold kidsAt. destruct r as [|a r].
  - simpl. rewrite Hc. reflexivity.
  - rewrite (walk_cons_congr a r n n' Ht Hc). reflexivity.
Qed.

(** [cd] and the reveal of [search] do not change the children of any
    directory, up to [tag]. *)
Lemma kidsAt_patch (p P : Path) (patch : Partial) (fs t : FileNode) :
  patch = unlockPatch \/ patch = revealPatch ->
  updateFileSystemNode p patch fs = Some t ->
  kidsAt P t = kidsAt P fs.
Proof.
  intros Hpatch Hu. rewrite updateFileSystemNode_mutateAt in Hu.
  apply (kidsAt_mutateAt (fun x => assign x patch) (skipRoot p) P fs t).
  - apply keepsName_assign. destruct Hpatch as [->| ->]; reflexivity.
  - intro x. destruct Hpatch as [->| ->]; reflexivity.
  - exact Hu.
  - intros r n _ _. apply kidsAt_same_children;
      destruct Hpatch as [->| ->]; reflexivity.
Qed.

(** The paths that print as /home/user are neither the root nor /home. *)
Lemma home_user_not_above (p : Path) :
  getPathString p = "/home/user" ->
  skipRoot p <> [] /\ skipRoot p <> ["home"].
Proof.
  intro H. split; intro E.
  - destruct p as [|a [|b p]]; simpl in E.
    + discriminate H.
    + discriminate H.
    + destruct (a =? ""); discriminate E.
  - destruct p as [|a [|b [|c p]]]; simpl in E.
    + discriminate E.
    + discriminate H.
    + destruct (String.eqb_spec a "") as [->|Hne].
      * injection E as ->. discriminate H.
      * discriminate E.
    + destruct (a =? ""); discriminate E.
Qed.

(** [rm] typed elsewhere than in the intake directory leaves the
    children of the intake directory as they were. *)
Lemma kidsAt_delete_elsewhere (nm : string) (p : Path) (fs t : FileNode) :
  getPathString p = "/home/user" -> skipRoot p <> skipRoot homeUser ->
  deleteNode nm p fs = Some t ->
  kidsAt (skipRoot homeUser) t = kidsAt (skipRoot homeUser) fs.
Proof.
  intros Hs Hne Hd.
  destruct (deleteNode_mutateAt _ _ _ _ Hd) as [parent [cs [Hw [Hc Hm]]]].
  apply (kidsAt_mutateAt _ (skipRoot p) _ fs t (keepsName_withChildren _)
           (fun x => eq_refl) Hm).
  intros r n E _. exfalso.
  destruct (home_user_not_above p Hs) as [H1 H2].
  simpl in E. simpl in Hne.
  destruct (skipRoot p) as [|a [|b [|c q]]]; simpl in E.
  - apply H1. reflexivity.
  - injection E as <- _. apply H2. reflexivity.
  - injection E as <- <- _. apply Hne. reflexivity.
  - discriminate E.
Qed.

(** [rm] typed in the intake directory filters its children. *)
Lemma kidsAt_delete_here (nm : string) (p : Path) (fs t : FileNode) :
  skipRoot p = skipRoot homeUser ->
  deleteNode nm p fs = Some t ->
  exists ks,
    kidsAt (skipRoot homeUser) fs = Some ks /\
    kidsAt (skipRoot homeUser) t
    = Some (filter (fun k => negb (fst k =? nm)) ks).
Proof.
  intros Hp Hd.
  destruct (deleteNode_mutateAt _ _ _ _ Hd) as [parent [cs [Hw [Hc Hm]]]].
  rewrite Hp in *.
  destruct (walk_mutateAt_below _ _ _ _ (keepsName_withChildren _) Hm)
    as [n [Hw' Hr]].
  assert (n = parent) by congruence. subst n.
  specialize (Hr []). rewrite app_nil_r in Hr.
  unfold kidsAt. rewrite Hw, Hr, Hc. simpl.
  eexists. split; [reflexivity|]. f_equal.
  clear. induction cs as [|c cs IH]; simpl; [reflexivity|].
  destruct (name c =? nm); simpl; rewrite IH; reflexivity.
Qed.

(** The copy made by the evidence collection. *)
Lemma kidsAt_appendClone (node fs : FileNode) (ks : list (string * option bool)) :
  kidsAt (skipRoot homeUser) fs = Some ks ->
  kidsAt (skipRoot homeUser) (appendClone node fs)
  = Some (if existsb (fun k => fst k =? name node) ks then ks
          else ks ++ [(name node, Some false)]).
Proof.
  unfold kidsAt, appendClone. rewrite findNode_walk.
  generalize (skipRoot homeUser) (updateFileSystemNode_mutateAt homeUser).
  intros P HP.
  destruct (walk P fs) as [intake|] eqn:Ei; [|discriminate].
  destruct (children intake) as [cs|] eqn:Ec; [|discriminate].
  cbn [option_map]. intros [= <-].
  assert (Hex : existsb (fun k => fst k =? name node) (map tag cs)
                = match findChild (name node) cs with
                  | Some _ => true
                  | None => false
                  end).
  { unfold findChild. clear. induction cs as [|c cs IH]; simpl; [reflexivity|].
    destruct (name c =? name node); [reflexivity | exact IH]. }
  rewrite Hex.
  destruct (findChild (name node) cs) eqn:En.
  - rewrite Ei, Ec. reflexivity.
  - rewrite HP.
    destruct (mutateAt P _ fs) as [t|] eqn:Eu.
    + destruct (walk_mutateAt_below _ _ _ _
                  (keepsName_assign
                     (childrenPatch (cs ++ [assign node evidencePatch])) eq_refl) Eu)
        as [n [Hw Hr]].
      specialize (Hr []). rewrite app_nil_r in Hr. rewrite Hr.
      cbn [walk children assign childrenPatch override p_children option_map].
      rewrite map_app. reflexivity.
    + exfalso.
      destruct (mutateAt_some
                  (fun x => assign x (childrenPatch (cs ++ [assign node evidencePatch])))
                  _ _ _ Ei).
      congruence.
Qed.

End Intake.

Section CollectedOnce.

Local Open Scope list_scope.

Variable n : string.

Lemma countTag_app (ks ks' : list (string * option bool)) :
  countTag n (ks ++ ks') = countTag n ks + countTag n ks'.
Proof. unfold countTag. rewrite filter_app, length_app. reflexivity. Qed.

Lemma countTag_absent (ks : list (string * option bool)) :
  existsb (fun k => fst k =? n) ks = false -> countTag n ks = 0.
Proof.
  unfold countTag. induction ks as [|k ks IH]; simpl; [reflexivity|].
  destruct (fst k =? n); simpl; [discriminate | exact IH].
Qed.

Lemma countTag_present (ks : list (string * option bool)) :
  existsb (fun k => fst k =? n) ks = true -> 1 <= countTag n ks.
Proof.
  unfold countTag. induction ks as [|k ks IH]; simpl; [discriminate|].
  destruct (fst k =? n); simpl; [lia | exact IH].
Qed.

Lemma absent_not_In (ks : list (string * option bool)) (e : option bool) :
  existsb (fun k => fst k =? n) ks = false -> ~ In (n, e) ks.
Proof.
  intros H Hin.
  assert (existsb (fun k => fst k =? n) ks = true).
  { apply existsb_exists. exists (n, e). split; [exact Hin|].
    apply String.eqb_refl. }
  congruence.
Qed.

Lemma countTag_filter_le (g : string * option bool -> bool)
  (ks : list (string * option bool)) :
  countTag n (filter g ks) <= countTag n ks.
Proof.
  unfold countTag. induction ks as [|k ks IH]; simpl; [lia|].
  destruct (g k); simpl; destruct (fst k =? n); simpl; lia.
Qed.

Lemma countTag_filter_other (nm : string) (ks : list (string * option bool)) :
  n <> nm ->
  countTag n (filter (fun k => negb (fst k =? nm)) ks) = countTag n ks.
Proof.
  intro Hne. unfold countTag. induction ks as [|k ks IH]; simpl; [reflexivity|].
  destruct (String.eqb_spec (fst k) nm) as [E|E]; simpl.
  - rewrite E, (String_eqb_false nm n) by congruence. exact IH.
  - destruct (fst k =? n); simpl; rewrite IH; reflexivity.
Qed.

Lemma effect_collectedOnce x y :
  Effect x y -> collectedOnce n x -> collectedOnce n y.
Proof.
  intros [p patch fs t L Hpatch Hu | node fs L Hty Hhas | nm p fs t L Hp Hd];
    unfold collectedOnce; cbn [fst snd]; intros [Hnd [ks [Hk [Hle [Hev Hin]]]]].
  - split; [exact Hnd|]. exists ks.
    rewrite (kidsAt_patch p _ patch fs t Hpatch Hu). auto.
  - split; [apply NoDup_add; exact Hnd|].
    rewrite (kidsAt_appendClone node fs ks Hk).
    destruct (String.eqb_spec (name node) n) as [E|E].
    + rewrite E.
      destruct (existsb (fun k => fst k =? n) ks) eqn:Ex.
      * exists ks. repeat split; try assumption.
        intros _. apply countTag_present in Ex. lia.
      * exists (ks ++ [(n, Some false)]). split; [reflexivity|].
        rewrite countTag_app, (countTag_absent ks Ex).
        unfold countTag at 1 2. simpl. rewrite String.eqb_refl. simpl.
        repeat split; try lia.
        intros e He. apply in_app_or in He. destruct He as [He|[He|[]]].
        -- exfalso. exact (absent_not_In ks e Ex He).
        -- congruence.
    + assert (Hin' : In n (Js.add (name node) L) -> In n L).
      { intro H. apply In_add in H. destruct H as [H|H]; [exact H|congruence]. }
      destruct (existsb (fun k => fst k =? name node) ks).
      * exists ks. repeat split; auto.
      * exists (ks ++ [(name node, Some false)]). split; [reflexivity|].
        rewrite countTag_app. unfold countTag at 2 4. simpl.
        rewrite (String_eqb_false _ _ E). simpl. rewrite Nat.add_0_r.
        repeat split; auto.
        intros e He. apply in_app_or in He. destruct He as [He|[He|[]]].
        -- apply (Hev e He).
        -- congruence.
  - split; [apply NoDup_delete; exact Hnd|].
    destruct (list_eq_dec string_dec (skipRoot p) (skipRoot homeUser)) as [E|E].
    + destruct (kidsAt_delete_here nm p fs t E Hd) as [ks' [Hk' Hk'']].
      assert (ks' = ks) by congruence. subst ks'.
      eexists. split; [exact Hk''|].
      split; [pose proof (countTag_filter_le
                            (fun k => negb (fst k =? nm)) ks); lia|].
      split.
      * intros e He. apply filter_In in He. apply Hev. tauto.
      * intro H. apply In_delete in H. destruct H as [H Hne].
        rewrite countTag_filter_other by exact Hne. apply Hin. exact H.
    + exists ks. rewrite (kidsAt_delete_elsewhere nm p fs t Hp E Hd).
      repeat split; auto.
      intro H. apply In_delete in H. apply Hin. tauto.
Qed.

Lemma steps_collectedOnce (es : list Event) (a : App) :
  collectedOnce n (treeAndLedger a) -> collectedOnce n (treeAndLedger (steps es a)).
Proof.
  apply (effects_invariant (collectedOnce n) effect_collectedOnce).
  apply steps_effects.
Qed.

End CollectedOnce.

Section CollectedOnceNodes.

Local Open Scope list_scope.

Lemma countTag_nodes (n : string) (cs : list FileNode) :
  countTag n (map tag cs) = List.length (filter (fun c => name c =? n) cs).
Proof.
  unfold countTag. induction cs as [|c cs IH]; simpl; [reflexivity|].
  destruct (name c =? n); simpl; rewrite IH; reflexivity.
Qed.

Lemma collectedOnce_start (n : string) (fs intake : FileNode)
  (cs : list FileNode) (L : list string) :
  NoDup L -> ~ In n L ->
  findNode homeUser fs = Some intake -> children intake = Some cs ->
  ~ In n (map name cs) ->
  collectedOnce n (fs, L).
Proof.
  intros Hnd HL Hi Hc Hn. split; [exact Hnd|]. exists (map tag cs).
  rewrite findNode_walk in Hi. unfold kidsAt. cbn [fst snd]. rewrite Hi, Hc.
  split; [reflexivity|].
  assert (Hex : existsb (fun k => fst k =? n) (map tag cs) = false).
  { destruct (existsb _ (map tag cs)) eqn:E; [|reflexivity].
    exfalso. apply existsb_exists in E. destruct E as [k [Hk E]].
    apply String.eqb_eq in E. apply in_map_iff in Hk.
    destruct Hk as [c [<- Hc']]. apply Hn. apply in_map_iff.
    exists c. auto. }
  rewrite (countTag_absent n _ Hex).
  repeat split; try lia.
  - intros e He. exfalso. exact (absent_not_In n _ e Hex He).
  - intro H. contradiction.
Qed.

Lemma collectedOnce_nodes (n : string) (fs : FileNode) (L : list string) :
  collectedOnce n (fs, L) ->
  NoDup L /\ count_occ string_dec L n <= 1 /\
  exists intake cs,
    findNode homeUser fs = Some intake /\ children intake = Some cs /\
    List.length (filter (fun c => name c =? n) cs) <= 1 /\
    (In n L ->
       count_occ string_dec L n = 1 /\
       exists clone,
         filter (fun c => name c =? n) cs = [clone] /\
         isEvidence clone = Some false).
Proof.
  intros [Hnd [ks [Hk [Hle [Hev Hin]]]]]. cbn [fst snd] in *.
  pose proof (proj1 (NoDup_count_occ string_dec L) Hnd n) as Hc.
  split; [exact Hnd|]. split; [exact Hc|].
  unfold kidsAt in Hk. rewrite findNode_walk.
  destruct (walk (skipRoot homeUser) fs) as [intake|]; [|discriminate].
  destruct (children intake) as [cs|] eqn:Ecs; [|discriminate].
  cbn [option_map] in Hk. injection Hk as <-.
  rewrite countTag_nodes in *.
  exists intake, cs.
  split; [reflexivity|]. split; [exact Ecs|]. split; [exact Hle|].
  intro H. split.
  - pose proof (proj1 (count_occ_In string_dec L n) H). lia.
  - specialize (Hin H).
    destruct (filter (fun c => name c =? n) cs) as [|clone [|c' l]] eqn:Ef;
      try discriminate Hin.
    exists clone. split; [reflexivity|].
    assert (Hclone : In clone (filter (fun c => name c =? n) cs))
      by (rewrite Ef; left; reflexivity).
    apply filter_In in Hclone. destruct Hclone as [Hc' Hname].
    apply String.eqb_eq in Hname. apply Hev.
    rewrite <- Hname. change (name clone, isEvidence clone) with (tag clone).
    apply in_map. exact Hc'.
Qed.

Lemma collectEvidence_idempotent (node : FileNode) (x : FileNode * list string) :
  collectEvidence node (collectEvidence node x) = collectEvidence node x.
Proof.
  assert (H : Js.has (name node) (Js.add (name node) (snd x)) = true).
  { apply has_In. apply In_add. right. reflexivity. }
  unfold collectEvidence.
  destruct (Js.truthyB (isEvidence node) && negb (Js.has (name node) (snd x)))
    eqn:E; cbn [fst snd].
  - rewrite H, andb_false_r. reflexivity.
  - rewrite ?E. reflexivity.
Qed.

Lemma collectEvidence_first (node fs intake : FileNode) (cs : list FileNode)
  (L : list string) :
  Js.truthyB (isEvidence node) = true -> ~ In (name node) L ->
  findNode homeUser fs = Some intake -> children intake = Some cs ->
  ~ In (name node) (map name cs) ->
  exists fs' intake',
    collectEvidence node (fs, L) = (fs', Js.add (name node) L) /\
    findNode homeUser fs' = Some intake' /\
    children intake' = Some (cs ++ [assign node evidencePatch]) /\
    isEvidence (assign node evidencePatch) = Some false.
Proof.
  intros He HL Hi Hc Hn.
  unfold collectEvidence. cbn [fst snd].
  rewrite He, (proj2 (has_false _ _) HL). cbn [negb andb].
  unfold appendClone. rewrite Hi, Hc, (proj2 (findChild_none _ _) Hn).
  destruct (updateFileSystemNode homeUser _ fs) as [t|] eqn:Eu.
  - exists t.
    exists (assign intake (childrenPatch (cs ++ [assign node evidencePatch]))).
    split; [reflexivity|]. split; [|split; reflexivity].
    apply (findNode_mutateAt_self
             (fun x => assign x (childrenPatch (cs ++ [assign node evidencePatch])))
             homeUser fs t intake).
    + intro x. reflexivity.
    + exact Hi.
    + exact Eu.
  - exfalso. rewrite updateFileSystemNode_mutateAt in Eu.
    rewrite findNode_walk in Hi.
    destruct (mutateAt_some
                (fun x => assign x (childrenPatch (cs ++ [assign node evidencePatch])))
                _ _ _ Hi).
    congruence.
Qed.

End CollectedOnceNodes.

(** C4.  Collecting evidence is idempotent.
    - [collectEvidence], applied twice for the same node, does what it does
      applied once.
    - It is what [cat] does to the tree and the ledger for the visible FILE
      it shows, and what [search] does for the hidden FILE (without
      password or script) it reveals, on the revealed node and tree.
    - Collecting a name that is neither in the ledger nor in the intake
      directory appends to the intake directory the copy of the node with
      [isEvidence] false, and adds the name to the ledger.
    - Start from a state whose ledger has no duplicates and does not
      contain [n], and whose intake directory exists and has no child named
      [n].  After any events whatsoever the ledger has no duplicates, the
      intake directory exists and has at most one child named [n]; and
      whenever [n] is in the ledger, it is there once and the intake
      directory has exactly one child named [n], with [isEvidence] false. *)
Theorem evidence_collected_once :
  (forall node x,
     collectEvidence node (collectEvidence node x) = collectEvidence node x) /\
  (forall s cmdStr a0 rest f,
     a0 <> "" -> catLookup s a0 = Some f -> type f = FILE ->
     Js.truthyB (isHidden f) = false ->
     treeAndLedger (runCommand cmdStr "cat" (a0 :: rest) s)
     = collectEvidence f (treeAndLedger s)) /\
  (forall s cmdStr term rest found heap,
     term <> "" ->
     childOf (findNode (currentPath s) (fileSystem s)) term = Some found ->
     Js.truthyB (isHidden found) = true ->
     updateFileSystemNode (currentPath s ++ [term])%list revealPatch (fileSystem s)
     = Some heap ->
     Js.truthyS (password found) = false -> type found = FILE ->
     Js.truthyS (scriptAction found) = false ->
     treeAndLedger (runCommand cmdStr "search" (term :: rest) s)
     = collectEvidence (assign found revealPatch) (heap, evidenceCollected s)) /\
  (forall node fs intake cs L,
     Js.truthyB (isEvidence node) = true -> ~ In (name node) L ->
     findNode homeUser fs = Some intake -> children intake = Some cs ->
     ~ In (name node) (map name cs) ->
     exists fs' intake',
       collectEvidence node (fs, L) = (fs', Js.add (name node) L) /\
       findNode homeUser fs' = Some intake' /\
       children intake' = Some (cs ++ [assign node evidencePatch])%list /\
       isEvidence (assign node evidencePatch) = Some false) /\
  (forall n s es intake cs,
     NoDup (evidenceCollected s) -> ~ In n (evidenceCollected s) ->
     findNode homeUser (fileSystem s) = Some intake -> children intake = Some cs ->
     ~ In n (map name cs) ->
     let s' := steps es s in
     NoDup (evidenceCollected s') /\
     count_occ string_dec (evidenceCollected s') n <= 1 /\
     exists intake' cs',
       findNode homeUser (fileSystem s') = Some intake' /\
       children intake' = Some cs' /\
       List.length (filter (fun c => name c =? n) cs') <= 1 /\
       (In n (evidenceCollected s') ->
          count_occ string_dec (evidenceCollected s') n = 1 /\
          exists clone,
            filter (fun c => name c =? n) cs' = [clone] /\
            isEvidence clone = Some false)).
Proof.
  split; [exact collectEvidence_idempotent|].
  split; [|split; [|split; [exact collectEvidence_first|]]].
  - intros s cmdStr a0 rest f Ha0 Hf Hty Hh.
    rewrite run_cat, case_cat_treeAndLedger by reflexivity.
    rewrite arg0_cons, Hf, Hty, Hh, (String_eqb_false _ _ Ha0).
    unfold collectEvidence, treeAndLedger. simpl.
    destruct (Js.truthyB (isEvidence f)
              && negb (Js.has (name f) (evidenceCollected s))) eqn:E;
      rewrite ?E; reflexivity.
  - intros s cmdStr term rest found heap Ha Hf Hh Hu Hpw Hty Hsc.
    rewrite run_search, case_search_treeAndLedger by reflexivity.
    rewrite arg0_cons, Hf, Hh, (String_eqb_false _ _ Ha).
    rewrite (childOf_name _ _ _ Hf), Hu.
    cbn [negb andb].
    change (password (assign found revealPatch)) with (password found).
    change (type (assign found revealPatch)) with (type found).
    change (scriptAction (assign found revealPatch)) with (scriptAction found).
    rewrite Hpw, Hty, Hsc. unfold collectEvidence. cbn [fst snd negb andb FileType_eqb].
    reflexivity.
  - intros n s es intake cs Hnd HL Hi Hc Hn s'.
    apply (collectedOnce_nodes n (fileSystem s') (evidenceCollected s')).
    apply (steps_collectedOnce n es s).
    apply (collectedOnce_start n (fileSystem s) intake cs); assumption.
Qed.

Lemma evidence_collected_once_witness :
  let s' :=
    steps [Typed "cd data"; Typed "search secret.txt"; Typed "cat secret.txt";
           Typed "cat /data/secret.txt"; Typed "search secret.txt"]
      Demo.start in
  evidenceCollected s' = ["secret.txt"]
  /\ count_occ string_dec (evidenceCollected s') "secret.txt" = 1
  /\ exists intake' cs' clone,
       findNode homeUser (fileSystem s') = Some intake' /\
       children intake' = Some cs' /\
       filter (fun c => name c =? "secret.txt") cs' = [clone] /\
       isEvidence clone = Some false.
Proof.
  intro s'.
  destruct evidence_collected_once as [_ [_ [_ [_ H]]]].
  destruct (H "secret.txt" Demo.start
              [Typed "cd data"; Typed "search secret.txt"; Typed "cat secret.txt";
               Typed "cat /data/secret.txt"; Typed "search secret.txt"]
              (Demo.dir "user" []) [])
    as [_ [_ [intake' [cs' [Hi [Hc [_ Hin]]]]]]].
  - constructor.
  - intros [].
  - reflexivity.
  - reflexivity.
  - intros [].
  - fold s' in Hi, Hc, Hin.
    assert (Hmem : In "secret.txt" (evidenceCollected s'))
      by (vm_compute; left; reflexivity).
    destruct (Hin Hmem) as [Hcount [clone [Hf He]]].
    split; [vm_compute; reflexivity|]. split; [exact Hcount|].
    exists intake', cs', clone.
    split; [exact Hi|]. split; [exact Hc|]. split; [exact Hf | exact He].
Defined.

(* ================================================================= *)
(** ** Paths and their strings *)

Section PathStrings.

Local Open Scope string_scope.

Lemma append_empty_r (s : string) : s ++ "" = s.
Proof. induction s as [|c s IH]; simpl; [reflexivity | rewrite IH; reflexivity]. Qed.

Lemma append_assoc (a b c : string) : (a ++ b) ++ c = a ++ b ++ c.
Proof. induction a as [|x a IH]; simpl; [reflexivity | rewrite IH; reflexivity]. Qed.

Lemma plainName_head (x : string) :
  plainName x -> exists c x', x = String c x' /\ Ascii.eqb c "/" = false /\ slashFree x' = true.
Proof.
  intros [Hne Hs]. destruct x as [|c x']; [contradiction|].
  simpl in Hs. apply andb_prop in Hs. destruct Hs as [Hc Hs].
  exists c, x'. split; [reflexivity|]. split; [|exact Hs].
  apply negb_true_iff. exact Hc.
Qed.

Lemma join_slashJoin (parts : list string) :
  parts <> [] -> "/" ++ Js.join "/" parts = slashJoin parts.
Proof.
  unfold Js.join. induction parts as [|x [|y rest] IH]; intro H.
  - contradiction.
  - simpl. rewrite append_empty_r. reflexivity.
  - change (String.concat "/" (x :: y :: rest))
      with (x ++ "/" ++ String.concat "/" (y :: rest)).
    change (slashJoin (x :: y :: rest)) with ("/" ++ x ++ slashJoin (y :: rest)).
    rewrite <- IH by discriminate. reflexivity.
Qed.

Lemma startsWith_dslash (c : ascii) (r : string) :
  Ascii.eqb c "/" = false -> Js.startsWith "//" (String c r) = false.
Proof.
  intro H.
  change (Js.startsWith "//" (String c r))
    with (Ascii.eqb "/" c && Js.startsWith "/" r).
  rewrite Ascii.eqb_sym, H. reflexivity.
Qed.

Lemma startsWith_slash_dslash (c : ascii) (r : string) :
  Ascii.eqb c "/" = false -> Js.startsWith "//" (String "/" (String c r)) = false.
Proof.
  intro H.
  change (Js.startsWith "//" (String "/" (String c r)))
    with (Ascii.eqb "/" "/" && (Ascii.eqb "/" c && Js.startsWith "" r)).
  rewrite (Ascii.eqb_sym "/" c), H. reflexivity.
Qed.

(** The first occurrence of "//" is replaced: there is none after a name. *)
Lemma replace_slashFree (x t : string) :
  slashFree x = true ->
  Js.replace "//" "/" (x ++ t) = x ++ Js.replace "//" "/" t.
Proof.
  induction x as [|c x IH]; intro H; [reflexivity|].
  simpl in H. apply andb_prop in H. destruct H as [Hc Hx].
  apply negb_true_iff in Hc.
  change (String c x ++ t) with (String c (x ++ t)).
  unfold Js.replace at 1. fold Js.replace.
  rewrite (startsWith_dslash _ _ Hc), IH by exact Hx. reflexivity.
Qed.

Lemma replace_slashJoin (parts : list string) :
  Forall plainName parts ->
  Js.replace "//" "/" (slashJoin parts) = slashJoin parts.
Proof.
  induction 1 as [|x rest Hx _ IH]; [reflexivity|].
  destruct (plainName_head x Hx) as [c [x' [-> [Hc Hx']]]].
  change (slashJoin (String c x' :: rest))
    with (String "/" (String c (x' ++ slashJoin rest))).
  unfold Js.replace at 1. fold Js.replace.
  rewrite (startsWith_slash_dslash _ _ Hc). f_equal.
  unfold Js.replace at 1. fold Js.replace.
  rewrite (startsWith_dslash _ _ Hc). f_equal.
  rewrite replace_slashFree by exact Hx'. rewrite IH. reflexivity.
Qed.

(** The printed form of a rooted path of plain names. *)
Lemma getPathString_plain (parts : list string) :
  Forall plainName parts ->
  getPathString ("" :: parts) = match parts with [] => "/" | _ => slashJoin parts end.
Proof.
  intro H. unfold getPathString. destruct parts as [|x rest]; [reflexivity|].
  simpl Nat.eqb. cbv iota.
  change (Js.join "/" ("" :: x :: rest)) with ("/" ++ Js.join "/" (x :: rest)).
  rewrite join_slashJoin by discriminate.
  apply replace_slashJoin. exact H.
Qed.

Lemma currentPathStr_plain (parts : list string) :
  currentPathStr ("" :: parts) = match parts with [] => "/" | _ => slashJoin parts end.
Proof.
  unfold currentPathStr. destruct parts as [|x rest]; [reflexivity|].
  simpl Nat.eqb. cbv iota. simpl tl. apply join_slashJoin. discriminate.
Qed.

Lemma slashJoin_snoc (parts : list string) (x : string) :
  slashJoin (parts ++ [x]) = slashJoin parts ++ "/" ++ x.
Proof.
  induction parts as [|y rest IH]; simpl.
  - rewrite append_empty_r. reflexivity.
  - rewrite IH, append_assoc. reflexivity.
Qed.

Lemma slashJoin_not_root (x : string) (rest : list string) :
  plainName x -> (slashJoin (x :: rest) =? "/") = false.
Proof.
  intro Hx. destruct (plainName_head x Hx) as [c [x' [-> _]]]. reflexivity.
Qed.

(** The panel builds the same string, one name after the other. *)
Lemma rowPath_plain (parts : list string) :
  Forall plainName parts ->
  rowPath parts = match parts with [] => "/" | _ => slashJoin parts end.
Proof.
  unfold rowPath. induction parts as [|x rest IH] using rev_ind; intro H;
    [reflexivity|].
  apply Forall_app in H. destruct H as [Hrest Hx].
  rewrite fold_left_app. simpl fold_left. rewrite (IH Hrest).
  rewrite slashJoin_snoc.
  destruct rest as [|y rest']; simpl app.
  - reflexivity.
  - unfold childPath. inversion Hrest as [|? ? Hy _]; subst.
    rewrite (slashJoin_not_root y rest' Hy). reflexivity.
Qed.

Lemma split_nonempty (sep : ascii) (s : string) : Js.split sep s <> [].
Proof.
  destruct s as [|c s]; simpl; [discriminate|].
  destruct (Ascii.eqb c sep); [discriminate|].
  destruct (Js.split sep s); discriminate.
Qed.

Lemma split_slashFree (x t : string) (w : string) (ws : list string) :
  slashFree x = true -> Js.split "/" t = w :: ws ->
  Js.split "/" (x ++ t) = (x ++ w) :: ws.
Proof.
  intros Hx Ht. induction x as [|c x IH]; [exact Ht|].
  simpl in Hx. apply andb_prop in Hx. destruct Hx as [Hc Hx].
  apply negb_true_iff in Hc. simpl. rewrite Hc, (IH Hx). reflexivity.
Qed.

Lemma split_slashJoin (parts : list string) :
  Forall plainName parts ->
  Js.split "/" (slashJoin parts) = match parts with [] => [""] | _ => "" :: parts end.
Proof.
  induction 1 as [|x rest Hx Hrest IH]; [reflexivity|].
  change (Js.split "/" (slashJoin (x :: rest)))
    with ("" :: Js.split "/" (x ++ slashJoin rest)).
  f_equal. destruct Hx as [_ Hx].
  destruct rest as [|y rest'].
  - change (slashJoin []) with "".
    rewrite (split_slashFree x "" "" [] Hx eq_refl), append_empty_r. reflexivity.
  - rewrite (split_slashFree x _ "" (y :: rest') Hx IH), append_empty_r. reflexivity.
Qed.

Lemma filter_plain (parts : list string) :
  Forall plainName parts -> filter (fun p => negb (p =? "")) parts = parts.
Proof.
  induction 1 as [|x rest [Hx _] _ IH]; [reflexivity|].
  simpl. rewrite (String_eqb_false _ _ Hx), IH. reflexivity.
Qed.

Lemma split_printed (x : string) (rest : list string) :
  Forall plainName (x :: rest) ->
  filter (fun p => negb (p =? "")) (Js.split "/" (slashJoin (x :: rest)))
  = x :: rest.
Proof.
  intro H. rewrite split_slashJoin by exact H.
  change (filter (fun p => negb (p =? "")) ("" :: x :: rest))
    with (filter (fun p => negb (p =? "")) (x :: rest)).
  apply filter_plain. exact H.
Qed.

Lemma resolvePath_plain (parts : list string) (cp : Path) :
  Forall plainName parts ->
  resolvePath (match parts with [] => "/" | _ => slashJoin parts end) cp
  = Some ("" :: parts).
Proof.
  intro H. destruct parts as [|x rest]; [reflexivity|].
  pose proof (slashJoin_not_root x rest (Forall_inv H)) as Hroot.
  unfold resolvePath. rewrite Hroot.
  change (slashJoin (x :: rest)) with (String "/" (x ++ slashJoin rest)) at 1 2.
  simpl String.eqb. cbv iota.
  change (Js.startsWith "/" (String "/" (x ++ slashJoin rest))) with true.
  cbv iota.
  change (String "/" (x ++ slashJoin rest)) with (slashJoin (x :: rest)).
  rewrite (split_printed x rest H). reflexivity.
Qed.

Lemma navigate_plain (parts : list string) (a : App) :
  Forall plainName parts ->
  handleTreeNavigate (match parts with [] => "/" | _ => slashJoin parts end) a
  = setCurrentPath ("" :: parts) a.
Proof.
  intro H. destruct parts as [|x rest]; [reflexivity|].
  pose proof (slashJoin_not_root x rest (Forall_inv H)) as Hroot.
  unfold handleTreeNavigate. rewrite Hroot.
  change (slashJoin (x :: rest) =? "") with false. simpl orb. cbv iota.
  rewrite (split_printed x rest H). reflexivity.
Qed.

End PathStrings.

(** X14.  The path strings of the panel are those of the prompt.  For a rooted
    path of plain names (not empty, no slash) the string under which the
    panel highlights the current directory, the string it computes for the
    row reached by these names, and the string [getPathString] prints are
    one and the same; so [ls], which records the printed path, opens the
    row of the directory it is typed in. *)
Theorem panel_and_prompt_agree (parts : list string) :
  Forall plainName parts ->
  let p := "" :: parts in
  currentPathStr p = getPathString p /\
  rowPath parts = getPathString p /\
  forall s cmdStr args,
    currentPath s = p ->
    isA DIRECTORY (findNode p (fileSystem s)) = true ->
    Js.has (rowPath parts) (discoveredPaths (runCommand cmdStr "ls" args s)) = true.
Proof.
  intros H p. subst p.
  assert (E1 : currentPathStr ("" :: parts) = getPathString ("" :: parts)).
  { rewrite currentPathStr_plain, getPathString_plain by exact H. reflexivity. }
  assert (E2 : rowPath parts = getPathString ("" :: parts)).
  { rewrite rowPath_plain, getPathString_plain by exact H. reflexivity. }
  split; [exact E1|]. split; [exact E2|].
  intros s cmdStr args Hp Hd. unfold runCommand.
  rewrite dispatch_discoveredPaths. rewrite Hp, Hd. simpl.
  rewrite E2. apply has_In. apply In_add. right. reflexivity.
Qed.

Lemma panel_and_prompt_agree_witness :
  currentPathStr [""; "data"; "vault"] = "/data/vault" /\
  getPathString [""; "data"; "vault"] = "/data/vault" /\
  rowPath ["data"; "vault"] = "/data/vault".
Proof.
  destruct (panel_and_prompt_agree ["data"; "vault"]) as [E1 [E2 _]].
  - repeat constructor; discriminate.
  - split; [rewrite E1; reflexivity|]. split; [reflexivity|].
    rewrite E2. reflexivity.
Defined.

(** X2.  The printed path is read back.  For a rooted path of plain names, the
    string [getPathString] prints resolves, as the argument of [cd] or
    [cat] and from any current path, to that very path; and a click on the
    row that carries this string makes it the current path. *)
Theorem printed_path_round_trip (parts : list string) (cp : Path) (a : App) :
  Forall plainName parts ->
  resolvePath (getPathString ("" :: parts)) cp = Some ("" :: parts) /\
  handleTreeNavigate (getPathString ("" :: parts)) a
  = setCurrentPath ("" :: parts) a.
Proof.
  intro H. rewrite getPathString_plain by exact H.
  split; [apply resolvePath_plain | apply navigate_plain]; exact H.
Qed.

Lemma printed_path_round_trip_witness :
  resolvePath "/data/vault" [""; "home"; "user"] = Some [""; "data"; "vault"] /\
  currentPath (handleTreeNavigate "/data/vault" Demo.start) = [""; "data"; "vault"].
Proof.
  destruct (printed_path_round_trip ["data"; "vault"] [""; "home"; "user"] Demo.start)
    as [E1 E2].
  - repeat constructor; discriminate.
  - split; [exact E1|]. exact (f_equal currentPath E2).
Defined.

(* ================================================================= *)
(** ** The file tree panel *)

Section Panel.

Local Open Scope list_scope.

(** Induction on a node, with the property at hand for its children. *)
Lemma FileNode_children_ind (P : FileNode -> Prop) :
  (forall n, (forall cs, children n = Some cs -> Forall P cs) -> P n) ->
  forall n, P n.
Proof.
  intro H. fix IH 1. intros [nm ty ct cs hi pw lk ev sa].
  apply H. simpl. intros cs' E. destruct cs as [l|]; [|discriminate].
  injection E as <-. induction l as [|c l IHl]; constructor; [apply IH | exact IHl].
Qed.

Variables (cur : string) (dp : list string).

Lemma FileTreeNode_eq (n : FileNode) (path : string) (level : nat) :
  FileTreeNode cur dp n path level
  = mkRow n path level (path =? cur) (Js.has path dp || (path =? "/")) ::
    match type n, children n with
    | DIRECTORY, Some cs =>
        if Js.has path dp || (path =? "/") then
          flat_map
            (fun child =>
               if Js.truthyB (isHidden child) then []
               else FileTreeNode cur dp child (childPath path (name child)) (S level))
            cs
        else []
    | _, _ => []
    end.
Proof. destruct n; reflexivity. Qed.

Lemma rows_flags (n : FileNode) :
  forall path level r,
    In r (FileTreeNode cur dp n path level) ->
    row_isCurrent r = (row_path r =? cur) /\
    row_isDiscovered r = (Js.has (row_path r) dp || (row_path r =? "/")).
Proof.
  induction n as [n IH] using FileNode_children_ind.
  intros path level r Hin. rewrite FileTreeNode_eq in Hin.
  destruct Hin as [<-|Hin]; [split; reflexivity|].
  destruct (type n); [destruct Hin|].
  destruct (children n) as [cs|] eqn:Ecs; [|destruct Hin].
  destruct (Js.has path dp || (path =? "/")); [|destruct Hin].
  apply in_flat_map in Hin. destruct Hin as [c [Hc Hin]].
  destruct (Js.truthyB (isHidden c)); [destruct Hin|].
  specialize (IH cs eq_refl). rewrite Forall_forall in IH.
  apply (IH c Hc _ _ r Hin).
Qed.

Lemma rows_below (n : FileNode) :
  forall path level r,
    In r (FileTreeNode cur dp n path level) ->
    (row_node r = n /\ row_path r = path /\ row_level r = level) \/
    exists parent cs,
      In parent (FileTreeNode cur dp n path level) /\
      type (row_node parent) = DIRECTORY /\
      children (row_node parent) = Some cs /\ In (row_node r) cs /\
      (Js.has (row_path parent) dp = true \/ row_path parent = "/") /\
      Js.truthyB (isHidden (row_node r)) = false /\
      row_path r = childPath (row_path parent) (name (row_node r)) /\
      row_level r = S (row_level parent).
Proof.
  induction n as [n IH] using FileNode_children_ind.
  intros path level r Hin.
  pose proof Hin as Hin0. rewrite FileTreeNode_eq in Hin.
  destruct Hin as [<-|Hin]; [left; auto|]. right.
  destruct (type n) eqn:Ety; [destruct Hin|].
  destruct (children n) as [cs|] eqn:Ecs; [|destruct Hin].
  destruct (Js.has path dp || (path =? "/")) eqn:Ed; [|destruct Hin].
  apply in_flat_map in Hin. destruct Hin as [c [Hc Hin]].
  destruct (Js.truthyB (isHidden c)) eqn:Eh; [destruct Hin|].
  specialize (IH cs eq_refl). rewrite Forall_forall in IH.
  destruct (IH c Hc _ _ r Hin) as [[E1 [E2 E3]]|[parent [cs' [Hp Hb]]]].
  - exists (mkRow n path level (path =? cur) (Js.has path dp || (path =? "/"))), cs.
    split; [rewrite FileTreeNode_eq; left; reflexivity|].
    simpl. rewrite E1, E2, E3.
    repeat split; try assumption.
    apply orb_prop in Ed. destruct Ed as [Ed|Ed]; [left; exact Ed|].
    right. apply String.eqb_eq. exact Ed.
  - exists parent, cs'. split; [|exact Hb].
    rewrite FileTreeNode_eq. right. rewrite Ety, Ecs, Ed.
    apply in_flat_map. exists c. split; [exact Hc|]. rewrite Eh. exact Hp.
Qed.

Lemma findChild_NoDup (cs : list FileNode) (c : FileNode) :
  NoDup (map name cs) -> In c cs -> findChild (name c) cs = Some c.
Proof.
  unfold findChild. induction cs as [|d cs IH]; intros Hnd Hin; [destruct Hin|].
  simpl in Hnd. inversion Hnd as [|? ? Hnot Hnd']; subst.
  simpl. destruct Hin as [->|Hin].
  - rewrite String.eqb_refl. reflexivity.
  - destruct (String.eqb_spec (name d) (name c)) as [E|E].
    + exfalso. apply Hnot. rewrite E. apply in_map. exact Hin.
    + apply IH; assumption.
Qed.

Lemma distinct_NoDup (l : list string) : distinct l = true -> NoDup l.
Proof.
  induction l as [|x l IH]; simpl; intro H; constructor.
  - apply andb_prop in H. destruct H as [H _].
    apply negb_true_iff in H. intro Hin. apply has_In in Hin. congruence.
  - apply IH. apply andb_prop in H. tauto.
Qed.

Lemma namedOk_eq (n : FileNode) :
  namedOk n
  = match children n with
    | Some cs =>
        distinct (map name cs)
        && forallb (fun c => negb (name c =? "") && slashFree (name c) && namedOk c) cs
    | None => true
    end.
Proof. destruct n; reflexivity. Qed.

Lemma namedOk_walk (p : Path) :
  forall n m, namedOk n = true -> walk p n = Some m -> namedOk m = true.
Proof.
  induction p as [|a p IH]; intros n m Hn Hw; simpl in Hw.
  - congruence.
  - destruct (type n); [discriminate|].
    destruct (children n) as [cs|] eqn:Ecs; [|discriminate].
    destruct (findChild a cs) as [c|] eqn:Ec; [|discriminate].
    apply (IH c m); [|exact Hw].
    rewrite namedOk_eq, Ecs in Hn. apply andb_prop in Hn. destruct Hn as [_ Hn].
    rewrite forallb_forall in Hn. specialize (Hn c (findChild_In _ _ _ Ec)).
    apply andb_prop in Hn. tauto.
Qed.

(** The test is sound. *)
Lemma namedOk_wellNamed (root : FileNode) : namedOk root = true -> wellNamed root.
Proof.
  intros H p n cs Hw _ Hcs.
  pose proof (namedOk_walk p root n H Hw) as Hn.
  rewrite namedOk_eq, Hcs in Hn. apply andb_prop in Hn. destruct Hn as [Hd Hn].
  split; [apply distinct_NoDup; exact Hd|].
  apply Forall_forall. intros c Hc. rewrite forallb_forall in Hn.
  specialize (Hn c Hc). apply andb_prop in Hn. destruct Hn as [Hn _].
  apply andb_prop in Hn. destruct Hn as [Hne Hs]. split; [|exact Hs].
  apply negb_true_iff, String.eqb_neq in Hne. exact Hne.
Qed.

Variable root : FileNode.
Hypothesis named : wellNamed root.

(** In a tree of distinct plain names every row is the node its own path
    string leads to. *)
Lemma rows_reach (n : FileNode) :
  forall parts level r,
    walk parts root = Some n -> Forall plainName parts ->
    In r (FileTreeNode cur dp n
            (match parts with [] => "/" | _ => slashJoin parts end) level) ->
    exists q,
      walk q root = Some (row_node r) /\ Forall plainName q /\
      row_path r = match q with [] => "/" | _ => slashJoin q end.
Proof.
  induction n as [n IH] using FileNode_children_ind.
  intros parts level r Hw Hplain Hin. rewrite FileTreeNode_eq in Hin.
  destruct Hin as [<-|Hin]; [exists parts; auto|].
  destruct (type n) eqn:Ety; [destruct Hin|].
  destruct (children n) as [cs|] eqn:Ecs; [|destruct Hin].
  destruct (Js.has _ dp || _); [|destruct Hin].
  apply in_flat_map in Hin. destruct Hin as [c [Hc Hin]].
  destruct (Js.truthyB (isHidden c)); [destruct Hin|].
  destruct (named parts n cs Hw Ety Ecs) as [Hnd Hnames].
  rewrite Forall_forall in Hnames. pose proof (Hnames c Hc) as Hcname.
  specialize (IH cs eq_refl). rewrite Forall_forall in IH.
  apply (IH c Hc (parts ++ [name c]) (S level) r).
  - rewrite walk_app, Hw. simpl. rewrite Ety, Ecs.
    rewrite (findChild_NoDup cs c Hnd Hc). reflexivity.
  - apply Forall_app. split; [exact Hplain|]. constructor; [exact Hcname | constructor].
  - replace (match parts ++ [name c] with
             | [] => "/"
             | _ :: _ => slashJoin (parts ++ [name c])
             end)
      with (childPath (match parts with [] => "/" | _ => slashJoin parts end)
              (name c)); [exact Hin|].
    destruct parts as [|x rest].
    + simpl. rewrite append_empty_r. reflexivity.
    + unfold childPath.
      rewrite (slashJoin_not_root x rest (Forall_inv Hplain)).
      change ((x :: rest) ++ [name c]) with (x :: (rest ++ [name c])).
      cbv iota. rewrite <- slashJoin_snoc. reflexivity.
Qed.

End Panel.

(** X15.  The panel draws a node only below an opened directory.  Every row of
    the panel other than the root's is a child, not hidden, of a node that
    has a row itself, is a DIRECTORY, and whose path string is in the set
    of discovered paths or is "/"; the row's path string is the parent's
    extended by the child's name and it is drawn one level deeper.  A row
    is highlighted when its path string is that of the current path, and
    it is opened when its path string is discovered or is "/". *)
Theorem panel_draws_opened_children (root : FileNode) (cp : Path)
  (dp : list string) (r : Row) :
  In r (FileTree root cp dp) ->
  (row_isCurrent r = (row_path r =? currentPathStr cp) /\
   row_isDiscovered r = (Js.has (row_path r) dp || (row_path r =? "/"))) /\
  ((row_node r = root /\ row_path r = "/" /\ row_level r = 0) \/
   exists parent cs,
     In parent (FileTree root cp dp) /\
     type (row_node parent) = DIRECTORY /\
     children (row_node parent) = Some cs /\ In (row_node r) cs /\
     (Js.has (row_path parent) dp = true \/ row_path parent = "/") /\
     Js.truthyB (isHidden (row_node r)) = false /\
     row_path r = childPath (row_path parent) (name (row_node r)) /\
     row_level r = S (row_level parent)).
Proof.
  unfold FileTree. intro Hin. split.
  - apply (rows_flags _ _ _ _ _ _ Hin).
  - apply (rows_below _ _ _ _ _ _ Hin).
Qed.

Lemma panel_draws_opened_children_witness :
  let listed := Demo.run ["cd data"; "ls"] Demo.start in
  let vault := Demo.locked "open" (Demo.dir "vault" [Demo.file "note.txt" "note"]) in
  let r := mkRow vault "/data/vault" 2 false false in
  In r (sidebar listed) /\
  exists parent cs,
    In parent (sidebar listed) /\
    children (row_node parent) = Some cs /\ In vault cs /\
    (Js.has (row_path parent) (discoveredPaths listed) = true \/ row_path parent = "/").
Proof.
  intros listed vault r.
  assert (Hin : In r (sidebar listed)).
  { vm_compute. do 11 right. left. reflexivity. }
  split; [exact Hin|].
  destruct (panel_draws_opened_children _ _ _ r Hin) as [_ [[H _]|H]].
  - vm_compute in H. discriminate H.
  - destruct H as [parent [cs [Hp [_ [Hcs [Hc [Hd _]]]]]]].
    exists parent, cs. split; [exact Hp|]. split; [exact Hcs|].
    split; [exact Hc | exact Hd].
Defined.

(** X16.  A double click enters the row that is clicked.  In a tree of distinct
    plain names, a double click on the row of a DIRECTORY that is opened
    makes that directory the current one: the new current path leads to
    the node of the row and prints as the path string of the row; nothing
    else changes.  On any other row a double click does nothing. *)
Theorem double_click_enters_the_row (a : App) (r : Row) :
  wellNamed (fileSystem a) ->
  In r (sidebar a) ->
  (type (row_node r) = DIRECTORY -> row_isDiscovered r = true ->
     exists p,
       handleDoubleClick r a = setCurrentPath p a /\
       findNode p (fileSystem a) = Some (row_node r) /\
       getPathString p = row_path r) /\
  (type (row_node r) = FILE \/ row_isDiscovered r = false ->
     handleDoubleClick r a = a).
Proof.
  intros Hnamed Hin. split.
  - intros Hty Hd.
    destruct (rows_reach _ _ _ Hnamed (fileSystem a) [] 0 r eq_refl
                (Forall_nil _) Hin) as [q [Hw [Hq Hpath]]].
    exists ("" :: q). unfold handleDoubleClick. rewrite Hty, Hd. simpl andb.
    cbv iota. rewrite Hpath.
    split; [apply navigate_plain; exact Hq|].
    split; [rewrite findNode_walk; exact Hw|].
    apply getPathString_plain. exact Hq.
  - unfold handleDoubleClick. intros [H|H]; rewrite H; [reflexivity|].
    rewrite andb_false_r. reflexivity.
Qed.

Lemma double_click_enters_the_row_witness :
  let listed := Demo.run ["cd data"; "ls"; "cd /"] Demo.start in
  exists data,
    findNode [""; "data"] (fileSystem listed) = Some data /\
    let row := mkRow data "/data" 1 false true in
    In row (sidebar listed) /\
    exists p,
      handleDoubleClick row listed = setCurrentPath p listed /\
      findNode p (fileSystem listed) = Some data /\
      getPathString p = "/data".
Proof.
  intro listed.
  destruct (findNode [""; "data"] (fileSystem listed)) as [data|] eqn:Ed;
    [|vm_compute in Ed; discriminate Ed].
  exists data. split; [reflexivity|].
  assert (Ed' := Ed). vm_compute in Ed'. injection Ed' as Hd.
  assert (Hin : In (mkRow data "/data" 1 false true) (sidebar listed)).
  { rewrite <- Hd. vm_compute. do 2 right. left. reflexivity. }
  split; [exact Hin|].
  destruct (double_click_enters_the_row listed (mkRow data "/data" 1 false true))
    as [H _].
  - apply namedOk_wellNamed. vm_compute. reflexivity.
  - exact Hin.
  - apply H; [rewrite <- Hd; reflexivity | reflexivity].
Defined.

(* ================================================================= *)
(** ** What ls lists and what the panel draws *)

Section Listing.

Local Open Scope list_scope.

Variables (cur : string) (dp : list string).

Lemma rows_level (n : FileNode) :
  forall path level r,
    In r (FileTreeNode cur dp n path level) -> level <= row_level r.
Proof.
  induction n as [n IH] using FileNode_children_ind.
  intros path level r Hin. rewrite FileTreeNode_eq in Hin.
  destruct Hin as [<-|Hin]; [simpl; lia|].
  destruct (type n); [destruct Hin|].
  destruct (children n) as [cs|] eqn:Ecs; [|destruct Hin].
  destruct (Js.has path dp || (path =? "/")); [|destruct Hin].
  apply in_flat_map in Hin. destruct Hin as [c [Hc Hin]].
  destruct (Js.truthyB (isHidden c)); [destruct Hin|].
  specialize (IH cs eq_refl). rewrite Forall_forall in IH.
  pose proof (IH c Hc _ _ r Hin). lia.
Qed.

Lemma filter_none {A} (f : A -> bool) (l : list A) :
  (forall x, In x l -> f x = false) -> filter f l = [].
Proof.
  induction l as [|x l IH]; intro H; simpl; [reflexivity|].
  rewrite (H x) by (left; reflexivity). apply IH.
  intros y Hy. apply H. right. exact Hy.
Qed.

(** Of the rows of a node, the one at its own level is its own. *)
Lemma rows_at_level (n : FileNode) (path : string) (level : nat) :
  map row_node
    (filter (fun r => Nat.eqb (row_level r) level) (FileTreeNode cur dp n path level))
  = [n].
Proof.
  rewrite FileTreeNode_eq. simpl. rewrite Nat.eqb_refl. simpl. f_equal.
  rewrite filter_none; [reflexivity|].
  intros r Hin. apply Nat.eqb_neq.
  destruct (type n); [destruct Hin|].
  destruct (children n) as [cs|]; [|destruct Hin].
  destruct (Js.has path dp || (path =? "/")); [|destruct Hin].
  apply in_flat_map in Hin. destruct Hin as [c [_ Hin]].
  destruct (Js.truthyB (isHidden c)); [destruct Hin|].
  apply rows_level in Hin. lia.
Qed.

Lemma filter_flat_map {A B} (f : B -> bool) (g : A -> list B) (l : list A) :
  filter f (flat_map g l) = flat_map (fun x => filter f (g x)) l.
Proof.
  induction l as [|x l IH]; simpl; [reflexivity|].
  rewrite filter_app, IH. reflexivity.
Qed.

(** The rows one level below an opened directory are its children that
    are not hidden, in their order. *)
Lemma rows_below_opened (d : FileNode) (cs : list FileNode) (path : string)
  (level : nat) :
  type d = DIRECTORY -> children d = Some cs ->
  Js.has path dp || (path =? "/") = true ->
  map row_node
    (filter (fun r => Nat.eqb (row_level r) (S level))
       (FileTreeNode cur dp d path level))
  = filter (fun c => negb (Js.truthyB (isHidden c))) cs.
Proof.
  intros Hty Hcs Hd. rewrite FileTreeNode_eq, Hty, Hcs, Hd.
  simpl filter at 1.
  assert (E : Nat.eqb level (S level) = false) by (apply Nat.eqb_neq; lia).
  rewrite E. rewrite filter_flat_map.
  induction cs as [|c cs' IH] in |- *; [reflexivity|].
  simpl. rewrite map_app.
  destruct (Js.truthyB (isHidden c)); simpl.
  - exact IH.
  - rewrite rows_at_level. simpl. f_equal. exact IH.
Qed.

End Listing.

(** X17.  [ls] lists what the panel then draws.  Typed in a directory (at a
    rooted path of plain names), [ls] prints one line: the names of the
    children that are not hidden, in their order, one per row and the
    directories marked, or the empty-directory notice when there is none;
    it changes neither the tree nor the current path.  From then on the
    panel, where it draws this directory under the path string of its
    names, draws below it exactly these children, in the same order. *)
Theorem ls_and_panel_show_the_same (s : App) (cmdStr : string) (args : list string)
  (parts : list string) (d : FileNode) (cs : list FileNode) :
  Forall plainName parts ->
  currentPath s = "" :: parts ->
  findNode ("" :: parts) (fileSystem s) = Some d ->
  type d = DIRECTORY -> children d = Some cs ->
  let visible := filter (fun c => negb (Js.truthyB (isHidden c))) cs in
  let listing :=
    map (fun c => match type c with
                  | DIRECTORY => "[DIR] " ++ name c
                  | FILE => name c
                  end) visible in
  let r := runCommand cmdStr "ls" args s in
  history r
  = (history s ++
     [mkLine input cmdStr (Some (getPathString (currentPath s)));
      mkLine output (match listing with
                     | [] => msgEmptyDir
                     | _ => Js.join newline listing
                     end) None])%list /\
  fileSystem r = fileSystem s /\ currentPath r = currentPath s /\
  forall level,
    map row_node
      (filter (fun row => Nat.eqb (row_level row) (S level))
         (FileTreeNode (currentPathStr (currentPath r)) (discoveredPaths r) d
            (rowPath parts) level))
    = visible.
Proof.
  intros Hplain Hcp Hd Hty Hcs visible listing r.
  assert (E : r = addToHistory s output
                    (match listing with
                     | [] => msgEmptyDir
                     | _ => Js.join newline listing
                     end)
                    (setDiscoveredPaths (Js.add (getPathString (currentPath s)))
                       (addToHistory s input cmdStr s))).
  { subst r. rewrite run_ls. unfold case_ls. rewrite Hcp, Hd, Hty, Hcs.
    cbv zeta. simpl option_map. fold visible. subst listing.
    destruct (map _ visible); reflexivity. }
  split; [rewrite E; simpl; rewrite <- app_assoc; reflexivity|].
  split; [rewrite E; reflexivity|]. split; [rewrite E; reflexivity|].
  intro level. apply rows_below_opened; [exact Hty | exact Hcs|].
  apply orb_true_iff. left. rewrite E. simpl discoveredPaths.
  rewrite Hcp, rowPath_plain, <- getPathString_plain by exact Hplain.
  apply has_In. apply In_add. right. reflexivity.
Qed.

Lemma ls_and_panel_show_the_same_witness :
  let inData := Demo.run ["cd data"] Demo.start in
  let r := runCommand "ls" "ls" [] inData in
  exists d,
    findNode [""; "data"] (fileSystem inData) = Some d /\
    map (fun row => name (row_node row))
      (filter (fun row => Nat.eqb (row_level row) 2)
         (FileTreeNode (currentPathStr (currentPath r)) (discoveredPaths r) d
            "/data" 1))
    = ["证据_1.txt"; "陈冰-刘青原"; "证据_3.txt"; "证据_4.txt"; "证据_5.txt";
       "证据_6.txt"; "证据_7.txt"; "证据_8.txt"; "vault"; "locked.txt"].
Proof.
  intros inData r.
  destruct (findNode [""; "data"] (fileSystem inData)) as [d|] eqn:Ed;
    [|vm_compute in Ed; discriminate Ed].
  exists d. split; [reflexivity|].
  assert (Ed' := Ed). vm_compute in Ed'. injection Ed' as Hd.
  destruct (ls_and_panel_show_the_same inData "ls" [] ["data"] d
              (match children d with Some cs => cs | None => [] end))
    as [_ [_ [_ H]]].
  - repeat constructor; discriminate.
  - reflexivity.
  - exact Ed.
  - rewrite <- Hd. reflexivity.
  - rewrite <- Hd. reflexivity.
  - fold r in H. rewrite <- map_map.
    change "/data" with (rowPath ["data"]). rewrite (H 1).
    rewrite <- Hd. reflexivity.
Defined.

(* ================================================================= *)
(** ** The transcript *)

Section Transcript.

Local Open Scope list_scope.

Lemma printsOnly_refl (a : App) : printsOnly a a.
Proof. exists []. split; [symmetry; apply app_nil_r | reflexivity]. Qed.

Lemma printsOnly_same (acc r r' : App) :
  history r' = history r -> printsOnly acc r -> printsOnly acc r'.
Proof. intros E [outs [H F]]. exists outs. rewrite E. auto. Qed.

Lemma printsOnly_add (s acc r : App) (ty : LineType) (text : string) :
  ty <> input -> printsOnly acc r -> printsOnly acc (addToHistory s ty text r).
Proof.
  intros Hty [outs [H F]].
  exists (outs ++ [mkLine ty text (match ty with input => Some (getPathString (currentPath s)) | _ => None end)]).
  split.
  - simpl. rewrite H, app_assoc. reflexivity.
  - rewrite filter_app, F. simpl. unfold isInput. simpl.
    destruct ty; [contradiction | reflexivity | reflexivity | reflexivity].
Qed.

Lemma printsOnly_executeScript (s acc r : App) (heap : FileNode)
  (action : string) (args : list string) :
  printsOnly acc r -> printsOnly acc (executeScript s heap action args r).
Proof.
  intro H. unfold executeScript.
  destruct (action =? "ALARM_SCRIPT").
  { apply (printsOnly_same _ (addToHistory s system "正在尝试建立外部连接..." r));
      [reflexivity|].
    apply printsOnly_add; [discriminate | exact H]. }
  destruct (action =? "CRACK_SCRIPT").
  { apply (printsOnly_same _ (addToHistory s system "正在破解..." r));
      [reflexivity|].
    apply printsOnly_add; [discriminate | exact H]. }
  destruct (action =? "DISGUISE_SCRIPT"); [|exact H].
  cbv zeta. destruct (Nat.ltb _ 6).
  - apply printsOnly_add; [discriminate | exact H].
  - apply (printsOnly_same _ (addToHistory s system msgPacking r)).
    + unfold saveCheckpoint. simpl. destruct (storageWritable r); reflexivity.
    + apply printsOnly_add; [discriminate | exact H].
Qed.

(** The leaves of the interpreter: the queued state with setters applied
    and lines added. *)
Ltac prints_leaf H :=
  repeat first
    [ exact H
    | apply printsOnly_executeScript
    | apply printsOnly_add; [discriminate|]
    | match goal with
      | |- printsOnly _ (setCurrentPath ?v ?x) =>
          apply (printsOnly_same _ x); [reflexivity|]
      | |- printsOnly _ (setFileSystem ?v ?x) =>
          apply (printsOnly_same _ x); [reflexivity|]
      | |- printsOnly _ (setEvidenceCollected ?f ?x) =>
          apply (printsOnly_same _ x); [reflexivity|]
      | |- printsOnly _ (setDiscoveredPaths ?f ?x) =>
          apply (printsOnly_same _ x); [reflexivity|]
      end ].

Lemma printsOnly_dispatch (s acc r : App) (cmd : string) (args : list string) :
  printsOnly acc r -> printsOnly acc (dispatch s cmd args r).
Proof.
  intro H. unfold dispatch.
  destruct (cmd =? "help"); [prints_leaf H|].
  destruct (cmd =? "ls").
  { unfold case_ls. cbv zeta. repeat break_match; prints_leaf H. }
  destruct (cmd =? "cd").
  { unfold case_cd. cbv zeta. repeat break_match; prints_leaf H. }
  destruct (cmd =? "cat").
  { unfold case_cat. cbv zeta. repeat break_match; prints_leaf H. }
  destruct (cmd =? "search").
  { unfold case_search. cbv zeta. repeat break_match; prints_leaf H. }
  destruct (cmd =? "rm").
  { unfold case_rm. cbv zeta. repeat break_match; prints_leaf H. }
  destruct (_ || _); [|prints_leaf H].
  unfold case_script. cbv zeta. repeat break_match; prints_leaf H.
Qed.

Lemma printsOnly_fireTimer (id : nat) (a : App) : printsOnly a (fireTimer id a).
Proof.
  unfold fireTimer. destruct (find _ (timers a)) as [t|]; [|apply printsOnly_refl].
  assert (H : printsOnly a (dropTimer id a))
    by (apply (printsOnly_same _ a); [reflexivity | apply printsOnly_refl]).
  revert H. generalize (dropTimer id a). intros b H.
  unfold runCallback. destruct (timer_callback t) as [| |hf har].
  - apply printsOnly_add; [discriminate | exact H].
  - apply printsOnly_add; [discriminate | exact H].
  - destruct hf; [apply (printsOnly_same _ b); [reflexivity | exact H]|].
    destruct har; [apply (printsOnly_same _ b); [reflexivity | exact H]|].
    apply printsOnly_add; [discriminate | exact H].
Qed.

(** What one event adds to the transcript. *)
Lemma step_history (e : Event) (a : App) :
  exists more,
    history (step e a) = history a ++ more /\
    filter isInput more = typedLines [e] a.
Proof.
  destruct e as [cmdStr|id|pathStr]; simpl.
  - unfold handleCommand. destruct (tokens cmdStr) as [|cmd args].
    + exists []. split; [symmetry; apply app_nil_r | reflexivity].
    + unfold runCommand.
      assert (H : printsOnly (addToHistory a input cmdStr a)
                    (dispatch a cmd args (addToHistory a input cmdStr a)))
        by (apply printsOnly_dispatch, printsOnly_refl).
      destruct H as [outs [H F]].
      exists (mkLine input cmdStr (Some (getPathString (currentPath a))) :: outs).
      split.
      * rewrite H. simpl. rewrite <- app_assoc. reflexivity.
      * simpl. rewrite F. reflexivity.
  - destruct (printsOnly_fireTimer id a) as [outs [H F]].
    exists outs. rewrite F. auto.
  - exists []. split; [|reflexivity].
    rewrite app_nil_r. unfold handleTreeNavigate.
    destruct (_ || _); reflexivity.
Qed.

End Transcript.

(** X8.  The transcript only grows, and its input lines are the lines typed.
    Whatever happens - commands, timeouts, clicks in the panel - the lines
    already in the transcript stay as they are, in place; what a run adds
    contains, as its input lines and in this order, one line for each line
    typed that is not blank: the text exactly as typed, with the printed
    form of the path that was current when it was typed. *)
Theorem transcript_only_grows (es : list Event) (a : App) :
  exists more,
    history (steps es a) = (history a ++ more)%list /\
    filter isInput more = typedLines es a.
Proof.
  revert a. induction es as [|e es IH]; intro a.
  - exists []. split; [symmetry; apply app_nil_r | reflexivity].
  - rewrite steps_cons.
    destruct (step_history e a) as [m1 [H1 F1]].
    destruct (IH (step e a)) as [m2 [H2 F2]].
    exists (m1 ++ m2)%list. split.
    + rewrite H2, H1, app_assoc. reflexivity.
    + rewrite filter_app, F2, F1. simpl. rewrite app_nil_r. reflexivity.
Qed.

(* ================================================================= *)
(** ** The current path *)

Section CurrentPath.

Local Open Scope list_scope.

Lemma rooted_root : rooted [""].
Proof. exists []. reflexivity. Qed.

Lemma rooted_snoc (p : Path) (x : string) : rooted p -> rooted (p ++ [x]).
Proof. intros [parts ->]. exists (parts ++ [x]). reflexivity. Qed.

Lemma rooted_removelast (p : Path) :
  rooted p -> Nat.leb (List.length p) 1 = false -> rooted (removelast p).
Proof.
  intros [parts ->] H. destruct parts as [|x rest]; [discriminate|].
  exists (removelast (x :: rest)). reflexivity.
Qed.

Lemma resolvePath_rooted (target : string) (cp p : Path) :
  rooted cp -> resolvePath target cp = Some p -> rooted p.
Proof.
  intro Hcp. unfold resolvePath.
  destruct (target =? "/"); [intros [= <-]; apply rooted_root|].
  destruct (target =? "..").
  { destruct (Nat.leb (List.length cp) 1) eqn:E; intros [= <-].
    - apply rooted_root.
    - apply rooted_removelast; assumption. }
  destruct (Js.startsWith "/" target); intros [= <-].
  - eexists. reflexivity.
  - apply rooted_snoc. exact Hcp.
Qed.

Lemma executeScript_currentPath (s acc : App) (heap : FileNode)
  (action : string) (args : list string) :
  currentPath (executeScript s heap action args acc) = currentPath acc.
Proof. unfold executeScript, saveCheckpoint. by_cases. Qed.

Lemma fireTimer_currentPath (id : nat) (a : App) :
  currentPath (fireTimer id a) = currentPath a.
Proof. unfold fireTimer, runCallback. by_cases. Qed.

Lemma rooted_dispatch (s acc : App) (cmd : string) (args : list string) :
  rooted (currentPath s) -> rooted (currentPath acc) ->
  rooted (currentPath (dispatch s cmd args acc)).
Proof.
  intros Hs Hacc.
  assert (Hres : forall t p, resolvePath t (currentPath s) = Some p -> rooted p)
    by (intros t p; apply resolvePath_rooted; exact Hs).
  unfold dispatch.
  destruct (cmd =? "help"); [exact Hacc|].
  destruct (cmd =? "ls"); [unfold case_ls; by_cases; exact Hacc|].
  destruct (cmd =? "cd").
  { unfold case_cd.
    by_cases; first [exact Hacc | apply rooted_root | eapply Hres; eassumption]. }
  destruct (cmd =? "cat").
  { unfold case_cat.
    by_cases; rewrite ?executeScript_currentPath; exact Hacc. }
  destruct (cmd =? "search").
  { unfold case_search.
    by_cases; first [exact Hacc | apply rooted_snoc; exact Hs]. }
  destruct (cmd =? "rm"); [unfold case_rm; by_cases; exact Hacc|].
  destruct (_ || _); [|exact Hacc].
  unfold case_script. by_cases; rewrite ?executeScript_currentPath; exact Hacc.
Qed.

Lemma rooted_step (e : Event) (a : App) :
  rooted (currentPath a) -> rooted (currentPath (step e a)).
Proof.
  intro H. destruct e as [cmdStr|id|pathStr]; simpl.
  - unfold handleCommand. destruct (tokens cmdStr) as [|cmd args]; [exact H|].
    unfold runCommand. apply rooted_dispatch; exact H.
  - rewrite fireTimer_currentPath. exact H.
  - unfold handleTreeNavigate. destruct (_ || _); simpl.
    + apply rooted_root.
    + eexists. reflexivity.
Qed.

Lemma getPathString_rooted (p : Path) :
  rooted p -> Js.startsWith "/" (getPathString p) = true.
Proof.
  intros [parts ->]. unfold getPathString.
  destruct parts as [|x rest]; [reflexivity|].
  simpl Nat.eqb. cbv iota.
  change (Js.join "/" ("" :: x :: rest))
    with (String "/" (Js.join "/" (x :: rest))).
  generalize (Js.join "/" (x :: rest)). intro t.
  unfold Js.replace. fold Js.replace.
  destruct (Js.startsWith "//" (String "/" t)); reflexivity.
Qed.

End CurrentPath.

(** X9.  The current path stays rooted.  Once the current path begins with the
    root marker [''], it does so after every event - every command, every
    timeout, every click in the panel - and the prompt, which prints it,
    begins with a slash. *)
Theorem current_path_stays_rooted (es : list Event) (a : App) :
  rooted (currentPath a) ->
  rooted (currentPath (steps es a)) /\
  Js.startsWith "/" (getPathString (currentPath (steps es a))) = true.
Proof.
  intro H.
  assert (Hr : rooted (currentPath (steps es a))).
  { revert a H. induction es as [|e es IH]; intros a H; [exact H|].
    rewrite steps_cons. apply IH. apply rooted_step. exact H. }
  split; [exact Hr | apply getPathString_rooted; exact Hr].
Qed.

Lemma current_path_stays_rooted_witness :
  let es := [Typed "cd data"; Typed "search ghost"; Typed "cd .."; Typed "cd .."; Typed "cd .."] in
  currentPath (steps [Typed "cd data"; Typed "search ghost"] Demo.start)
  = [""; "data"; "ghost"] /\
  rooted (currentPath (steps es Demo.start)) /\
  Js.startsWith "/" (getPathString (currentPath (steps es Demo.start))) = true.
Proof.
  intro es. split; [vm_compute; reflexivity|].
  apply (current_path_stays_rooted es Demo.start).
  exists []. reflexivity.
Defined.

(* ================================================================= *)
(** ** How a game ends *)

Section Endings.

Local Open Scope list_scope.

Lemma executeScript_gameState (s acc : App) (heap : FileNode)
  (action : string) (args : list string) :
  gameState (executeScript s heap action args acc) = gameState acc.
Proof. unfold executeScript, saveCheckpoint. by_cases. Qed.

Lemma executeScript_fileSystem (s acc : App) (heap : FileNode)
  (action : string) (args : list string) :
  fileSystem (executeScript s heap action args acc) = fileSystem acc.
Proof.
  apply (same_fileSystem _ _ (executeScript_treeAndLedger s acc heap action args)).
Qed.

Lemma dispatch_gameState (s acc : App) (cmd : string) (args : list string) :
  gameState (dispatch s cmd args acc) = gameState acc.
Proof.
  unfold dispatch.
  destruct (cmd =? "help"); [reflexivity|].
  destruct (cmd =? "ls"); [unfold case_ls; by_cases|].
  destruct (cmd =? "cd"); [unfold case_cd; by_cases|].
  destruct (cmd =? "cat").
  { unfold case_cat. by_cases; rewrite ?executeScript_gameState; reflexivity. }
  destruct (cmd =? "search"); [unfold case_search; by_cases|].
  destruct (cmd =? "rm"); [unfold case_rm; by_cases|].
  destruct (_ || _); [|reflexivity].
  unfold case_script. by_cases; rewrite ?executeScript_gameState; reflexivity.
Qed.

(** A timeout that a script queues and that carries a verdict was queued
    with six names or more in the ledger, and its verdict is that of the
    tree the script read. *)
Lemma executeScript_timers (s acc : App) (heap : FileNode) (action : string)
  (args : list string) (t : Timer) :
  In t (timers (executeScript s heap action args acc)) ->
  In t (timers acc) \/
  (isVerdict (timer_callback t) ->
   6 <= Js.size (evidenceCollected s) /\ timer_callback t = verdictOf heap).
Proof.
  unfold executeScript.
  destruct (action =? "ALARM_SCRIPT").
  { simpl. intro H. apply in_app_or in H. destruct H as [H|[<-|[]]]; [left; exact H|].
    right. intros [hf [har E]]. discriminate E. }
  destruct (action =? "CRACK_SCRIPT").
  { simpl. intro H. apply in_app_or in H. destruct H as [H|[<-|[]]]; [left; exact H|].
    right. intros [hf [har E]]. discriminate E. }
  destruct (action =? "DISGUISE_SCRIPT"); [|auto].
  cbv zeta. destruct (Nat.ltb _ 6) eqn:E; [simpl; auto|].
  apply Nat.ltb_ge in E. unfold saveCheckpoint. simpl.
  destruct (storageWritable acc); simpl; intro H; apply in_app_or in H;
    (destruct H as [H|[<-|[]]]; [left; exact H | right; intros _; split; [exact E | reflexivity]]).
Qed.

Lemma dispatch_timers (s acc : App) (cmd : string) (args : list string) (t : Timer) :
  fileSystem acc = fileSystem s ->
  In t (timers (dispatch s cmd args acc)) ->
  In t (timers acc) \/
  (isVerdict (timer_callback t) ->
   6 <= Js.size (evidenceCollected s) /\
   timer_callback t = verdictOf (fileSystem (dispatch s cmd args acc))).
Proof.
  intro Hfs. unfold dispatch.
  destruct (cmd =? "help"); [simpl; auto|].
  destruct (cmd =? "ls"); [unfold case_ls; by_cases; auto|].
  destruct (cmd =? "cd"); [unfold case_cd; by_cases; auto|].
  destruct (cmd =? "cat").
  { unfold case_cat.
    by_cases; auto; rewrite executeScript_fileSystem; simpl fileSystem;
      rewrite ?Hfs; intro H; apply executeScript_timers in H; exact H. }
  destruct (cmd =? "search"); [unfold case_search; by_cases; auto|].
  destruct (cmd =? "rm"); [unfold case_rm; by_cases; auto|].
  destruct (_ || _); [|simpl; auto].
  unfold case_script.
  by_cases; auto; rewrite executeScript_fileSystem, Hfs;
    intro H; apply executeScript_timers in H; exact H.
Qed.

Lemma step_timers (e : Event) (a : App) (t : Timer) :
  In t (timers (step e a)) ->
  In t (timers a) \/
  exists cmdStr,
    e = Typed cmdStr /\
    (isVerdict (timer_callback t) ->
     6 <= Js.size (evidenceCollected a) /\
     timer_callback t = verdictOf (fileSystem (handleCommand cmdStr a))).
Proof.
  destruct e as [cmdStr|id|pathStr]; simpl.
  - unfold handleCommand at 1.
    destruct (tokens cmdStr) as [|cmd args] eqn:Et; [auto|].
    unfold runCommand. intro H.
    apply dispatch_timers in H; [|reflexivity].
    destruct H as [H|H]; [left; exact H|].
    right. exists cmdStr. split; [reflexivity|].
    unfold handleCommand, runCommand. rewrite Et. exact H.
  - unfold fireTimer. destruct (find _ (timers a)) as [t0|]; [|auto].
    intro H. left.
    assert (Ht : timers (runCallback (timer_callback t0) (dropTimer id a))
                 = timers (dropTimer id a))
      by (unfold runCallback; by_cases).
    rewrite Ht in H. simpl in H. apply filter_In in H. tauto.
  - intro H. left. unfold handleTreeNavigate in H.
    destruct (_ || _); exact H.
Qed.

(** The phase changes only when a verdict is delivered. *)
Lemma step_gameState (e : Event) (a : App) :
  gameState (step e a) = gameState a \/
  exists t hf har,
    In t (timers a) /\ timer_callback t = DisguiseVerdict hf har /\
    ((hf = true /\ gameState (step e a) = LOSE) \/
     (hf = false /\ har = true /\ gameState (step e a) = WIN)).
Proof.
  destruct e as [cmdStr|id|pathStr]; simpl.
  - left. unfold handleCommand. destruct (tokens cmdStr) as [|cmd args]; [reflexivity|].
    unfold runCommand. rewrite dispatch_gameState. reflexivity.
  - unfold fireTimer. destruct (find _ (timers a)) as [t|] eqn:Ef; [|auto].
    apply find_some in Ef. destruct Ef as [Hin _].
    destruct (timer_callback t) as [| |hf har] eqn:Ek; simpl; auto.
    destruct hf; [right; exists t, true, har; auto|].
    destruct har; [right; exists t, false, true; auto 6|].
    left. reflexivity.
  - left. unfold handleTreeNavigate. destruct (_ || _); reflexivity.
Qed.

Lemma packedIn_later (es : list Event) (e : Event) (a : App) (k : Continuation) :
  packedIn es a k -> packedIn (es ++ [e]) a k.
Proof.
  intros [before [cmdStr [after [-> H]]]].
  exists before, cmdStr, (after ++ [e]). split; [|exact H].
  rewrite <- app_assoc. reflexivity.
Qed.

(** Over a run that starts without pending timeouts: every pending
    verdict stems from a command of the run, and so does a change of the
    phase. *)
Lemma run_verdicts (es : list Event) (a : App) :
  timers a = [] ->
  (forall t, In t (timers (steps es a)) -> isVerdict (timer_callback t) ->
             packedIn es a (timer_callback t)) /\
  (gameState (steps es a) = gameState a \/
   exists hf har,
     packedIn es a (DisguiseVerdict hf har) /\
     ((hf = true /\ gameState (steps es a) = LOSE) \/
      (hf = false /\ har = true /\ gameState (steps es a) = WIN))).
Proof.
  intro Hnone. induction es as [|e es [IHt IHg]] using rev_ind.
  - simpl. rewrite Hnone. split; [intros t []|left; reflexivity].
  - rewrite steps_app. simpl steps.
    change (fold_left (fun acc e0 => step e0 acc) [e] (steps es a))
      with (step e (steps es a)).
    split.
    + intros t Hin Hv. destruct (step_timers _ _ _ Hin) as [H|[cmdStr [-> H]]].
      * apply packedIn_later. apply IHt; assumption.
      * destruct (H Hv) as [Hsize Hk].
        exists es, cmdStr, []. auto.
    + destruct (step_gameState e (steps es a)) as [E|[t [hf [har [Hin [Hk Hg]]]]]].
      * rewrite E. destruct IHg as [IHg|[hf [har [Hp Hg]]]]; [left; exact IHg|].
        right. exists hf, har. split; [apply packedIn_later; exact Hp | exact Hg].
      * right. exists hf, har. split; [|exact Hg].
        apply packedIn_later. rewrite <- Hk. apply IHt; [exact Hin|].
        exists hf, har. exact Hk.
Qed.

End Endings.

(** X12.  Only the disguise script ends the game.  In a run that starts without
    pending timeouts, the phase changes only to LOSE or to WIN, and only
    if some command of the run was typed with six names or more in the
    ledger and left a tree whose intake directory /home/user held, for
    LOSE, a forbidden name, and for WIN, every required name and no
    forbidden one. *)
Theorem endings_come_from_the_script (es : list Event) (a : App) :
  timers a = [] ->
  gameState (steps es a) <> gameState a ->
  exists before cmdStr after,
    es = (before ++ Typed cmdStr :: after)%list /\
    let typedAt := steps before a in
    let packed := fileSystem (handleCommand cmdStr typedAt) in
    6 <= Js.size (evidenceCollected typedAt) /\
    ((gameState (steps es a) = LOSE /\ forbiddenPresent packed) \/
     (gameState (steps es a) = WIN /\
      ~ forbiddenPresent packed /\ allRequiredPresent packed)).
Proof.
  intros Hnone Hchg.
  destruct (run_verdicts es a Hnone) as [_ [E|[hf [har [Hp Hg]]]]];
    [contradiction|].
  destruct Hp as [before [cmdStr [after [-> [Hsize Hk]]]]].
  exists before, cmdStr, after. split; [reflexivity|].
  cbv zeta. split; [exact Hsize|].
  unfold verdictOf in Hk.
  remember (existsb _ forbidden) as hf0 eqn:Ehf in Hk.
  remember (forallb _ required) as har0 eqn:Ehar in Hk.
  injection Hk as -> ->.
  destruct Hg as [[-> Hg]|[-> [-> Hg]]].
  - left. split; [exact Hg|]. apply hasForbidden_spec. symmetry. exact Ehf.
  - right. split; [exact Hg|]. split.
    + intro Hf. apply hasForbidden_spec in Hf. congruence.
    + apply hasAllRequired_spec. symmetry. exact Ehar.
Qed.

Lemma endings_come_from_the_script_witness :
  let es :=
    (map Typed ["cd data"; "cat 证据_1.txt"; "cat 陈冰-刘青原"; "cat 证据_3.txt";
                "cat 证据_5.txt"; "cat 证据_6.txt"; "cat 证据_8.txt"; "cd /";
                "./伪装.sh"]
     ++ [Fired 0])%list in
  gameState (steps es Demo.start) = WIN /\
  exists before cmdStr after,
    es = (before ++ Typed cmdStr :: after)%list /\
    6 <= Js.size (evidenceCollected (steps before Demo.start)) /\
    allRequiredPresent (fileSystem (handleCommand cmdStr (steps before Demo.start))).
Proof.
  intro es.
  assert (Hwin : gameState (steps es Demo.start) = WIN) by (vm_compute; reflexivity).
  split; [exact Hwin|].
  destruct (endings_come_from_the_script es Demo.start eq_refl)
    as [before [cmdStr [after [E [Hsize H]]]]].
  - rewrite Hwin. discriminate.
  - exists before, cmdStr, after. split; [exact E|]. split; [exact Hsize|].
    destruct H as [[Hl _]|[_ [_ H]]]; [|exact H].
    rewrite Hwin in Hl. discriminate Hl.
Defined.

(* ================================================================= *)
(** ** The current directory *)

Section CurrentDirectory.

Local Open Scope list_scope.

Lemma isA_true (ty : FileType) (o : option FileNode) :
  isA ty o = true <-> exists d, o = Some d /\ type d = ty.
Proof.
  unfold isA. destruct o as [d|].
  - split.
    + intro H. exists d. split; [reflexivity|].
      destruct (type d), ty; try discriminate; reflexivity.
    + intros [d' [[= <-] <-]]. destruct (type d); reflexivity.
  - split; [discriminate | intros [d [H _]]; discriminate].
Qed.

Lemma inDirectory_root (a : App) :
  inDirectory a -> type (fileSystem a) = DIRECTORY.
Proof.
  unfold inDirectory. rewrite isA_true, findNode_walk.
  intros [d [Hw Hty]]. destruct (skipRoot (currentPath a)) as [|x r].
  - simpl in Hw. congruence.
  - simpl in Hw. destruct (type (fileSystem a)); [discriminate | reflexivity].
Qed.

Lemma keepsTypes_refl (fs : FileNode) : keepsTypes fs fs.
Proof. intros p d H. exists d. auto. Qed.

Lemma keepsTypes_trans (a b c : FileNode) :
  keepsTypes a b -> keepsTypes b c -> keepsTypes a c.
Proof.
  intros Hab Hbc p d H.
  destruct (Hab p d H) as [d' [H' E']].
  destruct (Hbc p d' H') as [d'' [H'' E'']].
  exists d''. split; [exact H'' | congruence].
Qed.

Lemma patch_keepsTypes (p : Path) (patch : Partial) (fs t : FileNode) :
  patch = unlockPatch \/ patch = revealPatch ->
  updateFileSystemNode p patch fs = Some t -> keepsTypes fs t.
Proof.
  intros Hpatch Hu P n Hp. rewrite updateFileSystemNode_mutateAt in Hu.
  set (f := fun target : FileNode => assign target patch) in *.
  assert (Hf : keepsName f).
  { apply keepsName_assign. destruct Hpatch as [->| ->]; reflexivity. }
  destruct (path_cases (skipRoot p) P)
    as [[r E]|[[b [q' E]]|[c [a [b [r [q' [Hne [E E']]]]]]]]].
  - destruct (walk_mutateAt_below _ _ _ _ Hf Hu) as [n0 [Hw Hr]].
    rewrite E, Hr. rewrite E, walk_app, Hw in Hp.
    destruct r as [|a r].
    + simpl in Hp. injection Hp as <-. exists (f n0). split; [reflexivity|].
      unfold f. destruct Hpatch as [->| ->]; reflexivity.
    + exists n. split; [|reflexivity]. rewrite <- Hp.
      apply walk_cons_congr; unfold f; destruct Hpatch as [->| ->]; reflexivity.
  - rewrite E in Hu.
    destruct (walk_mutateAt_through _ _ _ _ _ Hf Hu) as [n0 [n' [Hw [Hm Hr]]]].
    assert (n0 = n) by congruence. subst n0.
    specialize (Hr []). rewrite app_nil_r in Hr. rewrite Hr.
    destruct (mutateAt_cons_shape _ _ _ _ _ Hm) as [cs' ->].
    eexists. split; reflexivity.
  - rewrite E' in Hu. rewrite E.
    rewrite (walk_mutateAt_beside _ _ _ _ _ _ _ _ Hf Hne Hu).
    rewrite <- E. eauto.
Qed.

Lemma appendClone_keepsTypes (node fs : FileNode) :
  keepsTypes fs (appendClone node fs).
Proof.
  intros p d H. destruct (appendClone_keeps node fs p d H) as [d' [H' E]].
  exists d'. split; [exact H'|].
  change (type d') with (type (withChildren None d')). rewrite E. reflexivity.
Qed.

Lemma inDirectory_keepsTypes (p : Path) (fs t : FileNode) :
  keepsTypes fs t ->
  isA DIRECTORY (findNode p fs) = true -> isA DIRECTORY (findNode p t) = true.
Proof.
  intros Hk. rewrite !isA_true, !findNode_walk. intros [d [Hw Hty]].
  destruct (Hk _ _ Hw) as [d' [Hw' E]]. exists d'. split; [exact Hw' | congruence].
Qed.

Variables (s acc : App).
Hypothesis same : treeAndLedger acc = treeAndLedger s.
Hypothesis samePath : currentPath acc = currentPath s.
Hypothesis here : inDirectory s.

Lemma case_cd_keepsTypes (args : list string) :
  keepsTypes (fileSystem s) (fileSystem (case_cd s args acc)).
Proof.
  pose proof (same_fileSystem _ _ same) as Hfs.
  unfold case_cd.
  by_cases; rewrite ?Hfs; try apply keepsTypes_refl.
  all: eapply patch_keepsTypes; [left; reflexivity | eassumption].
Qed.

Lemma case_cat_keepsTypes (args : list string) :
  keepsTypes (fileSystem s) (fileSystem (case_cat s args acc)).
Proof.
  change (fileSystem (case_cat s args acc))
    with (fst (treeAndLedger (case_cat s args acc))).
  rewrite (case_cat_treeAndLedger s acc same).
  destruct (catLookup s (arg 0 args)) as [f|]; [|apply keepsTypes_refl].
  match goal with
  | |- context [if ?c then _ else _] => destruct c
  end; [apply appendClone_keepsTypes | apply keepsTypes_refl].
Qed.

Lemma case_search_keepsTypes (args : list string) :
  keepsTypes (fileSystem s) (fileSystem (case_search s args acc)).
Proof.
  change (fileSystem (case_search s args acc))
    with (fst (treeAndLedger (case_search s args acc))).
  rewrite (case_search_treeAndLedger s acc same).
  destruct (childOf _ _) as [found|]; [|apply keepsTypes_refl].
  destruct (negb (arg 0 args =? "") && Js.truthyB (isHidden found));
    [|apply keepsTypes_refl].
  destruct (updateFileSystemNode _ revealPatch _) as [t|] eqn:Eu.
  - apply (keepsTypes_trans _ t).
    + eapply patch_keepsTypes; [right; reflexivity | exact Eu].
    + match goal with
      | |- context [if ?c then _ else _] => destruct c
      end; [apply appendClone_keepsTypes | apply keepsTypes_refl].
  - match goal with
    | |- context [if ?c then _ else _] => destruct c
    end; [apply appendClone_keepsTypes | apply keepsTypes_refl].
Qed.

(** Where [cd] goes, there is a directory. *)
Lemma case_cd_target (args : list string) :
  isA DIRECTORY (findNode (currentPath (case_cd s args acc)) (fileSystem s)) = true.
Proof.
  pose proof (inDirectory_root s here) as Hroot.
  unfold inDirectory in here.
  unfold case_cd.
  by_cases; rewrite ?samePath; try exact here;
    try (unfold findNode; simpl; rewrite Hroot; reflexivity);
    match goal with
    | H : findNode ?p _ = Some ?d, E : type ?d = DIRECTORY
      |- isA DIRECTORY (findNode ?p _) = true =>
        rewrite H; simpl; rewrite E; reflexivity
    end.
Qed.

Lemma case_search_currentPath (args : list string) :
  currentPath (case_search s args acc) = currentPath acc \/
  exists found,
    arg 0 args <> "" /\
    childOf (findNode (currentPath s) (fileSystem s)) (arg 0 args) = Some found /\
    type found = DIRECTORY /\
    currentPath (case_search s args acc) = currentPath s ++ [name found].
Proof.
  unfold case_search.
  destruct (arg 0 args =? "") eqn:Ea; [left; reflexivity|].
  apply String.eqb_neq in Ea. cbv zeta.
  destruct (childOf _ _) as [found|] eqn:Ec; [|left; reflexivity].
  destruct (Js.truthyB (isHidden found)); [|left; reflexivity].
  destruct (updateFileSystemNode _ revealPatch _) as [t|].
  - simpl password. simpl type. simpl scriptAction. simpl isEvidence. simpl content.
    simpl name.
    destruct (Js.truthyS (password found)); [left; reflexivity|].
    destruct (type found) eqn:Ety.
    + left. by_cases.
    + right. exists found. auto.
  - destruct (Js.truthyS (password found)); [left; reflexivity|].
    destruct (type found) eqn:Ety.
    + left. by_cases.
    + right. exists found. auto.
Qed.

Lemma case_search_target (args : list string) :
  isA DIRECTORY (findNode (currentPath (case_search s args acc)) (fileSystem s))
  = true.
Proof.
  destruct (case_search_currentPath args) as [E|[found [Ha [Hc [Hty E]]]]];
    rewrite E.
  - rewrite samePath. exact here.
  - unfold inDirectory in here. apply isA_true in here.
    destruct here as [cur [Hcur Hcty]].
    rewrite Hcur in Hc. unfold childOf in Hc.
    destruct (children cur) as [cs|] eqn:Ecs; [|discriminate].
    pose proof (findChild_name _ _ _ Hc) as Hn.
    rewrite Hn.
    rewrite (findNode_child _ _ _ cur found cs Ha Hcur Hcty Ecs Hc).
    simpl. rewrite Hty. reflexivity.
Qed.

Lemma case_rm_here (args : list string) :
  inDirectory (case_rm s args acc).
Proof.
  pose proof (same_fileSystem _ _ same) as Hfs.
  unfold inDirectory in *. unfold case_rm.
  destruct (arg 0 args =? ""); [simpl; rewrite Hfs, samePath; exact here|].
  cbv zeta.
  destruct (negb _); [simpl; rewrite Hfs, samePath; exact here|].
  destruct (childOf _ _) as [c|] eqn:Ec;
    [|simpl; rewrite Hfs, samePath; exact here].
  assert (E : forall x y,
            currentPath
              (addToHistory s output x
                 (if Js.has (arg 0 args) (evidenceCollected s)
                  then setEvidenceCollected y
                         match deleteNode (arg 0 args) (currentPath s) (fileSystem s) with
                         | Some newFS => setFileSystem newFS acc
                         | None => acc
                         end
                  else match deleteNode (arg 0 args) (currentPath s) (fileSystem s) with
                       | Some newFS => setFileSystem newFS acc
                       | None => acc
                       end)) = currentPath s
            /\ fileSystem
              (addToHistory s output x
                 (if Js.has (arg 0 args) (evidenceCollected s)
                  then setEvidenceCollected y
                         match deleteNode (arg 0 args) (currentPath s) (fileSystem s) with
                         | Some newFS => setFileSystem newFS acc
                         | None => acc
                         end
                  else match deleteNode (arg 0 args) (currentPath s) (fileSystem s) with
                       | Some newFS => setFileSystem newFS acc
                       | None => acc
                       end))
              = match deleteNode (arg 0 args) (currentPath s) (fileSystem s) with
                | Some newFS => newFS
                | None => fileSystem s
                end).
  { intros x y. destruct (Js.has _ _), (deleteNode _ _ _); simpl;
      rewrite ?samePath, ?Hfs; auto. }
  destruct (E (msgDeleted (arg 0 args))
              (fun _ => Js.delete (arg 0 args) (evidenceCollected s))) as [E1 E2].
  rewrite E1, E2. clear E E1 E2.
  apply isA_true in here. destruct here as [cur [Hcur Hcty]].
  rewrite Hcur in Ec. unfold childOf in Ec.
  destruct (children cur) as [cs|] eqn:Ecs; [|discriminate].
  destruct (deleteNode_spec (arg 0 args) _ _ _ _ Hcur Ecs) as [t [Ht Hfind]].
  rewrite Ht, Hfind. simpl. rewrite Hcty. reflexivity.
Qed.

Lemma dispatch_here (cmd : string) (args : list string) :
  inDirectory (dispatch s cmd args acc).
Proof.
  pose proof (same_fileSystem _ _ same) as Hfs.
  assert (Hsame : forall r, fileSystem r = fileSystem acc ->
                            currentPath r = currentPath acc -> inDirectory r).
  { intros r E1 E2. unfold inDirectory. rewrite E1, E2, Hfs, samePath. exact here. }
  unfold dispatch.
  destruct (cmd =? "help"); [apply Hsame; reflexivity|].
  destruct (cmd =? "ls"); [apply Hsame; unfold case_ls; by_cases|].
  destruct (cmd =? "cd").
  { apply (inDirectory_keepsTypes _ _ _ (case_cd_keepsTypes args)).
    apply case_cd_target. }
  destruct (cmd =? "cat").
  { apply (inDirectory_keepsTypes _ _ _ (case_cat_keepsTypes args)).
    assert (E : currentPath (case_cat s args acc) = currentPath s).
    { rewrite <- samePath. unfold case_cat.
      by_cases; rewrite ?executeScript_currentPath; reflexivity. }
    rewrite E. exact here. }
  destruct (cmd =? "search").
  { apply (inDirectory_keepsTypes _ _ _ (case_search_keepsTypes args)).
    apply case_search_target. }
  destruct (cmd =? "rm"); [apply case_rm_here|].
  destruct (_ || _); [|apply Hsame; reflexivity].
  apply Hsame; unfold case_script;
    by_cases; rewrite ?executeScript_fileSystem, ?executeScript_currentPath;
    reflexivity.
Qed.

End CurrentDirectory.

Lemma step_here (e : Event) (a : App) :
  (forall pathStr, e <> Navigated pathStr) ->
  inDirectory a -> inDirectory (step e a).
Proof.
  intros Hno H. destruct e as [cmdStr|id|pathStr]; simpl.
  - unfold handleCommand. destruct (tokens cmdStr) as [|cmd args]; [exact H|].
    unfold runCommand. apply dispatch_here; [reflexivity | reflexivity | exact H].
  - unfold inDirectory.
    rewrite (same_fileSystem _ _ (fireTimer_treeAndLedger id a)).
    rewrite fireTimer_currentPath. exact H.
  - exfalso. apply (Hno pathStr). reflexivity.
Qed.

(** X10.  The current path always leads to a directory.  When it does so at the
    start, it does so after any commands and timeouts (a run without
    clicks in the panel): whatever is unlocked, revealed, collected or
    removed on the way, the node at the current path is a DIRECTORY.  In
    particular the root is a DIRECTORY throughout, and [ls] never finds
    itself outside a directory. *)
Theorem current_path_is_a_directory (es : list Event) (a : App) :
  noClick es -> inDirectory a ->
  inDirectory (steps es a) /\ type (fileSystem (steps es a)) = DIRECTORY.
Proof.
  intros Hno H.
  assert (Hd : inDirectory (steps es a)).
  { revert a H. induction es as [|e es IH]; intros a H; [exact H|].
    rewrite steps_cons. apply IH.
    - intros pathStr Hin. apply (Hno pathStr). right. exact Hin.
    - apply step_here; [|exact H].
      intros pathStr ->. apply (Hno pathStr). left. reflexivity. }
  split; [exact Hd | apply inDirectory_root; exact Hd].
Qed.

Lemma current_path_is_a_directory_witness :
  let es :=
    map Typed ["cd data"; "cat 证据_1.txt"; "search ghost"; "cd /home/user";
               "rm 证据_1.txt"; "cd vault"] in
  currentPath (steps es Demo.start) = [""; "home"; "user"] /\
  inDirectory (steps es Demo.start).
Proof.
  intro es. split; [vm_compute; reflexivity|].
  apply (current_path_is_a_directory es Demo.start).
  - intros pathStr Hin. vm_compute in Hin.
    repeat (destruct Hin as [Hin|Hin]; [discriminate Hin|]). exact Hin.
  - reflexivity.
Defined.

(* ================================================================= *)
(** ** Names stay distinct and plain *)

Section Names.

Local Open Scope list_scope.

Lemma NoDup_names_filter (g : FileNode -> bool) (cs : list FileNode) :
  NoDup (map name cs) -> NoDup (map name (filter g cs)).
Proof.
  induction cs as [|c cs IH]; simpl; intro H; [constructor|].
  inversion H as [|? ? Hnot Hnd]; subst.
  destruct (g c); simpl; [|apply IH; exact Hnd].
  constructor; [|apply IH; exact Hnd].
  intro Hin. apply Hnot. apply in_map_iff in Hin.
  destruct Hin as [x [E Hx]]. apply filter_In in Hx.
  apply in_map_iff. exists x. tauto.
Qed.

Lemma Forall_filter {A} (P : A -> Prop) (g : A -> bool) (l : list A) :
  Forall P l -> Forall P (filter g l).
Proof.
  intro H. apply Forall_forall. intros x Hx. apply filter_In in Hx.
  rewrite Forall_forall in H. apply H. tauto.
Qed.

Lemma names_replaceChild (b : string) (new old : FileNode) (cs : list FileNode) :
  findChild b cs = Some old -> name new = name old ->
  NoDup (map name cs) /\ Forall (fun c => plainName (name c)) cs ->
  NoDup (map name (replaceChild b new cs)) /\
  Forall (fun c => plainName (name c)) (replaceChild b new cs).
Proof.
  intros Hf Hn [Hnd Hpl].
  pose proof (map_replaceChild name b new old cs Hf Hn) as E.
  split; [rewrite E; exact Hnd|].
  apply Forall_map. rewrite E. apply Forall_map. exact Hpl.
Qed.

(** A mutation whose target keeps distinct plain names for its children,
    and below which every directory was there before. *)
Lemma mutateAt_wellNamed (f : FileNode -> FileNode) (q : Path) (fs t : FileNode) :
  keepsName f -> mutateAt q f fs = Some t -> wellNamed fs ->
  (forall n, walk q fs = Some n ->
     (forall cs', type (f n) = DIRECTORY -> children (f n) = Some cs' ->
        NoDup (map name cs') /\ Forall (fun c => plainName (name c)) cs') /\
     forall a r d', walk (a :: r) (f n) = Some d' -> type d' = DIRECTORY ->
                    walk (a :: r) n = Some d') ->
  wellNamed t.
Proof.
  intros Hf Hm Hfs Hloc p n' cs' Hp Hty Hcs.
  destruct (path_cases q p)
    as [[r ->]|[[b [q' ->]]|[c [a [b [r [q' [Hne [-> ->]]]]]]]]].
  - destruct (walk_mutateAt_below _ _ _ _ Hf Hm) as [n [Hw Hr]].
    destruct (Hloc n Hw) as [Hhere Hbelow].
    rewrite Hr in Hp. destruct r as [|a r].
    + simpl in Hp. injection Hp as <-. apply Hhere; assumption.
    + apply (Hfs (q ++ a :: r) n' cs'); try assumption.
      rewrite walk_app, Hw. apply Hbelow; assumption.
  - destruct (walk_mutateAt_through _ _ _ _ _ Hf Hm) as [n [n0 [Hw [Hm' Hr]]]].
    specialize (Hr []). rewrite app_nil_r in Hr. rewrite Hr in Hp.
    simpl in Hp. injection Hp as <-.
    simpl in Hm'.
    destruct (type n) eqn:Ety; [discriminate|].
    destruct (children n) as [cs|] eqn:Ecs; [|discriminate].
    destruct (findChild b cs) as [d|] eqn:Ed; [|discriminate].
    destruct (mutateAt q' f d) as [d1|] eqn:Em; [|discriminate].
    injection Hm' as <-. simpl in Hcs. injection Hcs as <-.
    apply (names_replaceChild b d1 d cs Ed).
    + apply (mutateAt_name _ _ _ _ Hf Em).
    + apply (Hfs p n cs Hw Ety Ecs).
  - rewrite (walk_mutateAt_beside _ _ _ _ _ _ _ _ Hf Hne Hm) in Hp.
    apply (Hfs _ _ _ Hp Hty Hcs).
Qed.

Lemma patch_wellNamed (p : Path) (patch : Partial) (fs t : FileNode) :
  patch = unlockPatch \/ patch = revealPatch ->
  updateFileSystemNode p patch fs = Some t -> wellNamed fs -> wellNamed t.
Proof.
  intros Hpatch Hu Hfs. rewrite updateFileSystemNode_mutateAt in Hu.
  apply (mutateAt_wellNamed _ _ _ _
           (keepsName_assign patch
              ltac:(destruct Hpatch as [->| ->]; reflexivity)) Hu Hfs).
  intros n Hn. split.
  - intros cs' Hty Hcs. apply (Hfs _ n cs' Hn).
    + rewrite <- Hty. destruct Hpatch as [->| ->]; reflexivity.
    + rewrite <- Hcs. destruct Hpatch as [->| ->]; reflexivity.
  - intros a r d' Hw _. rewrite <- Hw. symmetry.
    apply walk_cons_congr; destruct Hpatch as [->| ->]; reflexivity.
Qed.

Lemma delete_wellNamed (nm : string) (p : Path) (fs t : FileNode) :
  deleteNode nm p fs = Some t -> wellNamed fs -> wellNamed t.
Proof.
  intros Hd Hfs.
  destruct (deleteNode_mutateAt _ _ _ _ Hd) as [parent [cs [Hw [Hc Hm]]]].
  apply (mutateAt_wellNamed _ _ _ _ (keepsName_withChildren _) Hm Hfs).
  intros n Hn. assert (n = parent) by congruence. subst n. split.
  - intros cs' Hty Hcs. simpl in Hty, Hcs. injection Hcs as <-.
    destruct (Hfs _ parent cs Hw Hty Hc) as [Hnd Hpl].
    split; [apply NoDup_names_filter; exact Hnd | apply Forall_filter; exact Hpl].
  - intros a r d' Hw' _. simpl in Hw'. simpl. rewrite Hc.
    destruct (type parent); [discriminate|].
    destruct (string_dec a nm) as [->|Hne].
    + rewrite findChild_filter_same in Hw'. discriminate.
    + rewrite findChild_filter_other in Hw' by exact Hne. exact Hw'.
Qed.

Lemma appendClone_wellNamed (node fs : FileNode) :
  type node = FILE -> plainName (name node) ->
  wellNamed fs -> wellNamed (appendClone node fs).
Proof.
  intros Hty Hplain Hfs. unfold appendClone.
  destruct (findNode homeUser fs) as [intake|] eqn:Ei; [|exact Hfs].
  destruct (children intake) as [cs|] eqn:Ec; [|exact Hfs].
  destruct (findChild (name node) cs) eqn:En; [exact Hfs|].
  destruct (updateFileSystemNode _ _ fs) as [t|] eqn:Eu; [|exact Hfs].
  rewrite updateFileSystemNode_mutateAt in Eu.
  apply (mutateAt_wellNamed _ _ _ _
           (keepsName_assign
              (childrenPatch (cs ++ [assign node evidencePatch])) eq_refl) Eu Hfs).
  intros n Hn. rewrite findNode_walk in Ei.
  assert (n = intake) by congruence. subst n. split.
  - intros cs' Hity Hcs. simpl in Hity, Hcs. injection Hcs as <-.
    destruct (Hfs _ intake cs Ei Hity Ec) as [Hnd Hpl].
    split.
    + rewrite map_app. simpl.
      apply NoDup_app; [exact Hnd | repeat constructor; intros [] |].
      intros x Hx [<-|[]]. apply findChild_none in En. contradiction.
    + apply Forall_app. split; [exact Hpl|]. repeat constructor; apply Hplain.
  - intros a r d' Hw Hd'. simpl in Hw. simpl. rewrite Ec.
    destruct (type intake); [discriminate|].
    rewrite findChild_app in Hw.
    destruct (findChild a cs) as [c|]; [exact Hw|].
    exfalso. unfold findChild in Hw. simpl in Hw.
    destruct (name node =? a); [|discriminate].
    destruct r as [|a' r].
    + simpl in Hw. injection Hw as <-. simpl in Hd'. congruence.
    + rewrite walk_file in Hw by exact Hty. discriminate.
Qed.

(** In a tree of plain names, the nodes below the root have plain names. *)
Lemma walk_plain (fs : FileNode) (q : Path) (x : string) (f : FileNode) :
  wellNamed fs -> walk (q ++ [x]) fs = Some f -> plainName (name f).
Proof.
  intros Hfs Hw. rewrite walk_app in Hw.
  destruct (walk q fs) as [par|] eqn:Ep; [|discriminate].
  simpl in Hw. destruct (type par) eqn:Ety; [discriminate|].
  destruct (children par) as [cs|] eqn:Ecs; [|discriminate].
  destruct (findChild x cs) as [c|] eqn:Ec; [|discriminate].
  injection Hw as <-.
  destruct (Hfs q par cs Ep Ety Ecs) as [_ Hpl].
  rewrite Forall_forall in Hpl. apply Hpl. apply (findChild_In _ _ _ Ec).
Qed.

Variables (s acc : App).
Hypothesis same : treeAndLedger acc = treeAndLedger s.
Hypothesis here : inDirectory s.
Hypothesis named : wellNamed (fileSystem s).

Lemma child_plain (nm : string) (f : FileNode) :
  childOf (findNode (currentPath s) (fileSystem s)) nm = Some f ->
  plainName (name f).
Proof.
  unfold inDirectory in here. apply isA_true in here.
  destruct here as [cur [Hcur Hcty]]. rewrite Hcur. unfold childOf.
  destruct (children cur) as [cs|] eqn:Ecs; [|discriminate].
  intro Hf. rewrite findNode_walk in Hcur.
  destruct (named _ cur cs Hcur Hcty Ecs) as [_ Hpl].
  rewrite Forall_forall in Hpl. apply Hpl. apply (findChild_In _ _ _ Hf).
Qed.

Lemma catLookup_plain (a0 : string) (f : FileNode) :
  catLookup s a0 = Some f -> type f = FILE -> plainName (name f).
Proof.
  unfold catLookup. intros Hl Hty.
  destruct (isA FILE _) eqn:E.
  - destruct (resolvePath a0 (currentPath s)) as [tp|]; [|discriminate].
    rewrite findNode_walk in Hl.
    destruct (skipRoot tp) as [|x q] using rev_ind.
    + simpl in Hl. injection Hl as <-.
      rewrite (inDirectory_root s here) in Hty. discriminate.
    + apply (walk_plain _ _ _ _ named Hl).
  - apply (child_plain a0 f Hl).
Qed.

Lemma case_cd_wellNamed (args : list string) :
  wellNamed (fileSystem (case_cd s args acc)).
Proof.
  pose proof (same_fileSystem _ _ same) as Hfs.
  unfold case_cd.
  by_cases; rewrite ?Hfs; try exact named.
  all: eapply patch_wellNamed; [left; reflexivity | eassumption | exact named].
Qed.

Lemma case_cat_wellNamed (args : list string) :
  wellNamed (fileSystem (case_cat s args acc)).
Proof.
  change (fileSystem (case_cat s args acc))
    with (fst (treeAndLedger (case_cat s args acc))).
  rewrite (case_cat_treeAndLedger s acc same).
  destruct (catLookup s (arg 0 args)) as [f|] eqn:El; [|exact named].
  match goal with
  | |- context [if ?c then _ else _] => destruct c eqn:E
  end; [|exact named].
  repeat (apply andb_prop in E; destruct E as [E ?]).
  assert (Hty : type f = FILE) by (destruct (type f); [reflexivity | discriminate]).
  apply appendClone_wellNamed; [exact Hty | | exact named].
  apply (catLookup_plain _ _ El Hty).
Qed.

Lemma case_search_wellNamed (args : list string) :
  wellNamed (fileSystem (case_search s args acc)).
Proof.
  change (fileSystem (case_search s args acc))
    with (fst (treeAndLedger (case_search s args acc))).
  rewrite (case_search_treeAndLedger s acc same).
  destruct (childOf _ _) as [found|] eqn:Ec; [|exact named].
  destruct (negb (arg 0 args =? "") && Js.truthyB (isHidden found));
    [|exact named].
  pose proof (child_plain _ _ Ec) as Hplain.
  assert (Hc : forall heap found1,
             wellNamed heap -> name found1 = name found ->
             wellNamed
               (fst (if negb (Js.truthyS (password found1))
                        && FileType_eqb (type found1) FILE
                        && negb (Js.truthyS (scriptAction found1))
                        && Js.truthyB (isEvidence found1)
                        && negb (Js.has (name found1) (evidenceCollected s))
                     then (appendClone found1 heap,
                           Js.add (name found1) (evidenceCollected s))
                     else (heap, evidenceCollected s)))).
  { intros heap found1 Hheap Hname.
    match goal with
    | |- context [if ?c then _ else _] => destruct c eqn:E
    end; [|exact Hheap].
    repeat (apply andb_prop in E; destruct E as [E ?]).
    apply appendClone_wellNamed; [| rewrite Hname; exact Hplain | exact Hheap].
    destruct (type found1); [reflexivity | discriminate]. }
  destruct (updateFileSystemNode _ revealPatch _) as [t|] eqn:Eu.
  - apply Hc; [|reflexivity].
    eapply patch_wellNamed; [right; reflexivity | exact Eu | exact named].
  - apply Hc; [exact named | reflexivity].
Qed.

Lemma case_rm_wellNamed (args : list string) :
  wellNamed (fileSystem (case_rm s args acc)).
Proof.
  pose proof (same_fileSystem _ _ same) as Hfs.
  unfold case_rm.
  by_cases; rewrite ?Hfs; try exact named.
  all: eapply delete_wellNamed; [eassumption | exact named].
Qed.

Lemma dispatch_wellNamed (cmd : string) (args : list string) :
  wellNamed (fileSystem (dispatch s cmd args acc)).
Proof.
  pose proof (same_fileSystem _ _ same) as Hfs.
  assert (Hsame : forall r, fileSystem r = fileSystem acc -> wellNamed (fileSystem r)).
  { intros r E. rewrite E, Hfs. exact named. }
  unfold dispatch.
  destruct (cmd =? "help"); [apply Hsame; reflexivity|].
  destruct (cmd =? "ls"); [apply Hsame; unfold case_ls; by_cases|].
  destruct (cmd =? "cd"); [apply case_cd_wellNamed|].
  destruct (cmd =? "cat"); [apply case_cat_wellNamed|].
  destruct (cmd =? "search"); [apply case_search_wellNamed|].
  destruct (cmd =? "rm"); [apply case_rm_wellNamed|].
  destruct (_ || _); [|apply Hsame; reflexivity].
  apply Hsame; unfold case_script;
    by_cases; rewrite ?executeScript_fileSystem; reflexivity.
Qed.

End Names.

Lemma step_wellNamed (e : Event) (a : App) :
  inDirectory a -> wellNamed (fileSystem a) -> wellNamed (fileSystem (step e a)).
Proof.
  intros Hd Hn. destruct e as [cmdStr|id|pathStr]; simpl.
  - unfold handleCommand. destruct (tokens cmdStr) as [|cmd args]; [exact Hn|].
    unfold runCommand. apply dispatch_wellNamed; [reflexivity | exact Hd | exact Hn].
  - rewrite (same_fileSystem _ _ (fireTimer_treeAndLedger id a)). exact Hn.
  - rewrite (same_fileSystem _ _ (navigate_treeAndLedger pathStr a)). exact Hn.
Qed.

(** A click the panel offers leads to a directory. *)
Lemma click_here (pathStr : string) (a : App) :
  wellNamed (fileSystem a) -> offered a (Navigated pathStr) ->
  inDirectory (handleTreeNavigate pathStr a).
Proof.
  intros Hn [r [Hin [Hty [Hd <-]]]].
  destruct (rows_reach _ _ _ Hn (fileSystem a) [] 0 r eq_refl (Forall_nil _) Hin)
    as [q [Hw [Hq Hpath]]].
  rewrite Hpath, (navigate_plain q a Hq).
  unfold inDirectory. simpl. rewrite findNode_walk. simpl skipRoot.
  rewrite Hw. simpl. rewrite Hty. reflexivity.
Qed.

(** X18.  Names stay distinct and plain, and the current path leads to a
    directory, clicks included.  Start in a directory of a tree in which,
    below every directory, the names are distinct, not empty and without
    a slash.  After any run in which the clicks are those the panel
    offers (a double click on the row of an opened directory), the tree
    still has such names, and the current path still leads to a
    directory: no command, timeout or click takes the player to a file or
    to a path that does not exist. *)
Theorem names_stay_plain (es : list Event) (a : App) :
  wellNamed (fileSystem a) -> inDirectory a -> played es a ->
  wellNamed (fileSystem (steps es a)) /\ inDirectory (steps es a).
Proof.
  revert a. induction es as [|e es IH]; intros a Hn Hd Hp; [auto|].
  destruct Hp as [Ho Hp]. rewrite steps_cons. apply IH.
  - apply step_wellNamed; assumption.
  - destruct e as [cmdStr|id|pathStr].
    + apply step_here; [discriminate | exact Hd].
    + apply step_here; [discriminate | exact Hd].
    + apply click_here; assumption.
  - exact Hp.
Qed.

Lemma names_stay_plain_witness :
  let es :=
    [Typed "cd data"; Typed "ls"; Typed "cat 证据_4.txt"; Typed "cd /home/user";
     Navigated "/data"; Typed "search ghost"; Navigated "/"; Typed "cd home"] in
  currentPath (steps es Demo.start) = [""; "home"] /\
  wellNamed (fileSystem (steps es Demo.start)) /\
  inDirectory (steps es Demo.start).
Proof.
  intro es. split; [vm_compute; reflexivity|].
  apply (names_stay_plain es Demo.start).
  - apply namedOk_wellNamed. vm_compute. reflexivity.
  - reflexivity.
  - repeat split.
    + match goal with
      | |- offered ?st _ =>
          let row := eval vm_compute in
                       (nth 2 (sidebar st) (mkRow Demo.root "" 0 false false)) in
          exists row
      end.
      split; [vm_compute; do 2 right; left; reflexivity | repeat split].
    + match goal with
      | |- offered ?st _ =>
          let row := eval vm_compute in
                       (nth 0 (sidebar st) (mkRow Demo.root "" 0 false false)) in
          exists row
      end.
      split; [vm_compute; left; reflexivity | repeat split].
Defined.

(* ================================================================= *)
(** ** Updating a node and finding it again *)

Lemma mutateAt_none (f : FileNode -> FileNode) (q : Path) (root : FileNode) :
  walk q root = None -> mutateAt q f root = None.
Proof.
  revert root. induction q as [|b q IH]; intro root; simpl; [discriminate|].
  destruct (type root); [reflexivity|].
  destruct (children root) as [cs|]; [|reflexivity].
  destruct (findChild b cs) as [c|]; [|reflexivity].
  intro H. rewrite (IH _ H). reflexivity.
Qed.

(** X1.  [updateFileSystemNode] and [findNode].  When [findNode] finds nothing
    at the path, nothing is updated and no new tree is set.  When it finds
    a node, a tree is set, and [findNode] at the same path of the new tree
    yields that node with the updates assigned, provided the updates leave
    the name alone; the type, the children and the other fields not named
    in the updates are those of the old node. *)
Theorem update_then_find (p : Path) (updates : Partial) (fs : FileNode) :
  (findNode p fs = None -> updateFileSystemNode p updates fs = None) /\
  (forall n, findNode p fs = Some n ->
     exists t, updateFileSystemNode p updates fs = Some t /\
               (p_name updates = None ->
                findNode p t = Some (assign n updates))).
Proof.
  split.
  - rewrite findNode_walk, updateFileSystemNode_mutateAt. apply mutateAt_none.
  - intros n Hn.
    assert (Hex : exists t, updateFileSystemNode p updates fs = Some t).
    { rewrite updateFileSystemNode_mutateAt. rewrite findNode_walk in Hn.
      apply (mutateAt_some _ _ _ _ Hn). }
    destruct Hex as [t Ht]. exists t. split; [exact Ht|].
    intro Hname.
    apply (findNode_mutateAt_self (fun target => assign target updates) p fs t n).
    + apply keepsName_assign. exact Hname.
    + exact Hn.
    + exact Ht.
Qed.

(* ================================================================= *)
(** ** Restarting from the checkpoint *)

Section Restart.

Local Open Scope list_scope.

Lemma newSet_from (l acc : list string) :
  NoDup (acc ++ l) -> fold_left (fun set x => Js.add x set) l acc = acc ++ l.
Proof.
  revert acc. induction l as [|x l IH]; intros acc H; simpl.
  - rewrite app_nil_r. reflexivity.
  - assert (Hx : Js.has x acc = false).
    { apply has_false. intro Hin. apply NoDup_remove_2 in H.
      apply H. apply in_or_app. left. exact Hin. }
    unfold Js.add at 2. rewrite Hx.
    rewrite IH; rewrite <- app_assoc; [reflexivity | exact H].
Qed.

(** A set that goes through [Array.from] and [new Set] comes back. *)
Lemma newSet_NoDup (l : list string) : NoDup l -> Js.newSet l = l.
Proof. intro H. apply (newSet_from l [] H). Qed.

Lemma step_checkpoint (e : Event) (a : App) :
  (forall cmdStr, e <> Typed cmdStr) -> checkpoint (step e a) = checkpoint a.
Proof.
  intro Hno. destruct e as [cmdStr|id|pathStr]; simpl.
  - exfalso. apply (Hno cmdStr). reflexivity.
  - unfold fireTimer, runCallback. by_cases.
  - unfold handleTreeNavigate. by_cases.
Qed.

Lemma steps_checkpoint (es : list Event) (a : App) :
  noTyping es -> checkpoint (steps es a) = checkpoint a.
Proof.
  revert a. induction es as [|e es IH]; intros a Hno; [reflexivity|].
  rewrite steps_cons, IH.
  - apply step_checkpoint. intros cmdStr ->. apply (Hno cmdStr). left. reflexivity.
  - intros cmdStr Hin. apply (Hno cmdStr). right. exact Hin.
Qed.

End Restart.

(** X13.  The restart button rewinds to the moment the script was typed.  The
    disguise script is started from the prompt with six names or more in
    the ledger, and then only timeouts fire and rows are clicked (as on an
    ending screen, where nothing can be typed).  If the storage took the
    checkpoint, [restoreFromCheckpoint] brings back the tree, the current
    path, the discovered paths and the ledger as they were when the line
    was typed, and the phase PLAYING; the transcript is the one from before
    the line was typed, so the line itself and everything printed since
    are gone.  If the storage refused it, the checkpoint is the one that
    was there before, and with none there the button does nothing. *)
Theorem restart_rewinds (s : App) (cmdStr : string) (args : list string)
  (node : FileNode) (es : list Event) :
  childOf (findNode (currentPath s) (fileSystem s)) "伪装.sh" = Some node ->
  scriptAction node = Some "DISGUISE_SCRIPT" ->
  6 <= Js.size (evidenceCollected s) ->
  noTyping es ->
  let ended := steps es (runCommand cmdStr "./伪装.sh" args s) in
  let r := restoreFromCheckpoint ended in
  (storageWritable s = true ->
   NoDup (discoveredPaths s) -> NoDup (evidenceCollected s) ->
     fileSystem r = fileSystem s /\ currentPath r = currentPath s /\
     history r = history s /\ discoveredPaths r = discoveredPaths s /\
     evidenceCollected r = evidenceCollected s /\ gameState r = PLAYING /\
     bootSequence r = bootSequence s) /\
  (storageWritable s = false ->
     checkpoint ended = checkpoint s /\
     (checkpoint s = None -> r = ended)).
Proof.
  intros Hn Ha Hsize Hno ended r.
  assert (Hcp : checkpoint ended
                = checkpoint (saveCheckpoint s (fileSystem s)
                                (addToHistory s system msgPacking
                                   (addToHistory s input cmdStr s)))).
  { unfold ended. rewrite (steps_checkpoint _ _ Hno).
    rewrite (run_disguise_command s cmdStr args node Hn Ha).
    rewrite (disguise_started _ _ _ _ Hsize). reflexivity. }
  unfold saveCheckpoint in Hcp. simpl storageWritable in Hcp.
  split.
  - intros Hw Hd He. rewrite Hw in Hcp. simpl in Hcp.
    unfold r, restoreFromCheckpoint. rewrite Hcp. simpl.
    rewrite (newSet_NoDup _ Hd), (newSet_NoDup _ He). repeat split.
  - intros Hw. rewrite Hw in Hcp. simpl in Hcp.
    split; [exact Hcp|]. intro Hnone.
    unfold r, restoreFromCheckpoint. rewrite Hcp, Hnone. reflexivity.
Qed.

Lemma restart_rewinds_witness :
  let full :=
    Demo.run ["cd data"; "cat 证据_1.txt"; "cat 陈冰-刘青原"; "cat 证据_3.txt";
              "cat 证据_5.txt"; "cat 证据_6.txt"; "cat 证据_8.txt"; "cd /"]
      Demo.start in
  let ended := steps [Fired 0] (runCommand "./伪装.sh" "./伪装.sh" [] full) in
  gameState ended = WIN /\
  history (restoreFromCheckpoint ended) = history full /\
  gameState (restoreFromCheckpoint ended) = PLAYING.
Proof.
  intros full ended.
  split; [vm_compute; reflexivity|].
  destruct (restart_rewinds full "./伪装.sh" []
              (Demo.script "DISGUISE_SCRIPT" (Demo.file "伪装.sh" "#!/bin/sh"))
              [Fired 0]) as [H _].
  - vm_compute. reflexivity.
  - reflexivity.
  - apply Nat.leb_le. vm_compute. reflexivity.
  - intros c [H|[]]. discriminate H.
  - destruct H as [_ [_ [Hh [_ [_ [Hg _]]]]]].
    + vm_compute. reflexivity.
    + apply distinct_NoDup. vm_compute. reflexivity.
    + apply distinct_NoDup. vm_compute. reflexivity.
    + split; [exact Hh | exact Hg].
Defined.

(* ================================================================= *)
(** ** Scripts run through cat *)

Lemma executeScript_args (s acc : App) (heap : FileNode) (action : string)
  (args args' : list string) :
  executeScript s heap action args acc = executeScript s heap action args' acc.
Proof. reflexivity. Qed.

(** The lookup of [cat] for a plain name in the current directory. *)
Lemma catLookup_child (s : App) (nm : string) (sc : FileNode) :
  nm <> "" ->
  resolvePath nm (currentPath s) = Some (currentPath s ++ [nm])%list ->
  childOf (findNode (currentPath s) (fileSystem s)) nm = Some sc ->
  type sc = FILE ->
  catLookup s nm = Some sc.
Proof.
  intros Hnm Hres Hc Hty. unfold catLookup. rewrite Hres, Hc.
  destruct (isA FILE (findNode (currentPath s ++ [nm])%list (fileSystem s))) eqn:E;
    [|reflexivity].
  apply isA_true in E. destruct E as [f [Hf _]]. rewrite Hf.
  rewrite findNode_walk, skipRoot_snoc, walk_app in Hf by exact Hnm.
  rewrite findNode_walk in Hc.
  destruct (walk (skipRoot (currentPath s)) (fileSystem s)) as [cur|];
    [|discriminate].
  simpl in Hf, Hc. destruct (type cur); [discriminate|].
  destruct (children cur) as [cs|]; [|discriminate].
  destruct (findChild nm cs); congruence.
Qed.

(** X6.  [cat] runs scripts.  When the file [cat] finds is visible, is no
    uncollected evidence and carries a script action, [cat] does not print
    its content: it runs the script, as the command [./name] does.  For
    the three script names the interpreter knows and a script in the
    current directory, [cat name] and [./name] queue the very same state
    (the echoed line apart, which is written before). *)
Theorem cat_runs_the_script (s acc : App) (sc : FileNode) :
  type sc = FILE ->
  Js.truthyB (isHidden sc) = false ->
  Js.truthyB (isEvidence sc) && negb (Js.has (name sc) (evidenceCollected s)) = false ->
  Js.truthyS (scriptAction sc) = true ->
  (forall a0 rest,
     a0 <> "" -> catLookup s a0 = Some sc ->
     dispatch s "cat" (a0 :: rest) acc
     = executeScript s (fileSystem s) (Js.orElse (scriptAction sc) "") (a0 :: rest) acc) /\
  (forall nm rest args,
     nm = "伪装.sh" \/ nm = "报警.sh" \/ nm = "seconddemo.sh" ->
     childOf (findNode (currentPath s) (fileSystem s)) nm = Some sc ->
     dispatch s "cat" (nm :: rest) acc = dispatch s ("./" ++ nm) args acc).
Proof.
  intros Hty Hh He Hs.
  assert (Hcat : forall a0 rest,
            a0 <> "" -> catLookup s a0 = Some sc ->
            dispatch s "cat" (a0 :: rest) acc
            = executeScript s (fileSystem s) (Js.orElse (scriptAction sc) "")
                (a0 :: rest) acc).
  { intros a0 rest Ha Hl.
    change (dispatch s "cat" (a0 :: rest) acc) with (case_cat s (a0 :: rest) acc).
    unfold case_cat. rewrite arg0_cons, (String_eqb_false _ _ Ha), Hl, Hty, Hh, He, Hs.
    reflexivity. }
  split; [exact Hcat|].
  intros nm rest args Hnm Hc.
  rewrite Hcat.
  - destruct Hnm as [->|[->| ->]];
      (match goal with
       | |- _ = dispatch s ?c args acc =>
           change (dispatch s c args acc) with (case_script s c args acc)
       end;
       unfold case_script;
       match goal with
       | |- context [Js.replace "./" "" ?c] =>
           let v := eval vm_compute in (Js.replace "./" "" c) in
           change (Js.replace "./" "" c) with v
       end;
       rewrite Hc, Hs; reflexivity).
  - destruct Hnm as [->|[->| ->]]; discriminate.
  - apply catLookup_child; try assumption.
    + destruct Hnm as [->|[->| ->]]; discriminate.
    + destruct Hnm as [->|[->| ->]]; reflexivity.
Qed.

Lemma cat_runs_the_script_witness :
  dispatch Demo.start "cat" ["伪装.sh"] Demo.start
  = dispatch Demo.start "./伪装.sh" [] Demo.start /\
  history (dispatch Demo.start "cat" ["伪装.sh"] Demo.start)
  = [mkLine output msgIncomplete None].
Proof.
  split; [|vm_compute; reflexivity].
  destruct (cat_runs_the_script Demo.start Demo.start
              (Demo.script "DISGUISE_SCRIPT" (Demo.file "伪装.sh" "#!/bin/sh")))
    as [_ H].
  - reflexivity.
  - reflexivity.
  - reflexivity.
  - reflexivity.
  - apply (H "伪装.sh" [] []); [left; reflexivity | reflexivity].
Defined.

(* ================================================================= *)
(** ** Words the interpreter does not know *)

(** X5.  An unknown command only prints.  When the first word of the line is
    none of help, ls, cd, cat, search, rm and the three script commands
    (the comparison is exact, so LS or ./other.sh are unknown), the
    command adds two lines to the transcript, the echoed input and
    "Command not found" with the word, and changes nothing else: the tree,
    the current path, the ledger, the discovered paths, the phase, the
    checkpoint and the pending timeouts are as before. *)
Theorem unknown_command_only_prints (s : App) (cmdStr cmd : string)
  (args : list string) :
  ~ In cmd ["help"; "ls"; "cd"; "cat"; "search"; "rm";
            "./伪装.sh"; "./报警.sh"; "./seconddemo.sh"] ->
  let r := runCommand cmdStr cmd args s in
  r = setHistory
        (fun prev =>
           (prev ++ [mkLine input cmdStr (Some (getPathString (currentPath s)));
                     mkLine output ("Command not found: " ++ cmd) None])%list) s /\
  fileSystem r = fileSystem s /\ currentPath r = currentPath s /\
  evidenceCollected r = evidenceCollected s /\
  discoveredPaths r = discoveredPaths s /\ gameState r = gameState s /\
  checkpoint r = checkpoint s /\ timers r = timers s.
Proof.
  intros Hno r.
  assert (E : r = setHistory
                    (fun prev =>
                       (prev ++ [mkLine input cmdStr (Some (getPathString (currentPath s)));
                                 mkLine output ("Command not found: " ++ cmd) None])%list) s).
  { subst r. unfold runCommand, dispatch.
    repeat match goal with
           | |- context [cmd =? ?c] =>
               rewrite (String_eqb_false cmd c)
                 by (intros ->; apply Hno; simpl; tauto)
           end.
    unfold addToHistory, setHistory, msgNoCommand. simpl.
    rewrite <- app_assoc. reflexivity. }
  rewrite E. simpl. repeat split.
Qed.

Lemma unknown_command_only_prints_witness :
  history (runCommand "LS  -l" "LS" ["-l"] Demo.start)
  = [mkLine input "LS  -l" (Some "/"); mkLine output "Command not found: LS" None].
Proof.
  destruct (unknown_command_only_prints Demo.start "LS  -l" "LS" ["-l"]) as [E _].
  - intros H. simpl in H.
    repeat (destruct H as [H|H]; [discriminate H|]). exact H.
  - rewrite E. reflexivity.
Defined.

(* ================================================================= *)
(** ** Cutting a line into words *)

Section Tokens.

Local Open Scope list_scope.

Lemma startsWith_length (w s : string) :
  Js.startsWith w s = true -> String.length w <= String.length s.
Proof.
  revert s. induction w as [|c w IH]; intros s H; simpl; [lia|].
  destruct s as [|d s]; [discriminate|].
  simpl in H. apply andb_prop in H. destruct H as [_ H].
  apply IH in H. simpl. lia.
Qed.

Lemma whiteSpaceAt_le (s : string) : whiteSpaceAt s <= String.length s.
Proof.
  unfold whiteSpaceAt.
  destruct (find _ whiteSpace) as [w|] eqn:E; [|lia].
  apply find_some in E. apply startsWith_length. tauto.
Qed.

Lemma find_ext_in {A} (f g : A -> bool) (l : list A) :
  (forall x, In x l -> f x = g x) -> find f l = find g l.
Proof.
  induction l as [|x l IH]; intro H; simpl; [reflexivity|].
  rewrite (H x) by (left; reflexivity).
  destruct (g x); [reflexivity|]. apply IH. intros y Hy. apply H. right. exact Hy.
Qed.

Variable b : string.

(** A pattern without a space matches in front of the space or not at
    all. *)
Lemma startsWith_before_space (w x : string) :
  noSpace w = true ->
  Js.startsWith w (x ++ String " " b) = Js.startsWith w x.
Proof.
  revert x. induction w as [|c w IH]; intros x H; [reflexivity|].
  simpl in H. apply andb_prop in H. destruct H as [Hc Hw].
  apply negb_true_iff in Hc.
  destruct x as [|d x]; simpl.
  - rewrite Hc. reflexivity.
  - rewrite (IH x Hw). reflexivity.
Qed.

Lemma whiteSpace_tails :
  forallb (fun w => match w with
                    | EmptyString => true
                    | String _ w' => noSpace w'
                    end) whiteSpace = true.
Proof. vm_compute. reflexivity. Qed.

Lemma whiteSpaceAt_before_space (c : ascii) (x : string) :
  whiteSpaceAt (String c x ++ String " " b) = whiteSpaceAt (String c x).
Proof.
  unfold whiteSpaceAt.
  rewrite (find_ext_in (fun w => Js.startsWith w (String c x ++ String " " b))
             (fun w => Js.startsWith w (String c x))); [reflexivity|].
  intros w Hw.
  pose proof (proj1 (forallb_forall _ _) whiteSpace_tails w Hw) as Ht.
  destruct w as [|d w]; [reflexivity|].
  simpl. rewrite (startsWith_before_space w x Ht). reflexivity.
Qed.

Lemma scan_before_space (a : string) :
  forall skip, skip <= String.length a ->
    scan skip (a ++ String " " b) = scan skip a ++ None :: scan 0 b.
Proof.
  induction a as [|c a IH]; intros skip Hk.
  - simpl in Hk. assert (skip = 0) by lia. subst skip. reflexivity.
  - destruct skip as [|k].
    + change (scan 0 (String c a ++ String " " b))
        with (match whiteSpaceAt (String c a ++ String " " b) with
              | O => Some c :: scan 0 (a ++ String " " b)
              | S k => None :: scan k (a ++ String " " b)
              end).
      change (scan 0 (String c a))
        with (match whiteSpaceAt (String c a) with
              | O => Some c :: scan 0 a
              | S k => None :: scan k a
              end).
      rewrite whiteSpaceAt_before_space.
      pose proof (whiteSpaceAt_le (String c a)) as Hle.
      destruct (whiteSpaceAt (String c a)) as [|k].
      * rewrite IH by lia. reflexivity.
      * simpl in Hle. rewrite IH by lia. reflexivity.
    + simpl in Hk. simpl. apply IH. lia.
Qed.

Lemma words_some (c : ascii) (l : list (option ascii)) : words (Some c :: l) <> [].
Proof.
  simpl. destruct l as [|[d|] l]; try discriminate.
  destruct (words (Some d :: l)); discriminate.
Qed.

Lemma words_app_none (l1 l2 : list (option ascii)) :
  words (l1 ++ None :: l2) = words l1 ++ words l2.
Proof.
  induction l1 as [|[c|] l1 IH]; [reflexivity| |exact IH].
  destruct l1 as [|[d|] l1].
  - reflexivity.
  - change (words ((Some c :: Some d :: l1) ++ None :: l2))
      with (match words ((Some d :: l1) ++ None :: l2) with
            | w :: ws => String c w :: ws
            | [] => [String c EmptyString]
            end).
    change (words (Some c :: Some d :: l1))
      with (match words (Some d :: l1) with
            | w :: ws => String c w :: ws
            | [] => [String c EmptyString]
            end).
    rewrite IH. pose proof (words_some d l1) as Hne.
    destruct (words (Some d :: l1)) as [|w ws]; [contradiction | reflexivity].
  - change (words ((Some c :: None :: l1) ++ None :: l2))
      with (String c EmptyString :: words ((None :: l1) ++ None :: l2)).
    rewrite IH. reflexivity.
Qed.

End Tokens.

Lemma scan_whiteSpace (w rest : string) :
  In w whiteSpace -> words (scan 0 (w ++ rest)) = words (scan 0 rest).
Proof.
  intro H. vm_compute in H.
  repeat (destruct H as [<-|H]; [reflexivity|]). destruct H.
Qed.

(** X4.  Spaces only separate.  The words of a line are those in front of a
    space followed by those behind it; so spaces in front of the command,
    after it, or repeated between two words change neither the command nor
    its arguments.  A line that consists of white space only (spaces,
    tabs, and the other characters [trim] removes) has no words, and
    [handleCommand] ignores it: nothing is echoed and nothing changes. *)
Theorem spaces_only_separate :
  (forall a b, tokens (a ++ " " ++ b) = (tokens a ++ tokens b)%list) /\
  (forall ws s,
     Forall (fun w => In w whiteSpace) ws ->
     tokens (String.concat "" ws) = [] /\
     handleCommand (String.concat "" ws) s = s).
Proof.
  split.
  - intros a b. unfold tokens.
    change (a ++ " " ++ b) with (a ++ String " " b).
    rewrite scan_before_space by lia. apply words_app_none.
  - intros ws s H.
    assert (E : tokens (String.concat "" ws) = []).
    { unfold tokens. induction H as [|w ws Hw _ IH]; [reflexivity|].
      destruct ws as [|w' ws'].
      - simpl String.concat. rewrite <- (append_empty_r w).
        rewrite (scan_whiteSpace w "" Hw). reflexivity.
      - change (String.concat "" (w :: w' :: ws'))
          with (w ++ "" ++ String.concat "" (w' :: ws')).
        change ("" ++ String.concat "" (w' :: ws'))
          with (String.concat "" (w' :: ws')).
        rewrite (scan_whiteSpace w _ Hw). exact IH. }
    split; [exact E|]. unfold handleCommand. rewrite E. reflexivity.
Qed.

(* ================================================================= *)
(** ** Removing a piece of evidence and collecting it again *)

Section Recollect.

Local Open Scope list_scope.

(** [rm] of a child of the intake directory, typed there. *)
Lemma rm_in_intake (s : App) (cmdStr nm : string) (rest : list string)
  (home old : FileNode) (cs : list FileNode) :
  nm <> "" -> currentPath s = homeUser ->
  findNode homeUser (fileSystem s) = Some home -> children home = Some cs ->
  findChild nm cs = Some old ->
  let removed := runCommand cmdStr "rm" (nm :: rest) s in
  currentPath removed = homeUser /\
  evidenceCollected removed = Js.delete nm (evidenceCollected s) /\
  findNode homeUser (fileSystem removed)
  = Some (withChildren (Some (filter (fun c => negb (name c =? nm)) cs)) home).
Proof.
  intros Hnm Hcp Hhome Hcs Hold removed. subst removed.
  rewrite run_rm. unfold case_rm.
  rewrite arg0_cons, (String_eqb_false _ _ Hnm), Hcp.
  change (getPathString homeUser =? "/home/user") with true.
  simpl negb. cbv iota zeta. rewrite Hhome. unfold childOf. rewrite Hcs, Hold.
  destruct (deleteNode_spec nm homeUser (fileSystem s) home cs Hhome Hcs)
    as [t [Ht Hfind]].
  rewrite Ht.
  destruct (Js.has nm (evidenceCollected s)) eqn:E; simpl.
  - rewrite Hcp. auto.
  - rewrite Hcp. split; [reflexivity|]. split; [|exact Hfind].
    symmetry. apply delete_absent. exact E.
Qed.

(** [cat] of a visible piece of evidence that is not in the ledger. *)
Lemma cat_collects (s : App) (cmdStr target : string) (rest : list string)
  (ev : FileNode) :
  target <> "" -> catLookup s target = Some ev -> type ev = FILE ->
  Js.truthyB (isHidden ev) = false -> Js.truthyB (isEvidence ev) = true ->
  Js.has (name ev) (evidenceCollected s) = false ->
  treeAndLedger (runCommand cmdStr "cat" (target :: rest) s)
  = (appendClone ev (fileSystem s), Js.add (name ev) (evidenceCollected s)).
Proof.
  intros Ht Hl Hty Hh He Hnot. rewrite run_cat.
  rewrite (case_cat_treeAndLedger s (addToHistory s input cmdStr s) eq_refl).
  rewrite arg0_cons, Hl, (String_eqb_false _ _ Ht), Hty, Hh, He, Hnot.
  reflexivity.
Qed.

End Recollect.

(** X7.  [rm] makes a piece of evidence collectable again.  In /home/user, [rm]
    of a child takes its name out of the ledger and the child out of the
    directory; when [cat] then shows a visible piece of evidence of that
    name, the name is in the ledger again and /home/user holds the copy of
    the piece, with [isEvidence] false, after the children it had kept. *)
Theorem rm_then_cat_collects_again (s : App) (line1 line2 nm target : string)
  (home old ev : FileNode) (cs : list FileNode) :
  nm <> "" -> target <> "" ->
  currentPath s = homeUser ->
  findNode homeUser (fileSystem s) = Some home -> children home = Some cs ->
  findChild nm cs = Some old ->
  let removed := runCommand line1 "rm" [nm] s in
  catLookup removed target = Some ev ->
  type ev = FILE -> Js.truthyB (isHidden ev) = false ->
  Js.truthyB (isEvidence ev) = true -> name ev = nm ->
  let again := runCommand line2 "cat" [target] removed in
  (Js.has nm (evidenceCollected removed) = false /\
   childOf (findNode homeUser (fileSystem removed)) nm = None) /\
  (Js.has nm (evidenceCollected again) = true /\
   childOf (findNode homeUser (fileSystem again)) nm
   = Some (assign ev evidencePatch) /\
   childNames (findNode homeUser (fileSystem again))
   = (map name (filter (fun c => negb (name c =? nm)) cs) ++ [nm])%list).
Proof.
  intros Hnm Ht Hcp Hhome Hcs Hold removed Hl Hty Hh He Hname again.
  destruct (rm_in_intake s line1 nm [] home old cs Hnm Hcp Hhome Hcs Hold)
    as [Hcp' [Hledger Hfind]].
  fold removed in Hcp', Hledger, Hfind.
  assert (Hgone : Js.has nm (evidenceCollected removed) = false)
    by (rewrite Hledger; apply has_delete).
  split.
  - split; [exact Hgone|]. rewrite Hfind. simpl. apply findChild_filter_same.
  - assert (Hnot : Js.has (name ev) (evidenceCollected removed) = false)
      by (rewrite Hname; exact Hgone).
    pose proof (cat_collects removed line2 target [] ev Ht Hl Hty Hh He Hnot) as E.
    fold again in E.
    destruct (collectEvidence_first ev (fileSystem removed) _ _
                (evidenceCollected removed) He
                (proj1 (has_false _ _) Hnot) Hfind eq_refl)
      as [fs' [intake' [Hc [Hi [Hkids _]]]]].
    { rewrite Hname. apply findChild_none. apply findChild_filter_same. }
    unfold collectEvidence in Hc. cbn [fst snd] in Hc.
    rewrite He, Hnot in Hc. simpl in Hc. injection Hc as Hfs.
    assert (Efs : fileSystem again = fs')
      by (rewrite <- Hfs; exact (f_equal fst E)).
    assert (Eev : evidenceCollected again = Js.add (name ev) (evidenceCollected removed))
      by (exact (f_equal snd E)).
    rewrite Efs, Eev, Hi, Hname. split; [|split].
    + apply has_In. apply In_add. right. reflexivity.
    + simpl. rewrite Hkids. rewrite findChild_app, findChild_filter_same.
      unfold findChild. simpl. rewrite Hname, String.eqb_refl. reflexivity.
    + simpl. rewrite Hkids, map_app. simpl. rewrite Hname. reflexivity.
Qed.

Lemma rm_then_cat_collects_again_witness :
  let atHome :=
    Demo.run ["cd data"; "cat 证据_1.txt"; "cat 证据_4.txt"; "cd /home/user"]
      Demo.start in
  let removed := runCommand "rm 证据_1.txt" "rm" ["证据_1.txt"] atHome in
  let again := runCommand "cat /data/证据_1.txt" "cat" ["/data/证据_1.txt"] removed in
  evidenceCollected atHome = ["证据_1.txt"; "证据_4.txt"] /\
  evidenceCollected removed = ["证据_4.txt"] /\
  Js.has "证据_1.txt" (evidenceCollected again) = true /\
  childNames (findNode homeUser (fileSystem again)) = ["证据_4.txt"; "证据_1.txt"].
Proof.
  intros atHome removed again.
  split; [vm_compute; reflexivity|]. split; [vm_compute; reflexivity|].
  destruct (rm_then_cat_collects_again atHome "rm 证据_1.txt" "cat /data/证据_1.txt"
              "证据_1.txt" "/data/证据_1.txt"
              (Demo.dir "user"
                 [assign (Demo.evidence (Demo.file "证据_1.txt" "one")) evidencePatch;
                  assign (Demo.evidence (Demo.file "证据_4.txt" "four")) evidencePatch])
              (assign (Demo.evidence (Demo.file "证据_1.txt" "one")) evidencePatch)
              (Demo.evidence (Demo.file "证据_1.txt" "one"))
              [assign (Demo.evidence (Demo.file "证据_1.txt" "one")) evidencePatch;
               assign (Demo.evidence (Demo.file "证据_4.txt" "four")) evidencePatch])
    as [_ [Hhas [_ Hnames]]].
  - discriminate.
  - discriminate.
  - vm_compute. reflexivity.
  - vm_compute. reflexivity.
  - reflexivity.
  - vm_compute. reflexivity.
  - vm_compute. reflexivity.
  - reflexivity.
  - reflexivity.
  - reflexivity.
  - reflexivity.
  - split; [exact Hhas | exact Hnames].
Defined.

(* ================================================================= *)
(** ** Files are never rewritten *)

Section SameFiles.

Local Open Scope list_scope.

Lemma sameFile_refl (d : FileNode) : sameFile d d.
Proof. repeat split. Qed.

Lemma sameFile_trans (a b c : FileNode) :
  sameFile a b -> sameFile b c -> sameFile a c.
Proof.
  intros [H1 [H2 [H3 [H4 H5]]]] [K1 [K2 [K3 [K4 K5]]]].
  repeat split; congruence.
Qed.

Lemma sameFiles_refl (fs : FileNode) : sameFiles fs fs.
Proof. intros p d' _ H. exists d'. split; [exact H | apply sameFile_refl]. Qed.

Lemma sameFiles_trans (a b c : FileNode) :
  sameFiles a b -> sameFiles b c -> sameFiles a c.
Proof.
  intros Hab Hbc p d'' Hp H.
  destruct (Hbc p d'' Hp H) as [d' [H' S']].
  destruct (Hab p d' Hp H') as [d [H0 S0]].
  exists d. split; [exact H0 | apply (sameFile_trans _ _ _ S0 S')].
Qed.

(** A mutation that rewrites no file, and below which every node (but a
    new child of the intake directory) was there before. *)
Lemma mutateAt_sameFiles (f : FileNode -> FileNode) (q : Path) (fs t : FileNode) :
  keepsName f -> mutateAt q f fs = Some t ->
  (forall n, walk q fs = Some n ->
     sameFile n (f n) /\
     forall a r d',
       (forall x, q ++ a :: r <> skipRoot homeUser ++ [x]) ->
       walk (a :: r) (f n) = Some d' -> walk (a :: r) n = Some d') ->
  sameFiles fs t.
Proof.
  intros Hf Hm Hloc p d' Hout Hp.
  destruct (path_cases q p)
    as [[r ->]|[[b [q' ->]]|[c [a [b [r [q' [Hne [-> ->]]]]]]]]].
  - destruct (walk_mutateAt_below _ _ _ _ Hf Hm) as [n [Hw Hr]].
    destruct (Hloc n Hw) as [Hsame Hbelow].
    rewrite Hr in Hp. destruct r as [|a r].
    + simpl in Hp. injection Hp as <-. exists n.
      rewrite app_nil_r. split; [exact Hw | exact Hsame].
    + exists d'. rewrite walk_app, Hw. split; [|apply sameFile_refl].
      apply Hbelow; assumption.
  - destruct (walk_mutateAt_through _ _ _ _ _ Hf Hm) as [n [n' [Hw [Hm' Hr]]]].
    specialize (Hr []). rewrite app_nil_r in Hr. rewrite Hr in Hp.
    simpl in Hp. injection Hp as <-.
    destruct (mutateAt_cons_shape _ _ _ _ _ Hm') as [cs' ->].
    exists n. split; [exact Hw | repeat split].
  - rewrite (walk_mutateAt_beside _ _ _ _ _ _ _ _ Hf Hne Hm) in Hp.
    exists d'. split; [exact Hp | apply sameFile_refl].
Qed.

Lemma effect_sameFiles x y : Effect x y -> sameFiles (fst x) (fst y).
Proof.
  intros [p patch fs t L Hpatch Hu | node fs L Hty Hhas | nm p fs t L Hp Hd]; simpl.
  - rewrite updateFileSystemNode_mutateAt in Hu.
    apply (mutateAt_sameFiles _ _ _ _
             (keepsName_assign patch
                ltac:(destruct Hpatch as [->| ->]; reflexivity)) Hu).
    intros n _. split.
    + destruct Hpatch as [->| ->]; repeat split.
    + intros a r d' _ Hw. rewrite <- Hw. symmetry.
      apply walk_cons_congr; destruct Hpatch as [->| ->]; reflexivity.
  - unfold appendClone.
    destruct (findNode homeUser fs) as [intake|] eqn:Ei; [|apply sameFiles_refl].
    destruct (children intake) as [cs|] eqn:Ec; [|apply sameFiles_refl].
    destruct (findChild (name node) cs) eqn:En; [apply sameFiles_refl|].
    destruct (updateFileSystemNode _ _ fs) as [t|] eqn:Eu; [|apply sameFiles_refl].
    rewrite updateFileSystemNode_mutateAt in Eu.
    apply (mutateAt_sameFiles _ _ _ _
             (keepsName_assign
                (childrenPatch (cs ++ [assign node evidencePatch])) eq_refl) Eu).
    intros n Hn. rewrite findNode_walk in Ei.
    assert (n = intake) by congruence. subst n.
    split; [repeat split|].
    intros a r d' Hout Hw. simpl in Hw. simpl. rewrite Ec.
    destruct (type intake); [discriminate|].
    rewrite findChild_app in Hw.
    destruct (findChild a cs) as [c|]; [exact Hw|].
    exfalso. unfold findChild in Hw. simpl in Hw.
    destruct (name node =? a); [|discriminate].
    destruct r as [|a' r].
    + apply (Hout a). reflexivity.
    + rewrite walk_file in Hw by exact Hty. discriminate.
  - destruct (deleteNode_mutateAt _ _ _ _ Hd) as [parent [cs [Hw [Hc Hm]]]].
    apply (mutateAt_sameFiles _ _ _ _ (keepsName_withChildren _) Hm).
    intros n Hn. assert (n = parent) by congruence. subst n.
    split; [repeat split|].
    intros a r d' _ Hw'. simpl in Hw'. simpl. rewrite Hc.
    destruct (type parent); [discriminate|].
    destruct (string_dec a nm) as [->|Hne].
    + rewrite findChild_filter_same in Hw'. discriminate.
    + rewrite findChild_filter_other in Hw' by exact Hne. exact Hw'.
Qed.

Lemma steps_sameFiles (es : list Event) (a : App) :
  sameFiles (fileSystem a) (fileSystem (steps es a)).
Proof.
  change (sameFiles (fst (treeAndLedger a)) (fst (treeAndLedger (steps es a)))).
  generalize (steps_effects es a).
  generalize (treeAndLedger a) (treeAndLedger (steps es a)).
  intros x y H. induction H as [|x y z H H' IH].
  - apply sameFiles_refl.
  - eapply sameFiles_trans; [apply effect_sameFiles; exact H | exact IH].
Qed.

End SameFiles.

(** X11.  Files are never rewritten, and nothing is created outside the intake
    directory.  After any run, a node found at a path that is not a child
    of /home/user was at that path at the start, with the same name, type,
    content, script action and evidence mark: commands only change the
    flags [isHidden] and [isLocked], the password, and the lists of
    children. *)
Theorem files_are_never_rewritten (es : list Event) (a : App) (parts : list string)
  (d' : FileNode) :
  (forall x, parts <> ["home"; "user"; x]) ->
  findNode ("" :: parts) (fileSystem (steps es a)) = Some d' ->
  exists d,
    findNode ("" :: parts) (fileSystem a) = Some d /\
    name d' = name d /\ type d' = type d /\ content d' = content d /\
    scriptAction d' = scriptAction d /\ isEvidence d' = isEvidence d.
Proof.
  intros Hout H. rewrite findNode_walk in *. simpl skipRoot in *.
  apply (steps_sameFiles es a parts d' Hout H).
Qed.

Lemma files_are_never_rewritten_witness :
  let es :=
    map Typed ["cd data"; "cat 证据_1.txt"; "search secret.txt"; "cd vault open";
               "cd /home/user"; "rm 证据_1.txt"] in
  exists d' d,
    findNode [""; "data"; "secret.txt"] (fileSystem (steps es Demo.start)) = Some d' /\
    isHidden d' = Some false /\
    findNode [""; "data"; "secret.txt"] (fileSystem Demo.start) = Some d /\
    isHidden d = Some true /\
    content d' = content d /\ isEvidence d' = isEvidence d.
Proof.
  intro es.
  exists (assign (Demo.hidden (Demo.evidence (Demo.file "secret.txt" "hush"))) revealPatch).
  assert (H : findNode [""; "data"; "secret.txt"] (fileSystem (steps es Demo.start))
              = Some (assign (Demo.hidden (Demo.evidence (Demo.file "secret.txt" "hush")))
                        revealPatch))
    by (vm_compute; reflexivity).
  destruct (files_are_never_rewritten es Demo.start ["data"; "secret.txt"] _
              ltac:(intros x; discriminate) H)
    as [d [Hd [_ [_ [Hc [_ He]]]]]].
  exists d. split; [exact H|]. split; [reflexivity|]. split; [exact Hd|].
  split; [|split; [exact Hc | exact He]].
  vm_compute in Hd. injection Hd as <-. reflexivity.
Defined.

(* ================================================================= *)
(** ** Into a directory and back *)

Lemma removelast_snoc {A} (l : list A) (x : A) : removelast (l ++ [x])%list = l.
Proof. apply removelast_last. Qed.

(** X3.  Into a child directory and back.  [cd name] into a child directory
    that carries no password, followed by [cd ..], ends at the current
    path it started from, with the tree untouched - provided the directory
    one comes back to carries no password either: [cd ..] is a [cd] like
    any other, and a password on the parent refuses it. *)
Theorem cd_child_then_back (s : App) (line1 line2 child : string)
  (parent d : FileNode) :
  child <> "" -> currentPath s <> [] ->
  resolvePath child (currentPath s) = Some (currentPath s ++ [child])%list ->
  findNode (currentPath s) (fileSystem s) = Some parent -> type parent = DIRECTORY ->
  findNode (currentPath s ++ [child])%list (fileSystem s) = Some d ->
  type d = DIRECTORY -> Js.truthyS (password d) = false ->
  let inside := runCommand line1 "cd" [child] s in
  let back := runCommand line2 "cd" [".."] inside in
  currentPath inside = (currentPath s ++ [child])%list /\
  (Js.truthyS (password parent) = false ->
     currentPath back = currentPath s /\ fileSystem back = fileSystem s) /\
  (Js.truthyS (password parent) = true ->
     currentPath back = currentPath inside /\
     history back
     = (history inside ++ [mkLine input line2 (Some (getPathString (currentPath inside)));
                           mkLine output (msgDenied (name parent)) None])%list).
Proof.
  intros Hc Hne Hres Hparent Hpty Hd Hdty Hdpw inside back.
  assert (E1 : inside = setCurrentPath (currentPath s ++ [child])%list
                          (addToHistory s input line1 s)).
  { apply (cd_without_password s line1 child [] _ d); assumption. }
  assert (Hup : resolvePath ".." (currentPath inside) = Some (currentPath s)).
  { rewrite E1. simpl currentPath. unfold resolvePath. simpl String.eqb. cbv iota.
    destruct (currentPath s) as [|x rest]; [contradiction|].
    assert (Hlen : Nat.leb (List.length ((x :: rest) ++ [child])%list) 1 = false).
    { rewrite length_app. simpl. apply Nat.leb_gt. lia. }
    rewrite Hlen, removelast_snoc. reflexivity. }
  assert (Hfs : fileSystem inside = fileSystem s) by (rewrite E1; reflexivity).
  split; [rewrite E1; reflexivity|]. split.
  - intro Hpw.
    assert (E2 : back = setCurrentPath (currentPath s)
                          (addToHistory inside input line2 inside)).
    { apply (cd_without_password inside line2 ".." [] _ parent);
        [discriminate | exact Hup | rewrite Hfs; exact Hparent | exact Hpty | exact Hpw]. }
    rewrite E2. simpl. split; [reflexivity | exact Hfs].
  - intro Hpw. subst back. rewrite run_cd. unfold case_cd.
    rewrite arg0_cons. simpl String.eqb. cbv iota.
    rewrite Hup, Hfs, Hparent, Hpty, Hpw.
    assert (Hno : Js.strictEq (nth_error [".."] 1) (password parent) = false).
    { simpl nth_error. unfold Js.strictEq.
      destruct (password parent); [reflexivity | discriminate Hpw]. }
    rewrite Hno. simpl. rewrite <- app_assoc. auto.
Qed.

Lemma cd_child_then_back_witness :
  let inData := Demo.run ["cd data"] Demo.start in
  let inside := runCommand "cd ghost" "cd" ["ghost"] inData in
  let back := runCommand "cd .." "cd" [".."] inside in
  currentPath inside = [""; "data"; "ghost"] /\ currentPath back = [""; "data"].
Proof.
  intros inData inside back.
  destruct (cd_child_then_back inData "cd ghost" "cd .." "ghost"
              (match findNode [""; "data"] Demo.root with
               | Some n => n
               | None => Demo.root
               end)
              (Demo.hidden (Demo.dir "ghost" [Demo.file "boo.txt" "boo"])))
    as [H1 [H2 _]].
  - discriminate.
  - discriminate.
  - reflexivity.
  - vm_compute. reflexivity.
  - reflexivity.
  - vm_compute. reflexivity.
  - reflexivity.
  - reflexivity.
  - split; [exact H1|]. apply H2. reflexivity.
Defined.

(* ================================================================= *)
(** ** The transcript on screen *)

Section Rendering.

Local Open Scope string_scope.

Lemma concat_cons (x : string) (l : list string) :
  String.concat "" (x :: l) = x ++ String.concat "" l.
Proof.
  destruct l as [|y l]; simpl; [rewrite append_empty_r|]; reflexivity.
Qed.

Lemma split_nonempty_parts (text : string) (k : nat) : Render.split k text <> [].
Proof.
  destruct text as [|c rest]; simpl; [discriminate|].
  destruct k as [|[|k]].
  - destruct (Render.matchAt (String c rest)) as [|[|m]]; try discriminate.
    unfold Render.put. destruct (Render.split 0 rest); discriminate.
  - discriminate.
  - unfold Render.put. destruct (Render.split (S k) rest); discriminate.
Qed.

Lemma concat_put (c : ascii) (parts : list string) :
  parts <> [] ->
  String.concat "" (Render.put c parts) = String c (String.concat "" parts).
Proof.
  intro H. destruct parts as [|p ps]; [contradiction|].
  unfold Render.put. rewrite !concat_cons. reflexivity.
Qed.

(** The parts, put together again, are the text. *)
Lemma split_join (text : string) :
  forall k, String.concat "" (Render.split k text) = text.
Proof.
  induction text as [|c rest IH]; intro k; [reflexivity|].
  simpl Render.split.
  destruct k as [|[|k]].
  - destruct (Render.matchAt (String c rest)) as [|[|m]].
    + rewrite concat_put by apply split_nonempty_parts. rewrite IH. reflexivity.
    + rewrite !concat_cons, IH. reflexivity.
    + rewrite concat_cons, concat_put by apply split_nonempty_parts.
      rewrite IH. reflexivity.
  - rewrite concat_cons, IH. reflexivity.
  - rewrite concat_put by apply split_nonempty_parts. rewrite IH. reflexivity.
Qed.

Lemma startsWith_cut (pre s : string) :
  Js.startsWith pre s = true -> s = pre ++ Js.drop (String.length pre) s.
Proof.
  revert s. induction pre as [|c pre IH]; intros s H; [reflexivity|].
  destruct s as [|d s]; [discriminate|].
  simpl in H. apply andb_prop in H. destruct H as [Hc H].
  apply Ascii.eqb_eq in Hc. subst d. simpl. rewrite <- (IH s H). reflexivity.
Qed.

Lemma substring_drop (n : nat) (s : string) :
  String.substring 0 n s ++ Js.drop n s = s.
Proof.
  revert s. induction n as [|n IH]; intro s.
  - destruct s; reflexivity.
  - destruct s as [|c s]; [reflexivity|]. simpl. rewrite IH. reflexivity.
Qed.

Lemma length_append (a b : string) :
  String.length (a ++ b) = String.length a + String.length b.
Proof. induction a as [|c a IH]; simpl; [reflexivity | rewrite IH; reflexivity]. Qed.

(** A part between the two markers is the markers around its group. *)
Lemma hidden_part (part : string) :
  Js.startsWith "[[HIDDEN:" part = true -> Render.endsWith "]]" part = true ->
  "[[HIDDEN:" ++ String.substring 9 (String.length part - 11) part ++ "]]" = part.
Proof.
  intros Hs He. apply startsWith_cut in Hs.
  remember (Js.drop (String.length "[[HIDDEN:") part) as r eqn:Er. clear Er.
  subst part. unfold Render.endsWith in He.
  apply andb_prop in He. destruct He as [_ He]. apply String.eqb_eq in He.
  rewrite length_append in *.
  change (String.length "[[HIDDEN:") with 9 in *.
  change (String.length "]]") with 2 in *.
  destruct r as [|c [|d r]].
  - simpl in He. discriminate He.
  - simpl in He. discriminate He.
  - replace (9 + String.length (String c (String d r)) - 2)
      with (9 + String.length r) in He by (simpl; lia).
    replace (9 + String.length (String c (String d r)) - 11)
      with (String.length r) by (simpl; lia).
    change (Js.drop (9 + String.length r) ("[[HIDDEN:" ++ String c (String d r)))
      with (Js.drop (String.length r) (String c (String d r))) in He.
    change (String.substring 9 (String.length r) ("[[HIDDEN:" ++ String c (String d r)))
      with (String.substring 0 (String.length r) (String c (String d r))).
    f_equal. rewrite <- He at 1. apply substring_drop.
Qed.

Lemma renderPart_source (part : string) :
  Render.source (Render.renderPart part) = part.
Proof.
  unfold Render.renderPart.
  destruct (String.eqb_spec part "") as [->|_]; [reflexivity|].
  destruct (String.eqb_spec part newline) as [->|_]; [reflexivity|].
  destruct (Js.startsWith "[[HIDDEN:" part) eqn:Hs; simpl andb.
  - destruct (Render.endsWith "]]" part) eqn:He.
    + unfold Render.source. apply hidden_part; assumption.
    + destruct (_ || _); reflexivity.
  - destruct (_ || _); reflexivity.
Qed.

Lemma renderContent_source (text : string) :
  String.concat "" (map Render.source (Render.renderContent text)) = text.
Proof.
  unfold Render.renderContent. rewrite map_map.
  rewrite (map_ext _ (fun p => p) renderPart_source), map_id.
  apply split_join.
Qed.

End Rendering.

(** X19.  Rendering loses no text.  The parts [renderContent] cuts an output
    line into, put together again, are the line; and the elements it
    makes of them stand for these parts one by one: an empty part for
    nothing, a line feed for a line break, a part between the two hidden
    markers for a span that shows what is between them, every other part
    for a span that shows the part.  So what the transcript holds is on
    the screen, character by character and in order, but for the markers
    of hidden text; and the other kinds of lines are shown as they are. *)
Theorem rendering_loses_no_text :
  (forall text,
     String.concat "" (Render.split 0 text) = text /\
     String.concat "" (map Render.source (Render.renderContent text)) = text) /\
  (forall lines,
     map Render.blockSource (Render.TerminalOutput lines) = map line_content lines).
Proof.
  split.
  - intro text. split; [apply split_join | apply renderContent_source].
  - intro lines. unfold Render.TerminalOutput. rewrite map_map.
    apply map_ext. intro line.
    destruct (line_type line); simpl; try reflexivity.
    apply renderContent_source.
Qed.

(* ================================================================= *)
(** ** The keys of the saved games *)

Lemma append_cancel (pre a b : string) : pre ++ a = pre ++ b -> a = b.
Proof.
  induction pre as [|c pre IH]; simpl; intro H; [exact H|].
  injection H as H. apply IH. exact H.
Qed.

(** X20.  The saved games of two sessions do not meet.  The identifier of the
    session is made once: when [sessionStorage] holds one it is used as it
    is, and the one that is made when there is none is stored, so that
    every later call (there is one in each render) yields it again,
    whatever the clock and the random number are by then.  The two keys
    under which a session saves, one for the game and one for the
    checkpoint, differ from each other and from the keys of every other
    session. *)
Theorem session_keys_are_separate :
  (forall stored now random now' random',
     let first := getPlayerSessionId stored now random in
     getPlayerSessionId (snd first) now' random' = first) /\
  (forall a b, SAVE_KEY a = SAVE_KEY b -> a = b) /\
  (forall a b, CHECKPOINT_KEY a = CHECKPOINT_KEY b -> a = b) /\
  (forall a b, SAVE_KEY a <> CHECKPOINT_KEY b).
Proof.
  split; [|split; [|split]].
  - intros stored now random now' random'. unfold getPlayerSessionId.
    destruct (Js.truthyS stored) eqn:E; cbn [snd].
    + rewrite E. reflexivity.
    + reflexivity.
  - intros a b. apply append_cancel.
  - intros a b. apply append_cancel.
  - intros a b H. unfold SAVE_KEY, CHECKPOINT_KEY in H. simpl in H.
    discriminate H.
Qed.


(* ================================================================= *)
(** ** Discovered paths are kept *)

Lemma step_keeps_discovered (e : Event) (a : App) (path : string) :
  In path (discoveredPaths a) -> In path (discoveredPaths (step e a)).
Proof.
  intro H.
  destruct (step_discoveredPaths e a) as [E|[cmdStr [args [_ [_ [_ E]]]]]];
    rewrite E; [exact H|].
  apply In_add. left. exact H.
Qed.

Lemma step_NoDup_discovered (e : Event) (a : App) :
  NoDup (discoveredPaths a) -> NoDup (discoveredPaths (step e a)).
Proof.
  intro H.
  destruct (step_discoveredPaths e a) as [E|[cmdStr [args [_ [_ [_ E]]]]]];
    rewrite E; [exact H|].
  apply NoDup_add. exact H.
Qed.

Lemma steps_keep_discovered (es : list Event) (a : App) (path : string) :
  In path (discoveredPaths a) -> In path (discoveredPaths (steps es a)).
Proof.
  revert a. induction es as [|e es IH]; intros a H; [exact H|].
  rewrite steps_cons. apply IH. apply step_keeps_discovered. exact H.
Qed.

Lemma steps_NoDup_discovered (es : list Event) (a : App) :
  NoDup (discoveredPaths a) -> NoDup (discoveredPaths (steps es a)).
Proof.
  revert a. induction es as [|e es IH]; intros a H; [exact H|].
  rewrite steps_cons. apply IH. apply step_NoDup_discovered. exact H.
Qed.

(** X21.  What is opened stays opened.  Over any run of commands, timeouts
    and clicks, a path that is in the set of discovered paths stays in it,
    and the set stays free of duplicates; so a row of the panel whose path
    string is discovered, or is "/", is opened after the run as well: the
    panel never folds a directory again. *)
Theorem discovered_paths_are_kept (es : list Event) (a : App) :
  (forall path, In path (discoveredPaths a) ->
                In path (discoveredPaths (steps es a))) /\
  (NoDup (discoveredPaths a) -> NoDup (discoveredPaths (steps es a))) /\
  (forall path,
     Js.has path (discoveredPaths a) || (path =? "/") = true ->
     Js.has path (discoveredPaths (steps es a)) || (path =? "/") = true).
Proof.
  split; [intro path; apply steps_keep_discovered|].
  split; [apply steps_NoDup_discovered|].
  intros path H. apply orb_true_iff in H. apply orb_true_iff.
  destruct H as [H|H]; [left | right; exact H].
  apply has_In. apply steps_keep_discovered. apply has_In. exact H.
Qed.
